(** * Nezha dashboard: agent authentication, Geo/ASN fallback cache and
      the live-state broadcaster

    A shallow embedding of
      - [service/rpc/auth.go]              ([authHandler.Check]),
      - the ip-api.com fallback of package [geoip] ([getCachedResult],
        [setCachedResult], [checkRateLimit], [queryIPAPI], the wrappers
        [Lookup], [LookupASN], [LookupBoth], and [ClearCache],
        [GetCacheStats]),
      - [cmd/dashboard/controller/ws.go]   ([serverStream],
        [getServerStat], [equalASCIIFold], [checkSameOrigin]),
      - the agent side described by the modification guide ([Validate],
        [isValidClientID], [generateClientID] and the generators it
        calls, [LoadConfig], [establishConnection],
        [handleConnectionError]),
    followed by the properties established about them.

    Go strings are byte sequences: they are modelled by [string], whose
    [String.length] is Go's [len]. Global variables of the Go packages are
    fields of explicit state records which every operation threads. *)

From Stdlib Require Import ZArith NArith Zbitwise String Ascii List Bool Lia.
From stdpp Require Import gmap strings.
Import ListNotations.

Local Open Scope string_scope.
Local Open Scope Z_scope.

(* ===================================================================== *)
(** ** Package [time] as far as the sources use it *)
(* ===================================================================== *)

Module GoTime.

(** A [time.Duration] is an [int64] count of nanoseconds. *)
Definition maxDuration : Z := 2 ^ 63 - 1.
Definition minDuration : Z := - 2 ^ 63.

Definition Nanosecond : Z := 1.
Definition Second : Z := 1000000000 * Nanosecond.
Definition Minute : Z := 60 * Second.
Definition Hour : Z := 60 * Minute.

(** Wrap-around of [int64] arithmetic on durations. *)
Definition wrap64 (x : Z) : Z := (x + 2 ^ 63) mod 2 ^ 64 - 2 ^ 63.

(** An instant ([time.Time]) is a number of nanoseconds on one axis whose
    origin is the zero value [time.Time{}]. *)
Definition Time : Type := Z.
Definition zeroTime : Time := 0.

(** [t.Sub(u)]: the difference, saturated to the range of a Duration. *)
Definition Sub (t u : Time) : Z :=
  let d := t - u in
  if maxDuration <? d then maxDuration
  else if d <? minDuration then minDuration
  else d.

End GoTime.

(* ===================================================================== *)
(** ** Package [strings] as far as the sources use it *)
(* ===================================================================== *)

Module GoStrings.

Definition byteVal (a : ascii) : N := N_of_ascii a.

(** The ASCII members of [unicode.IsSpace]: tab, newline, vertical tab,
    form feed, carriage return and space. *)
Definition isAsciiSpace (a : ascii) : bool :=
  let n := byteVal a in
  (((9 <=? n) && (n <=? 13)) || (n =? 32))%N.

Definition isByte (n : N) (a : ascii) : bool := (byteVal a =? n)%N.

(** UTF-8 encodings of the remaining members of [unicode.IsSpace]:
    U+0085, U+00A0 (two bytes) and U+1680, U+2000..U+200A, U+2028,
    U+2029, U+202F, U+205F, U+3000 (three bytes). *)
Definition isSpace2 (a b : ascii) : bool :=
  isByte 194 a && (isByte 133 b || isByte 160 b).

Definition isSpace3 (a b c : ascii) : bool :=
  let n := byteVal c in
  (isByte 225 a && isByte 154 b && isByte 128 c)
  || (isByte 226 a && isByte 128 b
      && (((128 <=? n) && (n <=? 138)) || (n =? 168) || (n =? 169) || (n =? 175))%N)
  || (isByte 226 a && isByte 129 b && isByte 159 c)
  || (isByte 227 a && isByte 128 b && isByte 128 c).

(** [strings.TrimLeftFunc(s, unicode.IsSpace)] *)
Fixpoint trimLeft (s : string) : string :=
  match s with
  | EmptyString => EmptyString
  | String a r =>
      if isAsciiSpace a then trimLeft r
      else match r with
           | String b r' =>
               if isSpace2 a b then trimLeft r'
               else match r' with
                    | String c r'' => if isSpace3 a b c then trimLeft r'' else s
                    | EmptyString => s
                    end
           | EmptyString => s
           end
  end.

Fixpoint rev_onto (s acc : string) : string :=
  match s with
  | EmptyString => acc
  | String a r => rev_onto r (String a acc)
  end.

Definition rev (s : string) : string := rev_onto s EmptyString.

(** The same scan from the right end, on the reversed string (the bytes
    of a multi-byte space arrive last byte first). *)
Fixpoint trimLeftRev (s : string) : string :=
  match s with
  | EmptyString => EmptyString
  | String a r =>
      if isAsciiSpace a then trimLeftRev r
      else match r with
           | String b r' =>
               if isSpace2 b a then trimLeftRev r'
               else match r' with
                    | String c r'' => if isSpace3 c b a then trimLeftRev r'' else s
                    | EmptyString => s
                    end
           | EmptyString => s
           end
  end.

Definition trimRight (s : string) : string := rev (trimLeftRev (rev s)).

(** [strings.TrimSpace]: all leading and trailing white space removed. *)
Definition TrimSpace (s : string) : string := trimRight (trimLeft s).

(** Strings made of white space only. *)
Inductive blank : string -> Prop :=
| blank_empty : blank EmptyString
| blank_ascii a r : isAsciiSpace a = true -> blank r -> blank (String a r)
| blank_two a b r :
    isSpace2 a b = true -> blank r -> blank (String a (String b r))
| blank_three a b c r :
    isSpace3 a b c = true -> blank r -> blank (String a (String b (String c r))).

(** [strings.SplitN(s, " ", 2)]: cut at the first space, if any. *)
Fixpoint cutSpace (s : string) : option (string * string) :=
  match s with
  | EmptyString => None
  | String a r =>
      if isByte 32 a then Some (EmptyString, r)
      else match cutSpace r with
           | Some (h, t) => Some (String a h, t)
           | None => None
           end
  end.

Definition SplitN2 (s : string) : list string :=
  match cutSpace s with
  | Some (h, t) => [h; t]
  | None => [s]
  end.

(** [strings.ToLower]: a string of ASCII bytes is returned as it is when
    it has no upper-case letter, and with its upper-case letters moved to
    lower case otherwise; any other string goes through
    [strings.Map(unicode.ToLower, s)], which is the parameter
    [unicodeLower] here. *)
Definition isUpperByte (a : ascii) : bool :=
  let n := byteVal a in ((65 <=? n) && (n <=? 90))%N.

Definition lowerByte (a : ascii) : ascii :=
  if isUpperByte a then ascii_of_N (byteVal a + 32) else a.

Fixpoint isASCII (s : string) : bool :=
  match s with
  | EmptyString => true
  | String a r => (byteVal a <? 128)%N && isASCII r
  end.

Fixpoint hasUpper (s : string) : bool :=
  match s with
  | EmptyString => false
  | String a r => isUpperByte a || hasUpper r
  end.

Fixpoint mapBytes (f : ascii -> ascii) (s : string) : string :=
  match s with
  | EmptyString => EmptyString
  | String a r => String (f a) (mapBytes f r)
  end.

Definition ToLower (unicodeLower : string -> string) (s : string) : string :=
  if isASCII s then
    if hasUpper s then mapBytes lowerByte s else s
  else unicodeLower s.

End GoStrings.

(* ===================================================================== *)
(** ** Package [geoip], fallback through ip-api.com *)
(* ===================================================================== *)

Module IPAPI.
Import GoTime GoStrings.

(** [APIResponse]; the two [float64] coordinates take no part in any
    computation of the package and are left out. *)
Record APIResponse := mkAPIResponse {
  Status : string;
  Country : string;
  CountryCode : string;
  Region : string;
  RegionName : string;
  City : string;
  Zip : string;
  Timezone : string;
  ISP : string;
  Org : string;
  AS : string;
  Query : string
}.

Record cacheEntry := mkCacheEntry {
  countryCode : string;
  asn : string;
  timestamp : Time
}.

Definition apiBaseURL : string := "http://ip-api.com/json/".
Definition cacheExpiry : Z := 24 * Hour.
Definition minRequestInterval : Z := 2 * Second.
Definition StatusOK : Z := 200.

(** The package-level variables [ipCache] and [lastRequestTime], the
    wall clock, and a record of what the package did to the outside
    world: the arguments of [time.Sleep], and the URLs given to
    [httpClient.Get] with the instant of each call, latest first. *)
Record State := mkState {
  clock : Time;
  ipCache : gmap string cacheEntry;
  lastRequestTime : Time;
  sleeps : list Z;
  fetched : list (string * Time)
}.

(** What [httpClient.Get] followed by the JSON decoder yields. *)
Inductive HttpOutcome :=
| GetFailed (err : string)
| GetDone (statusCode : Z) (body : string + APIResponse).

(** The part of a call that the program does not decide: how much longer
    than asked a sleeping goroutine stays off the processor, the time
    between the return of [checkRateLimit] and the moment the request of
    [httpClient.Get] leaves, the time the HTTP exchange takes from there,
    and the answer of the service. *)
Record Env := mkEnv {
  lag : Z;
  dispatch : Z;
  latency : Z;
  httpGet : string -> HttpOutcome
}.

Inductive Error :=
| ErrInvalidIP
| ErrRequestFailed (err : string)
| ErrStatusCode (code : Z)
| ErrDecode (err : string)
| ErrStatus (status : string)
| ErrASNNotFound (ip : string).

Definition advance (d : Z) (st : State) : State :=
  mkState (clock st + d) (ipCache st) (lastRequestTime st) (sleeps st) (fetched st).

(** [time.Since(t)] *)
Definition Since (st : State) (t : Time) : Z := Sub (clock st) t.

(** [time.Sleep(d)]: returns at once when [d <= 0], otherwise the clock
    has moved on by [d] when it returns. *)
Definition Sleep (d : Z) (st : State) : State :=
  let st' := mkState (clock st) (ipCache st) (lastRequestTime st)
                     (d :: sleeps st) (fetched st) in
  if 0 <? d then advance d st' else st'.

Definition getCachedResult (ip : string) (st : State) : string * string * bool :=
  match ipCache st !! ip with
  | None => ("", "", false)
  | Some entry =>
      if cacheExpiry <? Since st (timestamp entry) then ("", "", false)
      else (countryCode entry, asn entry, true)
  end.

Definition setCachedResult (ip cc org : string) (st : State) : State :=
  mkState (clock st)
          (<[ip := mkCacheEntry cc org (clock st)]> (ipCache st))
          (lastRequestTime st) (sleeps st) (fetched st).

Definition checkRateLimit (env : Env) (st : State) : State :=
  let elapsed := Since st (lastRequestTime st) in
  let st1 :=
    if elapsed <? minRequestInterval
    then Sleep (wrap64 (minRequestInterval - elapsed)) st
    else st in
  let st2 := advance (lag env) st1 in
  mkState (clock st2) (ipCache st2) (clock st2) (sleeps st2) (fetched st2).

(** The organisation kept in the cache: the [AS] field without its
    leading AS number, else the [Org] field. *)
Definition orgOf (result : APIResponse) : string :=
  if negb (String.eqb (AS result) "") then
    match SplitN2 (AS result) with
    | _ :: second :: _ => second
    | _ => AS result
    end
  else if negb (String.eqb (Org result) "") then Org result
  else "".

(** The request for [url] leaves: it is recorded with its instant. *)
Definition send (url : string) (st : State) : State :=
  mkState (clock st) (ipCache st) (lastRequestTime st) (sleeps st)
          ((url, clock st) :: fetched st).

(** [httpClient.Get(url)], called when [checkRateLimit] has returned and
    released [requestMu]: the request leaves [dispatch env] after the
    call, and the answer is there [latency env] later. *)
Definition Get (env : Env) (url : string) (st : State) : HttpOutcome * State :=
  (httpGet env url,
   advance (latency env) (send url (advance (dispatch env) st))).

(** [net.IP]: [None] is the nil slice, [Some s] an address whose
    [String()] is [s]. *)
Definition queryIPAPI (env : Env) (ip : option string) (st : State)
  : (Error + APIResponse) * State :=
  match ip with
  | None => (inl ErrInvalidIP, st)
  | Some ipStr =>
      match getCachedResult ipStr st with
      | (cc, org, true) =>
          (inr (mkAPIResponse "success" "" cc "" "" "" "" "" "" "" org ipStr), st)
      | (_, _, false) =>
          let st1 := checkRateLimit env st in
          let url := String.append apiBaseURL ipStr in
          match Get env url st1 with
          | (GetFailed e, st2) => (inl (ErrRequestFailed e), st2)
          | (GetDone code body, st2) =>
              if negb (code =? StatusOK) then (inl (ErrStatusCode code), st2)
              else match body with
                   | inl e => (inl (ErrDecode e), st2)
                   | inr result =>
                       if negb (String.eqb (Status result) "success")
                       then (inl (ErrStatus (Status result)), st2)
                       else (inr result,
                             setCachedResult ipStr (CountryCode result)
                                             (orgOf result) st2)
                   end
          end
      end
  end.

(** [LookupASN] *)
Definition LookupASN (env : Env) (ip : option string) (st : State)
  : (Error + string) * State :=
  match queryIPAPI env ip st with
  | (inl e, st') => (inl e, st')
  | (inr result, st') =>
      if negb (String.eqb (AS result) "") then
        match SplitN2 (AS result) with
        | _ :: second :: _ => (inr second, st')
        | _ => (inr (AS result), st')
        end
      else if negb (String.eqb (Org result) "") then (inr (Org result), st')
      else (inl (ErrASNNotFound (default "" ip)), st')
  end.

(** *** The exported wrappers and the maintenance of the cache *)

Inductive LookupError :=
| QueryError (e : Error)
| ErrCountryNotFound (ip : string).

(** [Lookup]; [unicodeLower] is the part of [strings.ToLower] that deals
    with strings that are not ASCII. *)
Definition Lookup (unicodeLower : string -> string) (env : Env)
           (ip : option string) (st : State) : (LookupError + string) * State :=
  match queryIPAPI env ip st with
  | (inl e, st') => (inl (QueryError e), st')
  | (inr result, st') =>
      if negb (String.eqb (CountryCode result) "")
      then (inr (ToLower unicodeLower (CountryCode result)), st')
      else (inl (ErrCountryNotFound (default "" ip)), st')
  end.

(** [LookupBoth]: the country code, empty when the answer has none, and
    the organisation, from one query. *)
Definition LookupBoth (unicodeLower : string -> string) (env : Env)
           (ip : option string) (st : State) : (Error + string * string) * State :=
  match queryIPAPI env ip st with
  | (inl e, st') => (inl e, st')
  | (inr result, st') =>
      let countryCode :=
        if negb (String.eqb (CountryCode result) "")
        then ToLower unicodeLower (CountryCode result)
        else "" in
      (inr (countryCode, orgOf result), st')
  end.

(** What the wrappers make of an organisation that comes back from the
    cache in the [AS] field: they cut it at its first space again. *)
Definition cachedOrg (org : string) : string :=
  match cutSpace org with
  | Some (_, rest) => rest
  | None => org
  end.

(** An entry is out of date at instant [now]. *)
Definition expiredAt (now : Time) (entry : cacheEntry) : bool :=
  cacheExpiry <? Sub now (timestamp entry).

(** [ClearCache]: every entry out of date at the time of the call is
    deleted. *)
Definition ClearCache (st : State) : State :=
  mkState (clock st)
          (filter (fun kv : string * cacheEntry => negb (expiredAt (clock st) (snd kv)))
                  (ipCache st))
          (lastRequestTime st) (sleeps st) (fetched st).

(** [GetCacheStats]: the number of entries, and the number of those out
    of date. *)
Definition GetCacheStats (st : State) : nat * nat :=
  (size (ipCache st),
   size (filter (fun kv : string * cacheEntry => expiredAt (clock st) (snd kv))
                (ipCache st))).

(** *** Calls in progress

    Goroutines call [queryIPAPI] while other calls are inside it. A
    call is followed from point to point: between two points it does
    what the function does there, in one step, and any amount of time
    can pass before its next step. [cacheMu] makes [getCachedResult] and
    [setCachedResult] one step each. [requestMu] is taken at the top of
    [checkRateLimit] and released when it returns: the call that holds
    it keeps every other call out of [checkRateLimit], through its
    sleep too, and has released it when it calls [httpClient.Get]. *)

(** Where a call is. *)
Inductive Point :=
| Called (ip : option string)           (* at the first statement *)
| AtLimiter (ipStr : string)            (* the cache missed; at requestMu.Lock() *)
| Locked (ipStr : string)               (* holds requestMu; at time.Since *)
| Pausing (ipStr : string) (wake : Time) (* holds requestMu; not to run before wake *)
| Cleared (ipStr : string)              (* checkRateLimit has returned *)
| Awaiting (ipStr : string)             (* the request has left *)
| Finished (r : Error + APIResponse).   (* queryIPAPI has returned *)

(** [checkRateLimit] from [time.Since] to [time.Sleep]: the state with
    the argument of the sleep recorded, and the instant before which the
    call does not run again. *)
Definition pause (st : State) : State * Time :=
  let elapsed := Since st (lastRequestTime st) in
  if elapsed <? minRequestInterval then
    let sleepTime := wrap64 (minRequestInterval - elapsed) in
    (mkState (clock st) (ipCache st) (lastRequestTime st)
             (sleepTime :: sleeps st) (fetched st),
     if 0 <? sleepTime then clock st + sleepTime else clock st)
  else (st, clock st).

(** [lastRequestTime = time.Now()] *)
Definition stamp (st : State) : State :=
  mkState (clock st) (ipCache st) (clock st) (sleeps st) (fetched st).

(** [queryIPAPI] from the return of [httpClient.Get] to its own. *)
Definition settle (ipStr : string) (o : HttpOutcome) (st : State)
  : (Error + APIResponse) * State :=
  match o with
  | GetFailed e => (inl (ErrRequestFailed e), st)
  | GetDone code body =>
      if negb (code =? StatusOK) then (inl (ErrStatusCode code), st)
      else match body with
           | inl e => (inl (ErrDecode e), st)
           | inr result =>
               if negb (String.eqb (Status result) "success")
               then (inl (ErrStatus (Status result)), st)
               else (inr result,
                     setCachedResult ipStr (CountryCode result) (orgOf result) st)
           end
  end.

(** The package with its calls in progress: the variables and the
    clock, the call that holds [requestMu], the point of every call, and
    two records, latest first: which call set [lastRequestTime] and
    when, and which call sent its request and when. *)
Record Program := mkProgram {
  vars : State;
  requestMu : option nat;
  calls : gmap nat Point;
  stamps : list (nat * Time);
  requests : list (nat * Time)
}.

(** Time passes; a call starts; a call runs to its next point; the
    exchange of a call ends. *)
Inductive Event :=
| Pass (d : Z)
| Enter (c : nat) (ip : option string)
| Move (c : nat)
| Reply (c : nat) (o : HttpOutcome).

Definition moved (c : nat) (p : Point) (st : State) (s : Program) : Program :=
  mkProgram st (requestMu s) (<[c := p]> (calls s)) (stamps s) (requests s).

(** A step is refused ([None]) when the call cannot take it: it waits
    for the mutex, for the end of its sleep or for the service, or it
    has returned. *)
Definition step (e : Event) (s : Program) : option Program :=
  let st := vars s in
  match e with
  | Pass d =>
      Some (mkProgram (advance d st) (requestMu s) (calls s) (stamps s) (requests s))
  | Enter c ip =>
      match calls s !! c with
      | Some _ => None
      | None => Some (moved c (Called ip) st s)
      end
  | Move c =>
      match calls s !! c with
      | Some (Called None) => Some (moved c (Finished (inl ErrInvalidIP)) st s)
      | Some (Called (Some ipStr)) =>
          match getCachedResult ipStr st with
          | (cc, org, true) =>
              Some (moved c
                      (Finished (inr (mkAPIResponse "success" "" cc "" "" "" "" "" "" ""
                                                    org ipStr)))
                      st s)
          | (_, _, false) => Some (moved c (AtLimiter ipStr) st s)
          end
      | Some (AtLimiter ipStr) =>
          match requestMu s with
          | Some _ => None
          | None =>
              Some (mkProgram st (Some c) (<[c := Locked ipStr]> (calls s))
                              (stamps s) (requests s))
          end
      | Some (Locked ipStr) =>
          Some (moved c (Pausing ipStr (snd (pause st))) (fst (pause st)) s)
      | Some (Pausing ipStr wake) =>
          if clock st <? wake then None
          else Some (mkProgram (stamp st) None (<[c := Cleared ipStr]> (calls s))
                               ((c, clock st) :: stamps s) (requests s))
      | Some (Cleared ipStr) =>
          Some (mkProgram (send (String.append apiBaseURL ipStr) st) (requestMu s)
                          (<[c := Awaiting ipStr]> (calls s))
                          (stamps s) ((c, clock st) :: requests s))
      | Some (Awaiting _) | Some (Finished _) | None => None
      end
  | Reply c o =>
      match calls s !! c with
      | Some (Awaiting ipStr) =>
          Some (moved c (Finished (fst (settle ipStr o st))) (snd (settle ipStr o st)) s)
      | _ => None
      end
  end.

Fixpoint run (evs : list Event) (s : Program) : option Program :=
  match evs with
  | [] => Some s
  | e :: rest =>
      match step e s with
      | Some s' => run rest s'
      | None => None
      end
  end.

(** The events of a call that meets [env] and runs from state [st]
    while no other call does. *)
Definition alone (env : Env) (c : nat) (ip : option string) (st : State) : list Event :=
  match ip with
  | None => [Enter c ip; Move c]
  | Some ipStr =>
      match getCachedResult ipStr st with
      | (_, _, true) => [Enter c ip; Move c]
      | (_, _, false) =>
          [Enter c ip; Move c; Move c; Move c;
           Pass (snd (pause st) - clock st); Pass (lag env); Move c;
           Pass (dispatch env); Move c;
           Pass (latency env); Reply c (httpGet env (String.append apiBaseURL ipStr))]
      end
  end.

(** Time does not run backwards. *)
Definition onward (e : Event) : Prop :=
  match e with
  | Pass d => 0 <= d
  | _ => True
  end.

(** The package as the program starts it, at instant [t0]. *)
Definition boot (t0 : Time) : State := mkState t0 ∅ zeroTime [] [].

Definition start (t0 : Time) : Program := mkProgram (boot t0) None ∅ [] [].

(** Instants, latest first, any two neighbours at least [gap] apart. *)
Fixpoint spaced (gap : Z) (ts : list Time) : Prop :=
  match ts with
  | t1 :: rest =>
      match rest with
      | t2 :: _ => t2 + gap <= t1
      | [] => True
      end /\ spaced gap rest
  | [] => True
  end.

(** The requests sent in the course of [evs] by a program started at
    [t0] left [minRequestInterval] apart. *)
Definition requestsApart (t0 : Time) (evs : list Event) : Prop :=
  forall s, run evs (start t0) = Some s ->
            spaced minRequestInterval (map snd (fetched (vars s))).

(** A call that has not been through [checkRateLimit]. *)
Definition unstamped (p : Point) : bool :=
  match p with
  | Called _ | AtLimiter _ | Locked _ | Pausing _ _ => true
  | _ => false
  end.

(** A call whose request has not left. *)
Definition unsent (p : Point) : bool :=
  match p with
  | Awaiting _ | Finished _ => false
  | _ => true
  end.

(** A call inside [checkRateLimit]. *)
Definition inside (p : Point) : bool :=
  match p with
  | Locked _ | Pausing _ _ => true
  | _ => false
  end.

(** What holds of every state reached from [start]. *)
Record paced (s : Program) : Prop := mkPaced {
  paced_clock : lastRequestTime (vars s) <= clock (vars s);
  paced_spaced : spaced minRequestInterval (map snd (stamps s));
  paced_latest : forall c t, head (stamps s) = Some (c, t) ->
                             lastRequestTime (vars s) = t;
  paced_past : forall c t, In (c, t) (stamps s) -> t <= lastRequestTime (vars s);
  paced_log : map snd (requests s) = map snd (fetched (vars s));
  paced_after : forall c t, In (c, t) (requests s) ->
                            exists t', In (c, t') (stamps s) /\ t' <= t;
  paced_holder : forall c p, calls s !! c = Some p -> inside p = true ->
                             requestMu s = Some c;
  paced_wake : forall c ip wake, calls s !! c = Some (Pausing ip wake) ->
                                 lastRequestTime (vars s) + minRequestInterval <= wake;
  paced_new : forall c, calls s !! c = None ->
                        ~ In c (map fst (stamps s)) /\ ~ In c (map fst (requests s));
  paced_unstamped : forall c p, calls s !! c = Some p -> unstamped p = true ->
                                ~ In c (map fst (stamps s));
  paced_unsent : forall c p, calls s !! c = Some p -> unsent p = true ->
                             ~ In c (map fst (requests s));
  paced_cleared : forall c ip, calls s !! c = Some (Cleared ip) ->
                               In c (map fst (stamps s));
  paced_once : List.NoDup (map fst (stamps s)) /\ List.NoDup (map fst (requests s))
}.

End IPAPI.

(* ===================================================================== *)
(** ** Package [rpc]: agent authentication and auto-provisioning *)
(* ===================================================================== *)

Module RPC.
Import GoStrings.

(** *** gRPC status errors *)

Inductive Code := Unauthenticated.
Record Status := mkStatus { code : Code; message : string }.

Definition msgNoMetadata : string := "获取 metaData 失败".
Definition msgAuthFailed : string := "客户端认证失败".
Definition msgBadUUID : string := "客户端标识符不合法，必须为1-64个字符".
Definition msgGroupMissing : string := "指定的服务器分组不存在".
Definition msgGroupQueryFailed : string := "查询服务器分组失败".
Definition msgGroupDenied : string := "指定的服务器分组不存在或无权限访问".

(** *** Package [model], the columns this file reads and writes

    Identities are [uint64]; no arithmetic is done on them. *)

Inductive UserRole := RoleAdmin | RoleMember.
Record UserInfo := mkUserInfo { Role : UserRole }.

Record ServerGroup := mkServerGroup {
  sg_ID : N;
  sg_UserID : N;
  sg_Name : string
}.

(** [model.Server]: the persisted columns set by [Check], and whether
    [model.InitServer] has prepared its in-memory state. *)
Record Server := mkServer {
  srv_ID : N;
  srv_UserID : N;
  srv_UUID : string;
  srv_Name : string;
  srv_initialised : bool
}.

Record ServerGroupServer := mkServerGroupServer {
  sgs_ID : N;
  sgs_UserID : N;
  sgs_ServerGroupId : N;
  sgs_ServerId : N
}.

(** *** The database behind [singleton.DB]

    Rows are kept in primary-key order. [last_server_id] and
    [last_member_id] are the auto-increment counters of the two tables
    that [Check] inserts into. *)
Record Tables := mkTables {
  server_groups : list ServerGroup;
  servers : list Server;
  server_group_servers : list ServerGroupServer;
  last_server_id : N;
  last_member_id : N
}.

Inductive Stmt :=
| SelectGroup (name : string) (owner : option N)
| Begin
| InsertServer (s : Server)
| InsertMember (m : ServerGroupServer)
| Commit
| Rollback.

(** A database handle: the committed tables, the statements sent so far
    (latest first), and the failures that the engine will answer the
    next statements with ([None], or an exhausted list: the statement
    is carried out). *)
Record Database := mkDatabase {
  tables : Tables;
  statements : list Stmt;
  faults : list (option string)
}.

(** *** The in-memory inventory, [singleton.ServerShared] *)
Record ServerClass := mkServerClass {
  uuidToID : gmap string N;
  list_ : gmap N Server
}.

(** A line written by [log.Printf] on auto-registration. *)
Record LogLine := mkLogLine {
  log_UUID : string;
  log_Name : string;
  log_Group : option (string * N);
  log_UserID : N
}.

(** *** Everything [Check] reads or writes outside its arguments *)
Record World := mkWorld {
  AgentSecretToUserId : gmap string N;
  UserInfoMap : gmap N UserInfo;
  ServerShared : ServerClass;
  DB : Database;
  blocklist : gset string;
  petnames : list string;
  logged : list LogLine
}.

(** The incoming call: its metadata ([None] when the context carries
    none) and the value stored under [model.CtxKeyRealIP], the empty
    string when there is none or it is not a string. *)
Record Ctx := mkCtx {
  metadata : option (gmap string (list string));
  realIP : string
}.

(** *** A state monad with early return

    [Failed] is a returned error, [Panic] a run-time panic (indexing an
    empty slice). *)
Inductive Res (A : Type) :=
| Val (a : A)
| Failed (e : Status)
| Panic.
Arguments Val {A} a.
Arguments Failed {A} e.
Arguments Panic {A}.

Definition M (A : Type) : Type := World -> Res A * World.

Definition ret {A} (a : A) : M A := fun w => (Val a, w).

Definition bind {A B} (m : M A) (k : A -> M B) : M B :=
  fun w =>
    match m w with
    | (Val a, w') => k a w'
    | (Failed e, w') => (Failed e, w')
    | (Panic, w') => (Panic, w')
    end.

Definition fail {A} (msg : string) : M A :=
  fun w => (Failed (mkStatus Unauthenticated msg), w).

Definition panic {A} : M A := fun w => (Panic, w).

Definition get : M World := fun w => (Val w, w).

Definition modify (f : World -> World) : M unit := fun w => (Val tt, f w).

Notation "x <- m ;; k" := (bind m (fun x => k))
  (at level 100, m at next level, right associativity, only parsing).
Notation "m ;;; k" := (bind m (fun _ => k))
  (at level 100, right associativity, only parsing).

Definition setDB (db : Database) (w : World) : World :=
  mkWorld (AgentSecretToUserId w) (UserInfoMap w) (ServerShared w) db
          (blocklist w) (petnames w) (logged w).

Definition setServerShared (ss : ServerClass) (w : World) : World :=
  mkWorld (AgentSecretToUserId w) (UserInfoMap w) ss (DB w)
          (blocklist w) (petnames w) (logged w).

Definition setBlocklist (b : gset string) (w : World) : World :=
  mkWorld (AgentSecretToUserId w) (UserInfoMap w) (ServerShared w) (DB w)
          b (petnames w) (logged w).

Definition setPetnames (l : list string) (w : World) : World :=
  mkWorld (AgentSecretToUserId w) (UserInfoMap w) (ServerShared w) (DB w)
          (blocklist w) l (logged w).

Definition setLogged (l : list LogLine) (w : World) : World :=
  mkWorld (AgentSecretToUserId w) (UserInfoMap w) (ServerShared w) (DB w)
          (blocklist w) (petnames w) l.

(** *** Collaborators *)

(** Modelled from the spec: [model.BlockIP] and [model.UnblockIP] of the
    abuse-mitigation layer, which is not part of these sources: they put
    an origin address on the block list and take it off again. *)
Definition BlockIP (ip : string) : M unit :=
  modify (fun w => setBlocklist ({[ip]} ∪ blocklist w) w).

Definition UnblockIP (ip : string) : M unit :=
  modify (fun w => setBlocklist (blocklist w ∖ {[ip]}) w).

(** [singleton.ServerShared.UUIDToID] *)
Definition UUIDToID (uuid : string) : M (option N) :=
  w <- get ;; ret (uuidToID (ServerShared w) !! uuid).

(** Modelled from the spec: [model.InitServer] and
    [singleton.ServerShared.Update] of the inventory state layer, which
    is not part of these sources: the first prepares the in-memory
    operational state of a record, the second registers the record and
    the mapping from its UUID to its identity. *)
Definition InitServer (s : Server) : Server :=
  mkServer (srv_ID s) (srv_UserID s) (srv_UUID s) (srv_Name s) true.

Definition Update (s : Server) (uuid : string) : M unit :=
  modify (fun w =>
    let ss := ServerShared w in
    setServerShared
      (mkServerClass (<[uuid := srv_ID s]> (uuidToID ss))
                     (<[srv_ID s := s]> (list_ ss))) w).

(** [petname.Generate(2, "-")]: the next name of the supply. *)
Definition Generate : M string :=
  fun w =>
    match petnames w with
    | [] => (Val "", w)
    | p :: rest => (Val p, setPetnames rest w)
    end.

Definition logPrintf (l : LogLine) : M unit :=
  modify (fun w => setLogged (l :: logged w) w).

(** *** [gorm] as far as [Check] uses it *)

(** One statement goes to the engine: it is recorded, and the engine
    answers with the next scheduled failure, if any. *)
Definition send (s : Stmt) : M (option string) :=
  fun w =>
    let db := DB w in
    (Val (mjoin (head (faults db))),
     setDB (mkDatabase (tables db) (s :: statements db) (tail (faults db))) w).

Definition setTables (t : Tables) : M unit :=
  modify (fun w =>
    let db := DB w in
    setDB (mkDatabase t (statements db) (faults db)) w).

Inductive QueryRes :=
| Found (g : ServerGroup)
| ErrRecordNotFound
| QueryFailed (err : string).

(** The condition of [Where("name = ? AND user_id = ?", ...)] when
    [owner] is given, of [Where("name = ?", ...)] otherwise. *)
Definition matches (name : string) (owner : option N) (g : ServerGroup) : bool :=
  String.eqb (sg_Name g) name
  && match owner with
     | Some uid => N.eqb (sg_UserID g) uid
     | None => true
     end.

(** [DB.Where(...).First(&serverGroup)]: the matching row with the least
    primary key. *)
Definition First (name : string) (owner : option N) : M QueryRes :=
  f <- send (SelectGroup name owner) ;;
  match f with
  | Some e => ret (QueryFailed e)
  | None =>
      w <- get ;;
      match find (matches name owner) (server_groups (tables (DB w))) with
      | Some g => ret (Found g)
      | None => ret ErrRecordNotFound
      end
  end.

(** [tx.Create(&s)] for a record whose primary key is zero: the engine
    assigns the next identity of the table. *)
Definition CreateServer (s : Server) : M (string + Server) :=
  w <- get ;;
  let t := tables (DB w) in
  let id := N.succ (last_server_id t) in
  let s' := mkServer id (srv_UserID s) (srv_UUID s) (srv_Name s) (srv_initialised s) in
  f <- send (InsertServer s') ;;
  match f with
  | Some e => ret (inl e)
  | None =>
      setTables (mkTables (server_groups t) (servers t ++ [s'])
                          (server_group_servers t) id (last_member_id t)) ;;;
      ret (inr s')
  end.

Definition CreateMember (m : ServerGroupServer) : M (string + ServerGroupServer) :=
  w <- get ;;
  let t := tables (DB w) in
  let id := N.succ (last_member_id t) in
  let m' := mkServerGroupServer id (sgs_UserID m) (sgs_ServerGroupId m) (sgs_ServerId m) in
  f <- send (InsertMember m') ;;
  match f with
  | Some e => ret (inl e)
  | None =>
      setTables (mkTables (server_groups t) (servers t)
                          (server_group_servers t ++ [m'])
                          (last_server_id t) id) ;;;
      ret (inr m')
  end.

(** [DB.Transaction(fn)]: [fn] runs between [Begin] and [Commit]; when
    [fn] returns an error or the commit fails, the tables are those from
    before [Begin]. *)
Definition Transaction {A} (fn : M (string + A)) : M (string + A) :=
  f <- send Begin ;;
  match f with
  | Some e => ret (inl e)
  | None =>
      w0 <- get ;;
      r <- fn ;;
      match r with
      | inl e =>
          send Rollback ;;; setTables (tables (DB w0)) ;;; ret (inl e)
      | inr a =>
          c <- send Commit ;;
          match c with
          | Some e => setTables (tables (DB w0)) ;;; ret (inl e)
          | None => ret (inr a)
          end
      end
  end.

(** *** [authHandler.Check] *)

(** The recurring pattern
    [var x string; if value, ok := md[key]; ok { x = strings.TrimSpace(value[0]) }]. *)
Definition mdValue (md : gmap string (list string)) (key : string) : M string :=
  match md !! key with
  | None => ret ""
  | Some [] => panic
  | Some (v :: _) => ret (TrimSpace v)
  end.

Definition isEmpty (s : string) : bool := String.eqb s "".

(** Lines 75-106: the identity of the group named in the metadata, zero
    when no group is asked for. *)
Definition resolveGroup (md : gmap string (list string)) (userId : N) : M N :=
  match md !! "server_group_name" with
  | None => ret 0%N
  | Some [] => panic
  | Some (v :: _) =>
      let groupName := TrimSpace v in
      if isEmpty groupName then ret 0%N
      else
        r <- First groupName (Some userId) ;;
        match r with
        | Found serverGroup => ret (sg_ID serverGroup)
        | ErrRecordNotFound =>
            w <- get ;;
            match UserInfoMap w !! userId with
            | Some (mkUserInfo RoleAdmin) =>
                r' <- First groupName None ;;
                match r' with
                | Found serverGroup => ret (sg_ID serverGroup)
                | ErrRecordNotFound => fail msgGroupMissing
                | QueryFailed _ => fail msgGroupQueryFailed
                end
            | _ => fail msgGroupDenied
            end
        | QueryFailed _ => fail msgGroupQueryFailed
        end
  end.

(** Lines 117-139: the closure given to [DB.Transaction]. *)
Definition createRecords (s : Server) (userId serverGroupID : N)
  : M (string + Server) :=
  r <- CreateServer s ;;
  match r with
  | inl e => ret (inl e)
  | inr s' =>
      if (0 <? serverGroupID)%N then
        r' <- CreateMember (mkServerGroupServer 0 userId serverGroupID (srv_ID s')) ;;
        match r' with
        | inl e => ret (inl e)
        | inr _ => ret (inr s')
        end
      else ret (inr s')
  end.

(** Lines 63-106: the display name and the group of the new record. *)
Definition prepare (md : gmap string (list string)) (userId : N)
  : M (string * N) :=
  given <- mdValue md "server_name" ;;
  serverName <- (if isEmpty given then Generate else ret given) ;;
  serverGroupID <- resolveGroup md userId ;;
  ret (serverName, serverGroupID).

(** Lines 145-162: what follows a committed transaction: the log line,
    [model.InitServer] and [ServerShared.Update]. *)
Definition announce (md : gmap string (list string)) (userId : N)
           (clientUUID serverName : string) (serverGroupID : N) (s : Server)
  : M N :=
  (if (0 <? serverGroupID)%N then
     groupName <- mdValue md "server_group_name" ;;
     logPrintf (mkLogLine clientUUID serverName
                       (Some (groupName, serverGroupID)) userId)
   else logPrintf (mkLogLine clientUUID serverName None userId)) ;;;
  let s' := InitServer s in
  Update s' clientUUID ;;;
  ret (srv_ID s').

(** Lines 62-163: the branch taken when the UUID has no identity yet. *)
Definition provision (md : gmap string (list string)) (userId : N)
           (clientUUID : string) : M N :=
  p <- prepare md userId ;;
  let serverName := fst p in
  let serverGroupID := snd p in
  let s := mkServer 0 userId clientUUID serverName false in
  r <- Transaction (createRecords s userId serverGroupID) ;;
  match r with
  | inl e => fail e
  | inr s' => announce md userId clientUUID serverName serverGroupID s'
  end.

(** Lines 61-165: the identity of a valid UUID. *)
Definition identify (md : gmap string (list string)) (userId : N)
           (clientUUID : string) : M N :=
  found <- UUIDToID clientUUID ;;
  match found with
  | Some clientID => ret clientID
  | None => provision md userId clientUUID
  end.

Definition badUUID (clientUUID : string) : bool :=
  isEmpty clientUUID || (64 <? String.length clientUUID)%nat.

Definition Check (ctx : Ctx) : M N :=
  match metadata ctx with
  | None => fail msgNoMetadata
  | Some md =>
      clientSecret <- mdValue md "client_secret" ;;
      if isEmpty clientSecret then fail msgAuthFailed
      else
        let ip := realIP ctx in
        w <- get ;;
        match AgentSecretToUserId w !! clientSecret with
        | None => BlockIP ip ;;; fail msgAuthFailed
        | Some userId =>
            UnblockIP ip ;;;
            clientUUID <- mdValue md "client_uuid" ;;
            if badUUID clientUUID then fail msgBadUUID
            else identify md userId clientUUID
        end
  end.

(** *** Notions used to state properties of [Check] *)

(** The metadata carry [s] under [key] once trimmed; [s] is empty when
    the key is absent. *)
Definition carries (md : gmap string (list string)) (key s : string) : Prop :=
  forall w, mdValue md key w = (Val s, w).

(** All that [Check] can see of the metadata under [key]. *)
Definition seen (md : gmap string (list string)) (key : string)
  : option (option string) :=
  match md !! key with
  | None => None
  | Some [] => Some None
  | Some (v :: _) => Some (Some (TrimSpace v))
  end.

Definition unblocked (ip : string) (w : World) : World :=
  setBlocklist (blocklist w ∖ {[ip]}) w.

Definition blocked (ip : string) (w : World) : World :=
  setBlocklist ({[ip]} ∪ blocklist w) w.


(** The metadata [md'] show [Check] what [md] shows it. *)
Definition sameView (md md' : gmap string (list string)) : Prop :=
  seen md' "client_secret" = seen md "client_secret"
  /\ seen md' "client_uuid" = seen md "client_uuid"
  /\ seen md' "server_name" = seen md "server_name"
  /\ seen md' "server_group_name" = seen md "server_group_name".

(** [m] leaves the component [f] of the world as it found it. *)
Definition keeps {X A} (f : World -> X) (m : M A) : Prop :=
  forall w, f (snd (m w)) = f w.

Definition dbTables (w : World) : Tables := tables (DB w).

(** The membership rows that [createRecords] adds for the server [s']:
    one when a group was resolved, none otherwise. *)
Definition memberRows (t : Tables) (userId gid : N) (s' : Server)
  : list ServerGroupServer :=
  if (0 <? gid)%N
  then [mkServerGroupServer (N.succ (last_member_id t)) userId gid (srv_ID s')]
  else [].

(** The number of statements of the transaction of [Check]: [Begin],
    the insertion of the server row, that of the membership row when a
    group was resolved, and [Commit]. *)
Definition transactionLength (gid : N) : nat := if (0 <? gid)%N then 4 else 3.

(** The first failure among the answers of the engine to the next [n]
    statements, as [send] reads them off the schedule. *)
Fixpoint firstFault (n : nat) (fs : list (option string)) : option string :=
  match n with
  | O => None
  | S n' =>
      match mjoin (head fs) with
      | Some e => Some e
      | None => firstFault n' (tail fs)
      end
  end.

(** [m] returns a value or an error: it does not panic. *)
Definition total {A} (m : M A) : Prop := forall w, fst (m w) <> Panic.

(** The keys that [Check] reads. *)
Definition checkedKeys : list string :=
  ["client_secret"; "client_uuid"; "server_name"; "server_group_name"].

(** Each of these keys that the metadata hold has at least one value. *)
Definition populated (md : gmap string (list string)) : Prop :=
  forall key, In key checkedKeys -> md !! key <> Some [].

(** The Identity Cache agrees with the auto-increment counter of the
    server table: every mapped identity has been issued, and no two
    UUIDs share one. *)
Record coherent (w : World) : Prop := mkCoherent {
  issued : forall uuid id,
    uuidToID (ServerShared w) !! uuid = Some id ->
    (id <= last_server_id (dbTables w))%N;
  distinct : forall uuid uuid' id,
    uuidToID (ServerShared w) !! uuid = Some id ->
    uuidToID (ServerShared w) !! uuid' = Some id ->
    uuid = uuid'
}.

(** The name that [Check] gives a new record: the one supplied, or the
    next generated one. *)
Definition chosenName (given : string) (w : World) : string :=
  if isEmpty given then hd "" (petnames w) else given.

End RPC.

(* ===================================================================== *)
(** ** Package [controller]: the live-state broadcaster *)
(* ===================================================================== *)

Module WS.
Import GoTime.

(** [utils.IfOr]: both alternatives are evaluated by the caller. *)
Definition IfOr {A} (c : bool) (a b : A) : A := if c then a else b.

(** [fmt.Sprintf("serverStats::%t", authorized)] *)
Definition statsKey (authorized : bool) : string :=
  String.append "serverStats::" (if authorized then "true" else "false").

Section Broadcaster.

(** Types of package [model] whose declarations are not part of these
    sources: [*model.Host], [*model.HostState], [model.IP], and the
    byte slices produced by the JSON encoder. *)
Context {Host HostState Addrs Bytes : Type}.

Record GeoIP := mkGeoIP {
  geo_CountryCode : string;
  geo_IP : Addrs;
  geo_ASN : string
}.

(** [model.Server], the fields read by [getServerStat]. *)
Record Server := mkServer {
  ID : N;
  Name : string;
  PublicNote : string;
  DisplayIndex : Z;
  Host_ : Host;
  State : HostState;
  GeoIP_ : option GeoIP;
  LastActive : Time
}.

Record StreamServer := mkStreamServer {
  ss_ID : N;
  ss_Name : string;
  ss_PublicNote : string;
  ss_DisplayIndex : Z;
  ss_Host : Host;
  ss_State : HostState;
  ss_CountryCode : string;
  ss_IPAddress : string;
  ss_ASN : string;
  ss_LastActive : Time
}.

Record StreamServerData := mkStreamServerData {
  Now : Z;
  Online : Z;
  Servers : list StreamServer
}.

(** What the computation reads from the rest of the dashboard:
    [ServerShared.GetSortedList()], [ServerShared.GetSortedListForGuest()],
    [time.Now().Unix()] and [singleton.GetOnlineUserCount()]. *)
Record Fleet := mkFleet {
  sortedList : list Server;
  sortedListForGuest : list Server;
  unixNow : Z;
  onlineUsers : Z
}.

(** The method [Filter] of [model.Host], [model.IP.Join] and
    [json.Marshal] (an error or the encoded bytes). *)
Variable Filter : Host -> Host.
Variable Join : Addrs -> string.
Variable Marshal : StreamServerData -> string + Bytes.

Definition serverList (authorized : bool) (f : Fleet) : list Server :=
  if authorized then sortedList f else sortedListForGuest f.

Definition streamServer (withPublicNote authorized : bool) (server : Server)
  : StreamServer :=
  let '(countryCode, ipAddress, asnOrg) :=
    match GeoIP_ server with
    | Some g => (geo_CountryCode g, Join (geo_IP g), geo_ASN g)
    | None => ("", "", "")
    end in
  mkStreamServer (ID server) (Name server)
                 (IfOr withPublicNote (PublicNote server) "")
                 (DisplayIndex server)
                 (IfOr authorized (Host_ server) (Filter (Host_ server)))
                 (State server) countryCode ipAddress asnOrg
                 (LastActive server).

(** The value handed to [json.Marshal] by the closure of
    [getServerStat]. *)
Definition snapshot (withPublicNote authorized : bool) (f : Fleet)
  : StreamServerData :=
  mkStreamServerData (wrap64 (unixNow f * 1000)) (onlineUsers f)
                     (map (streamServer withPublicNote authorized)
                          (serverList authorized f)).

(** The closure given to [requestGroup.Do]; it captures the two
    arguments of the call of [getServerStat] that created it. *)
Definition serverStats (withPublicNote authorized : bool) (f : Fleet)
  : string + Bytes :=
  Marshal (snapshot withPublicNote authorized f).

(** *** [singleflight.Group] and the goroutines of [serverStream]

    [golang.org/x/sync/singleflight] is not part of the repository; the
    group is modelled after its documented behaviour: [Do] runs the given
    function unless a call with the same key is in flight, in which case
    the caller waits for that call and receives its result.

    The group is its map from keys to calls in flight. A call holds
    the closure of the caller that created it, the value the closure
    returned once it has run, and the callers blocked in [Do]. *)
Record call := mkCall {
  fn : Fleet -> string + Bytes;
  val : option (string + Bytes);
  waiting : list string
}.

Inductive Frame :=
| TextMessage (payload : Bytes)
| PingMessage.

(** Where the goroutine of one connection stands in the loop of
    [serverStream]. *)
Inductive PC :=
| AtCall
| InDo (key : string)
| Returned (v : string + Bytes)
| Closed.

Record Conn := mkConn {
  isMember : bool;
  count : nat;
  pc : PC;
  sent : list Frame
}.

(** What the group has done so far: a call was created for a key, a
    call was completed and removed. *)
Inductive Event :=
| Started (key : string)
| Finished (key : string).

Record System := mkSystem {
  requestGroup : gmap string call;
  conns : gmap string Conn;
  history : list Event
}.

Definition initial : System := mkSystem ∅ ∅ [].

(** The atomic steps, taken in any order by any goroutine:
    - [Connect]: a request was upgraded and the loop of the new
      connection begins, with [count] 0;
    - [Call]: a goroutine calls [getServerStat(count == 0, isMember)],
      that is [requestGroup.Do] with the key of its class; inside the
      group's mutex it joins the call in flight for the key or, if there
      is none, creates one that holds its own closure;
    - [Run]: the closure of a call runs and reads the fleet [f];
    - [Done]: the call leaves the group and every caller blocked on it
      returns with its value;
    - [Send]: a goroutine carries on with the value returned to it: on an
      error it starts the loop over, otherwise it writes the frame,
      increments [count] and pings on every fourth frame; a failed write
      ends the loop. *)
Inductive Label :=
| Connect (connId : string) (member : bool)
| Call (connId : string)
| Run (key : string) (f : Fleet)
| Done (key : string)
| Send (connId : string) (textOk pingOk : bool).

Definition setPC (p : PC) (c : Conn) : Conn :=
  mkConn (isMember c) (count c) p (sent c).

Definition resume (v : string + Bytes) (waiters : list string)
           (m : gmap string Conn) : gmap string Conn :=
  foldr (fun c acc => alter (setPC (Returned v)) c acc) m waiters.

(** The rest of one iteration of the loop once [getServerStat] has
    returned. *)
Definition afterStat (v : string + Bytes) (textOk pingOk : bool) (c : Conn)
  : Conn :=
  match v with
  | inl _ => setPC AtCall c
  | inr stat =>
      if negb textOk then setPC Closed c
      else
        let count' := S (count c) in
        let sent' := (sent c ++ [TextMessage stat])%list in
        if (count' mod 4 =? 0)%nat then
          if negb pingOk then mkConn (isMember c) count' Closed sent'
          else mkConn (isMember c) count' AtCall (sent' ++ [PingMessage])%list
        else mkConn (isMember c) count' AtCall sent'
  end.

Definition step (l : Label) (s : System) : option System :=
  match l with
  | Connect id member =>
      match conns s !! id with
      | Some _ => None
      | None =>
          Some (mkSystem (requestGroup s)
                         (<[id := mkConn member 0 AtCall []]> (conns s))
                         (history s))
      end
  | Call id =>
      match conns s !! id with
      | Some c =>
          match pc c with
          | AtCall =>
              let key := statsKey (isMember c) in
              let conns' := <[id := setPC (InDo key) c]> (conns s) in
              match requestGroup s !! key with
              | Some cl =>
                  Some (mkSystem
                          (<[key := mkCall (fn cl) (val cl) (waiting cl ++ [id])%list]>
                             (requestGroup s))
                          conns' (history s))
              | None =>
                  Some (mkSystem
                          (<[key := mkCall (serverStats (count c =? 0)%nat (isMember c))
                                           None [id]]>
                             (requestGroup s))
                          conns' (history s ++ [Started key])%list)
              end
          | _ => None
          end
      | None => None
      end
  | Run key f =>
      match requestGroup s !! key with
      | Some cl =>
          match val cl with
          | None =>
              Some (mkSystem
                      (<[key := mkCall (fn cl) (Some (fn cl f)) (waiting cl)]>
                         (requestGroup s))
                      (conns s) (history s))
          | Some _ => None
          end
      | None => None
      end
  | Done key =>
      match requestGroup s !! key with
      | Some cl =>
          match val cl with
          | Some v =>
              Some (mkSystem (delete key (requestGroup s))
                             (resume v (waiting cl) (conns s))
                             (history s ++ [Finished key])%list)
          | None => None
          end
      | None => None
      end
  | Send id textOk pingOk =>
      match conns s !! id with
      | Some c =>
          match pc c with
          | Returned v =>
              Some (mkSystem (requestGroup s)
                             (<[id := afterStat v textOk pingOk c]> (conns s))
                             (history s))
          | _ => None
          end
      | None => None
      end
  end.

Fixpoint run (ls : list Label) (s : System) : option System :=
  match ls with
  | [] => Some s
  | l :: rest =>
      match step l s with
      | Some s' => run rest s'
      | None => None
      end
  end.

(** *** Notions used to state properties of the broadcaster *)

Definition isStart (k : string) (e : Event) : bool :=
  match e with
  | Started k' => String.eqb k' k
  | Finished _ => false
  end.

Definition isFinish (k : string) (e : Event) : bool :=
  match e with
  | Finished k' => String.eqb k' k
  | Started _ => false
  end.

Fixpoint tally (p : Event -> bool) (h : list Event) : nat :=
  match h with
  | [] => 0
  | e :: rest => ((if p e then 1 else 0) + tally p rest)%nat
  end.

(** Snapshots written to a connection so far. *)
Fixpoint texts (l : list Frame) : nat :=
  match l with
  | [] => 0
  | TextMessage _ :: rest => S (texts rest)
  | PingMessage :: rest => texts rest
  end.

(** Keepalive pings written to a connection so far. *)
Fixpoint pings (l : list Frame) : nat :=
  match l with
  | [] => 0
  | PingMessage :: rest => S (pings rest)
  | TextMessage _ :: rest => pings rest
  end.

(** A ping has followed every fourth snapshot of a connection whose loop
    is running; the loop of a closed one may have ended on the ping. *)
Definition keptAlive (c : Conn) : Prop :=
  (pings (sent c) <= count c / 4)%nat
  /\ (count c / 4 <= S (pings (sent c)))%nat
  /\ (pc c <> Closed -> pings (sent c) = (count c / 4)%nat).

(** Computations of key [k] that have started and not yet finished. *)
Definition inFlight (k : string) (s : System) : nat :=
  (tally (isStart k) (history s) - tally (isFinish k) (history s))%nat.

(** What holds of every state reached from [initial]. *)
Record wf (s : System) : Prop := mkWf {
  wf_calls : forall k cl,
    requestGroup s !! k = Some cl ->
    exists a b, k = statsKey a /\ fn cl = serverStats b a;
  wf_vals : forall k cl v,
    requestGroup s !! k = Some cl -> val cl = Some v -> exists f, v = fn cl f;
  wf_waiting : forall k cl id,
    requestGroup s !! k = Some cl -> id ∈ waiting cl ->
    exists c, conns s !! id = Some c /\ pc c = InDo k /\ statsKey (isMember c) = k;
  wf_blocked : forall id c k,
    conns s !! id = Some c -> pc c = InDo k ->
    exists cl, requestGroup s !! k = Some cl /\ id ∈ waiting cl;
  wf_returned : forall id c v,
    conns s !! id = Some c -> pc c = Returned v ->
    exists b f, v = serverStats b (isMember c) f;
  wf_frames : forall id c payload,
    conns s !! id = Some c -> TextMessage payload ∈ sent c ->
    exists b f, serverStats b (isMember c) f = inr payload;
  wf_count : forall id c,
    conns s !! id = Some c -> count c = texts (sent c);
  wf_history : forall k,
    tally (isStart k) (history s)
    = (tally (isFinish k) (history s)
       + match requestGroup s !! k with Some _ => 1 | None => 0 end)%nat
}.

(** The note text of [server] in a snapshot computed with
    [withPublicNote]. *)
Definition shownNote (withPublicNote : bool) (server : Server) : string :=
  if withPublicNote then PublicNote server else "".

(** Note text decided by the privilege class of the viewer alone: the
    snapshot of iteration [count] of a connection of class [authorized]
    carries the public notes exactly when the class is the authorized
    one. *)
Definition notesFollowPrivilege : Prop :=
  forall (count : nat) (authorized : bool) (f : Fleet),
    map ss_PublicNote (Servers (snapshot (count =? 0)%nat authorized f))
    = map (shownNote authorized) (serverList authorized f).

End Broadcaster.

End WS.

(* ===================================================================== *)
(** ** [cmd/dashboard/controller/ws.go]: the origin check of the upgrader *)
(* ===================================================================== *)

Module Origin.
Import GoStrings.

(** *** Package [unicode/utf8] as far as [equalASCIIFold] uses it *)

Definition RuneError : Z := 65533.

(** The entry of the table [first] for a leading byte: [0xF0] for an
    ASCII byte, [0xF1] for a byte that starts no encoding; otherwise the
    length of the encoding in the low bits and the index of the range
    accepted for the second byte in the high ones. *)
Definition first (b : N) : N :=
  (if b <? 128 then 240
   else if b <? 194 then 241
   else if b <? 224 then 2
   else if b =? 224 then 19
   else if b <? 237 then 3
   else if b =? 237 then 35
   else if b <? 240 then 3
   else if b =? 240 then 52
   else if b <? 244 then 4
   else if b =? 244 then 68
   else 241)%N.

(** The table [acceptRanges]: the bounds of the second byte. *)
Definition acceptRanges (i : N) : N * N :=
  (match i with
   | 0 => (128, 191)
   | 1 => (160, 191)
   | 2 => (128, 159)
   | 3 => (144, 191)
   | 4 => (128, 143)
   | _ => (0, 0)
   end)%N.

Definition continuation (b : N) : bool := ((128 <=? b) && (b <=? 191))%N.

Definition bits (mask : N) (b : N) : Z := Z.of_N (N.land b mask).

(** [utf8.DecodeRuneInString]: the first rune of [s] and the number of
    bytes of its encoding; [(RuneError, 0)] for the empty string and
    [(RuneError, 1)] for an encoding that is not valid. *)
Definition DecodeRuneInString (s : string) : Z * nat :=
  match s with
  | EmptyString => (RuneError, 0%nat)
  | String c0 r0 =>
      let s0 := byteVal c0 in
      let x := first s0 in
      if (240 <=? x)%N then
        ((if N.testbit x 0 then RuneError else Z.of_N s0), 1%nat)
      else
        let sz := N.to_nat (N.land x 7) in
        let accept := acceptRanges (N.shiftr x 4) in
        if (String.length s <? sz)%nat then (RuneError, 1%nat)
        else
          match r0 with
          | EmptyString => (RuneError, 1%nat)
          | String c1 r1 =>
              let s1 := byteVal c1 in
              if ((s1 <? fst accept) || (snd accept <? s1))%N then (RuneError, 1%nat)
              else if (sz <=? 2)%nat then
                (Z.lor (Z.shiftl (bits 31 s0) 6) (bits 63 s1), 2%nat)
              else
                match r1 with
                | EmptyString => (RuneError, 1%nat)
                | String c2 r2 =>
                    let s2 := byteVal c2 in
                    if negb (continuation s2) then (RuneError, 1%nat)
                    else if (sz <=? 3)%nat then
                      (Z.lor (Z.lor (Z.shiftl (bits 15 s0) 12)
                                    (Z.shiftl (bits 63 s1) 6))
                             (bits 63 s2), 3%nat)
                    else
                      match r2 with
                      | EmptyString => (RuneError, 1%nat)
                      | String c3 r3 =>
                          let s3 := byteVal c3 in
                          if negb (continuation s3) then (RuneError, 1%nat)
                          else
                            (Z.lor (Z.lor (Z.lor (Z.shiftl (bits 7 s0) 18)
                                                 (Z.shiftl (bits 63 s1) 12))
                                          (Z.shiftl (bits 63 s2) 6))
                                   (bits 63 s3), 4%nat)
                      end
                end
          end
  end.

(** The slice expression [s[n:]], which panics when [n] exceeds the
    length of [s]. *)
Fixpoint sliceFrom (n : nat) (s : string) : option string :=
  match n, s with
  | O, _ => Some s
  | S n', String _ r => sliceFrom n' r
  | S _, EmptyString => None
  end.

(** The number of characters of a string as [utf8.RuneCountInString]
    counts them: the number of runes that successive calls of
    [DecodeRuneInString] yield, a byte that belongs to no valid encoding
    counting for one. The sources do not call it; it measures the
    strings whose length they bound. *)
Fixpoint runeCount (fuel : nat) (s : string) : nat :=
  match fuel, s with
  | S fuel', String _ _ =>
      match sliceFrom (snd (DecodeRuneInString s)) s with
      | Some rest => S (runeCount fuel' rest)
      | None => O
      end
  | _, _ => O
  end.

Definition RuneCountInString (s : string) : nat := runeCount (String.length s) s.

(** *** [equalASCIIFold] *)

Inductive Outcome :=
| Returns (b : bool)
| Panics
| Unfinished.

(** [if 'A' <= r && r <= 'Z' { r = r + 'a' - 'A' }] *)
Definition foldRune (r : Z) : Z :=
  if (65 <=? r) && (r <=? 90) then r + 97 - 65 else r.

Definition nonEmpty (s : string) : bool := negb (String.eqb s "").

(** The loop of [equalASCIIFold], for at most [fuel] iterations. *)
Fixpoint foldLoop (fuel : nat) (s t : string) : Outcome :=
  if nonEmpty s && nonEmpty t then
    match fuel with
    | O => Unfinished
    | S fuel' =>
        let '(sr, size) := DecodeRuneInString s in
        match sliceFrom size s with
        | None => Panics
        | Some s' =>
            let '(tr, size') := DecodeRuneInString t in
            match sliceFrom size' t with
            | None => Panics
            | Some t' =>
                if sr =? tr then foldLoop fuel' s' t'
                else if negb (foldRune sr =? foldRune tr) then Returns false
                else foldLoop fuel' s' t'
            end
        end
    end
  else Returns (String.eqb s t).

(** Every iteration consumes a byte of [s] at least, so that the length
    of [s] bounds their number. *)
Definition equalASCIIFold (s t : string) : Outcome :=
  foldLoop (String.length s) s t.

(** *** [checkSameOrigin]

    Of the request, the values of its [Origin] header and its [Host];
    of the URL that [url.Parse] returns, the field [Host]. *)
Record Request := mkRequest {
  Header_Origin : list string;
  Host : string
}.

Record URL := mkURL {
  url_Host : string
}.

Section SameOrigin.

(** [url.Parse]: an error or the parsed URL. *)
Variable Parse : string -> string + URL.

Definition checkSameOrigin (r : Request) : Outcome :=
  match Header_Origin r with
  | [] => Returns true
  | origin0 :: _ =>
      match Parse origin0 with
      | inl _ => Returns false
      | inr u => equalASCIIFold (url_Host u) (Host r)
      end
  end.

End SameOrigin.

(** *** Notions used to state properties of the origin check *)

(** A byte that starts no UTF-8 encoding. *)
Definition strayByte (a : ascii) : Prop := first (byteVal a) = 241%N.

End Origin.

(* ===================================================================== *)
(** ** The agent side: configuration, client identifiers and metadata *)
(* ===================================================================== *)

Module Agent.
Import GoStrings Origin.

Record Config := mkConfig {
  Server : string;
  Secret : string;
  ClientID : string;
  ServerName : string;
  ServerGroup : string
}.

(** *** Regular expressions of the guide

    Both are classes of ASCII characters. A string of bytes matches
    [^[a-zA-Z0-9_-]+$] when it is not empty and each of its bytes is in
    the class: a byte outside ASCII belongs to a character, or to an
    ill-formed sequence, that the class does not hold. *)

Definition inRange (lo hi : N) (a : ascii) : bool :=
  ((lo <=? byteVal a) && (byteVal a <=? hi))%N.

Definition isAlnum (a : ascii) : bool :=
  inRange 97 122 a || inRange 65 90 a || inRange 48 57 a.

(** The class [[a-zA-Z0-9_-]]. *)
Definition isIDByte (a : ascii) : bool := isAlnum a || isByte 95 a || isByte 45 a.

(** The class [[a-zA-Z0-9-]], whose complement [sanitizeHostname]
    replaces. *)
Definition isHostByte (a : ascii) : bool := isAlnum a || isByte 45 a.

Fixpoint allBytes (p : ascii -> bool) (s : string) : bool :=
  match s with
  | EmptyString => true
  | String a r => p a && allBytes p r
  end.

Definition isValidClientID (id : string) : bool :=
  nonEmpty id && allBytes isIDByte id.

Definition errTooLong : string := "client_id 长度不能超过64个字符".
Definition errInvalidChars : string :=
  "client_id 包含无效字符，只允许字母、数字、连字符和下划线".

(** [Config.Validate]: [None] is the nil error. *)
Definition Validate (c : Config) : option string :=
  if nonEmpty (ClientID c) then
    if (64 <? String.length (ClientID c))%nat then Some errTooLong
    else if negb (isValidClientID (ClientID c)) then Some errInvalidChars
    else None
  else None.

(** *** Generated identifiers *)

(** The slice expression [s[:n]], which panics when [n] exceeds the
    length of [s]. *)
Fixpoint sliceTo (n : nat) (s : string) : option string :=
  match n, s with
  | O, _ => Some EmptyString
  | S n', String a r =>
      match sliceTo n' r with
      | Some p => Some (String a p)
      | None => None
      end
  | S _, EmptyString => None
  end.

(** The character class applied to a decoded rune. *)
Definition isHostRune (r : Z) : bool :=
  ((97 <=? r) && (r <=? 122)) || ((65 <=? r) && (r <=? 90))
  || ((48 <=? r) && (r <=? 57)) || (r =? 45).

(** [reg.ReplaceAllString(hostname, "-")] for the expression
    [[^a-zA-Z0-9-]]: the input is read rune by rune with
    [utf8.DecodeRuneInString]; a rune outside the class is replaced by a
    hyphen, the bytes of any other are copied. *)
Fixpoint replaceAll (fuel : nat) (s : string) : string :=
  match fuel, s with
  | S fuel', String _ _ =>
      let '(r, size) := DecodeRuneInString s in
      match sliceTo size s, sliceFrom size s with
      | Some this, Some rest =>
          String.append (if isHostRune r then this else "-") (replaceAll fuel' rest)
      | _, _ => EmptyString
      end
  | _, _ => EmptyString
  end.

Definition sanitizeHostname (hostname : string) : string :=
  let cleaned := replaceAll (String.length hostname) hostname in
  if (60 <? String.length cleaned)%nat then
    match sliceTo 60 cleaned with
    | Some p => p
    | None => cleaned
    end
  else cleaned.

(** [net.Interface], the fields read by [generateIDFromMAC]: whether
    [FlagUp] is set, and the hardware address ([None] for nil). *)
Record Interface := mkInterface {
  up : bool;
  HardwareAddr : option (list Byte.byte)
}.

Definition hexDigit (n : N) : ascii :=
  match String.get (N.to_nat n) "0123456789abcdef" with
  | Some a => a
  | None => "0"%char
  end.

Definition hexByte (b : Byte.byte) (rest : string) : string :=
  String (hexDigit (N.shiftr (Byte.to_N b) 4))
         (String (hexDigit (N.land (Byte.to_N b) 15)) rest).

(** [net.HardwareAddr.String]: the bytes in hexadecimal, separated by
    colons. *)
Fixpoint hardwareString (a : list Byte.byte) : string :=
  match a with
  | [] => EmptyString
  | [b] => hexByte b EmptyString
  | b :: rest => hexByte b (String ":" (hardwareString rest))
  end.

(** [strings.ReplaceAll(mac, ":", "")] *)
Fixpoint dropColons (s : string) : string :=
  match s with
  | EmptyString => EmptyString
  | String a r => if isByte 58 a then dropColons r else String a (dropColons r)
  end.

(** A returned string, or the panic of a slice out of range. *)
Inductive Generated :=
| Made (id : string)
| OutOfRange.

(** The loop of [generateIDFromMAC] over the interfaces. *)
Fixpoint firstAddress (interfaces : list Interface) : Generated :=
  match interfaces with
  | [] => Made EmptyString
  | iface :: rest =>
      match up iface, HardwareAddr iface with
      | true, Some addr =>
          let mac := hardwareString addr in
          if nonEmpty mac then
            match sliceTo 10 (dropColons mac) with
            | Some p => Made (String.append p "-host")
            | None => OutOfRange
            end
          else firstAddress rest
      | _, _ => firstAddress rest
      end
  end.

(** [generateIDFromMAC], given what [net.Interfaces] returns ([None]
    for an error). *)
Definition generateIDFromMAC (interfaces : option (list Interface)) : Generated :=
  match interfaces with
  | None => Made EmptyString
  | Some l => firstAddress l
  end.

Definition charset : string := "abcdefghijklmnopqrstuvwxyz0123456789".

(** The bytes [b[i..]] of [generateRandomID], where [Intn i] is the
    number that the call of [rand.Intn] for [b[i]] returns; indexing
    [charset] out of range panics. *)
Fixpoint randomBytes (n i : nat) (Intn : nat -> nat) : option string :=
  match n with
  | O => Some EmptyString
  | S n' =>
      match String.get (Intn i) charset, randomBytes n' (S i) Intn with
      | Some a, Some r => Some (String a r)
      | _, _ => None
      end
  end.

Definition generateRandomID (Intn : nat -> nat) : Generated :=
  match randomBytes 8 0 Intn with
  | Some b => Made (String.append b "-agent")
  | None => OutOfRange
  end.

(** What [generateClientID] reads from the machine: [net.Interfaces]
    and [os.Hostname] ([None] for an error), and the numbers that
    [rand.Intn] returns. *)
Record Machine := mkMachine {
  Interfaces : option (list Interface);
  Hostname : option string;
  Intn : nat -> nat
}.

Definition setClientID (id : string) (c : Config) : Config :=
  mkConfig (Server c) (Secret c) id (ServerName c) (ServerGroup c).

(** [Config.generateClientID]: the configuration it leaves, [None] when
    it panics. *)
Definition generateClientID (m : Machine) (c : Config) : option Config :=
  if nonEmpty (ClientID c) then Some c
  else
    match generateIDFromMAC (Interfaces m) with
    | OutOfRange => None
    | Made id =>
        if nonEmpty id then Some (setClientID id c)
        else
          match Hostname m with
          | Some (String a r) => Some (setClientID (sanitizeHostname (String a r)) c)
          | _ =>
              match generateRandomID (Intn m) with
              | Made r => Some (setClientID r c)
              | OutOfRange => None
              end
          end
    end.

(** The end of [LoadConfig], once the file has been read and decoded
    into [c]: an error or the configuration, [None] for a panic. *)
Definition LoadConfig (m : Machine) (c : Config) : option (string + Config) :=
  match generateClientID m c with
  | None => None
  | Some config =>
      match Validate config with
      | Some err => Some (inl err)
      | None => Some (inr config)
      end
  end.

(** *** Metadata of the connection *)

(** The metadata that [establishConnection] puts in the outgoing
    context: [metadata.New] of the secret and the identifier, then
    [md.Set] for the name and the group that are not empty. *)
Definition establishConnection (c : Config) : gmap string (list string) :=
  let md : gmap string (list string) :=
    {[ "client_secret" := [Secret c]; "client_uuid" := [ClientID c] ]} in
  let md := if nonEmpty (ServerName c)
            then <[ "server_name" := [ServerName c] ]> md else md in
  if nonEmpty (ServerGroup c)
  then <[ "server_group_name" := [ServerGroup c] ]> md else md.

(** *** [handleConnectionError]

    An error is a gRPC status with its message, or something else; the
    result is the line logged, if any. *)
Inductive ConnError :=
| StatusError (message : string)
| OtherError (text : string).

Definition hintClientID : string :=
  "错误：客户端ID格式不正确，请检查配置文件中的 client_id 字段".
Definition hintGroupMissing : string :=
  "错误：指定的服务器分组不存在，请检查配置文件中的 server_group 字段".
Definition hintGroupDenied : string :=
  "错误：无权限访问指定的服务器分组，请联系管理员".
Definition hintGroupQuery : string :=
  "错误：服务器分组查询失败，请检查网络连接".

Definition handleConnectionError (err : option ConnError) : option string :=
  match err with
  | None => None
  | Some (StatusError message) =>
      if String.eqb message "客户端标识符不合法，必须为1-64个字符" then Some hintClientID
      else if String.eqb message "指定的服务器分组不存在" then Some hintGroupMissing
      else if String.eqb message "指定的服务器分组不存在或无权限访问" then Some hintGroupDenied
      else if String.eqb message "查询服务器分组失败" then Some hintGroupQuery
      else Some (String.append "连接错误：" message)
  | Some (OtherError text) => Some (String.append "连接失败：" text)
  end.

(** An interface that [generateIDFromMAC] passes over. *)
Definition passedOver (iface : Interface) : Prop :=
  up iface = false \/ HardwareAddr iface = None \/ HardwareAddr iface = Some [].

(** The dedicated hints. *)
Definition hints : list string :=
  [hintClientID; hintGroupMissing; hintGroupDenied; hintGroupQuery].

End Agent.

(* ===================================================================== *)
(** ** Concrete inputs *)
(* ===================================================================== *)

Module Samples.
Import GoTime.

(** *** The fallback cache *)

Definition sampleEntry : IPAPI.cacheEntry := IPAPI.mkCacheEntry "US" "Google LLC" 1000.

(** A cache holding [sampleEntry], looked at when the entry is [age] old. *)
Definition sampleState (age : Z) : IPAPI.State :=
  IPAPI.mkState (1000 + age) {[ "8.8.8.8" := sampleEntry ]} 1000 [] [].

Definition sampleEnv : IPAPI.Env :=
  IPAPI.mkEnv 0 0 0 (fun _ =>
    IPAPI.GetDone 200
      (inr (IPAPI.mkAPIResponse "success" "United States" "US" "" "" "" "" "" ""
                                "Google Public DNS" "AS15169 Google LLC" "8.8.8.8"))).

(** A call whose request leaves one microsecond after the rate limiter
    let it through, followed by a second call, for another address,
    whose request leaves at once. *)
Definition lateRequest : list IPAPI.Event :=
  [ IPAPI.Enter 1 (Some "1.1.1.1"); IPAPI.Move 1; IPAPI.Move 1; IPAPI.Move 1;
    IPAPI.Move 1; IPAPI.Pass 1000; IPAPI.Move 1;
    IPAPI.Reply 1 (IPAPI.httpGet sampleEnv "");
    IPAPI.Enter 2 (Some "9.9.9.9"); IPAPI.Move 2; IPAPI.Move 2; IPAPI.Move 2;
    IPAPI.Pass (2 * Second - 1000); IPAPI.Move 2; IPAPI.Move 2 ].

(** Two calls at once: the first is through the rate limiter and has
    not called [httpClient.Get] yet when the second goes through it and
    sends its request, having slept a second and woken up two seconds
    late; the request of the first leaves a second after that. *)
Definition overtaken : list IPAPI.Event :=
  [ IPAPI.Enter 1 (Some "1.1.1.1"); IPAPI.Enter 2 (Some "9.9.9.9");
    IPAPI.Move 1; IPAPI.Move 2; IPAPI.Move 1; IPAPI.Move 1; IPAPI.Move 1;
    IPAPI.Pass Second;
    IPAPI.Move 2; IPAPI.Move 2; IPAPI.Pass (3 * Second); IPAPI.Move 2; IPAPI.Move 2;
    IPAPI.Pass Second; IPAPI.Move 1 ].

(** The state that a run reaches. *)
Definition reached (evs : list IPAPI.Event) (t0 : Z) : IPAPI.Program :=
  match IPAPI.run evs (IPAPI.start t0) with
  | Some s => s
  | None => IPAPI.start t0
  end.

(** *** Agent authentication *)

Fixpoint pad (n : nat) : string :=
  match n with
  | O => ""
  | S n' => String "a" (pad n')
  end.

(** [n] times the character U+4E2D, which takes three bytes. *)
Fixpoint wide (n : nat) : string :=
  match n with
  | O => ""
  | S n' => String.append "中" (wide n')
  end.

(** Account 42 is an ordinary account, account 1 an administrator; the
    group "prod" belongs to the administrator, "edge" to account 42; one
    agent is known already. *)
Definition fleetWorld (faults : list (option string)) : RPC.World :=
  RPC.mkWorld
    {[ "s3cret" := 42%N; "r00t" := 1%N ]}
    {[ 42%N := RPC.mkUserInfo RPC.RoleMember; 1%N := RPC.mkUserInfo RPC.RoleAdmin ]}
    (RPC.mkServerClass {[ "known-agent" := 7%N ]}
                       {[ 7%N := RPC.mkServer 7 42 "known-agent" "db-1" true ]})
    (RPC.mkDatabase
       (RPC.mkTables [RPC.mkServerGroup 3 1 "prod"; RPC.mkServerGroup 5 42 "edge"]
                     [RPC.mkServer 7 42 "known-agent" "db-1" false] [] 7 0)
       [] faults)
    {[ "203.0.113.9" ]} ["brave-otter"] [].

Definition agentMD (secret uuid group : string) : gmap string (list string) :=
  {[ "client_secret" := [secret]; "client_uuid" := [uuid];
     "server_group_name" := [group] ]}.

Definition agentCall (secret uuid group : string) : RPC.Ctx :=
  RPC.mkCtx (Some (agentMD secret uuid group)) "203.0.113.9".

(** A call without any secret, and one with a secret nobody owns. *)
Definition noSecret : RPC.Ctx := RPC.mkCtx (Some ∅) "198.51.100.4".

Definition wrongSecret : RPC.Ctx :=
  RPC.mkCtx (Some {[ "client_secret" := ["guess"] ]}) "198.51.100.4".

(** The engine refuses the insertion of the membership row. *)
Definition memberInsertFails : list (option string) :=
  [None; None; None; Some "disk full"].

(** A first contact that asks for the group "edge" while the engine is
    about to refuse the membership row, and the world in which the
    transaction of that call starts. *)
Definition failingWorld : RPC.World := fleetWorld memberInsertFails.

Definition newAgentMD : gmap string (list string) :=
  agentMD "s3cret" "new-agent" "edge".

Definition newAgent : RPC.Ctx := RPC.mkCtx (Some newAgentMD) "203.0.113.9".

Definition prepared : RPC.World :=
  snd (RPC.prepare newAgentMD 42 (RPC.unblocked "203.0.113.9" failingWorld)).

(** The same first contact where the engine refuses nothing. *)
Definition preparedWell : RPC.World :=
  snd (RPC.prepare newAgentMD 42 (RPC.unblocked "203.0.113.9" (fleetWorld []))).

(** *** The broadcaster

    Hosts are described by a string that [Filter] redacts; the encoder
    is the identity. *)
Definition Filter (h : string) : string := "redacted".
Definition Join (a : string) : string := a.
Definition Marshal (d : @WS.StreamServerData string unit)
  : string + @WS.StreamServerData string unit := inr d.

Definition rack : @WS.Server string unit string :=
  WS.mkServer 1 "db-1" "rack 12" 0 "linux" tt None 0.

Definition hidden : @WS.Server string unit string :=
  WS.mkServer 2 "vault" "cage 3" 0 "bsd" tt None 0.

Definition fleet : @WS.Fleet string unit string :=
  WS.mkFleet [rack; hidden] [rack] 1700000000 3.

Definition threeViewers : list (@WS.Label string unit string) :=
  [WS.Connect "c1" false; WS.Connect "c2" false; WS.Connect "c3" true].

Definition guestsAsk : list (@WS.Label string unit string) :=
  [WS.Call "c1"; WS.Call "c3"; WS.Call "c2"].

Definition oneRound : list (@WS.Label string unit string) :=
  (threeViewers ++ guestsAsk
   ++ [WS.Run (WS.statsKey false) fleet; WS.Done (WS.statsKey false);
       WS.Send "c1" true true; WS.Send "c2" true true])%list.

Definition afterRun (ls : list (@WS.Label string unit string))
  : @WS.System string unit string (@WS.StreamServerData string unit) :=
  match WS.run Filter Join Marshal ls WS.initial with
  | Some s => s
  | None => WS.initial
  end.

(** *** Further inputs

    A service that cannot be reached. *)
Definition downEnv : IPAPI.Env :=
  IPAPI.mkEnv 0 0 0 (fun _ => IPAPI.GetFailed "timeout").

(** A call whose secret key holds no value, a second new agent, and the
    world after the first contact of [newAgent]. *)
Definition emptySecret : RPC.Ctx :=
  RPC.mkCtx (Some {[ "client_secret" := [] ]}) "198.51.100.4".

Definition otherAgent : RPC.Ctx := agentCall "s3cret" "other-agent" "".

Definition registered : RPC.World := snd (RPC.Check newAgent (fleetWorld [])).

(** One guest that is sent four snapshots, and one whose first write
    fails while another viewer arrives. *)
Definition oneFrame : list (@WS.Label string unit string) :=
  [WS.Call "c1"; WS.Run (WS.statsKey false) fleet; WS.Done (WS.statsKey false);
   WS.Send "c1" true true].

Definition fourFrames : list (@WS.Label string unit string) :=
  (WS.Connect "c1" false :: oneFrame ++ oneFrame ++ oneFrame ++ oneFrame)%list.

Definition droppedViewer : list (@WS.Label string unit string) :=
  [WS.Connect "c1" false; WS.Call "c1"; WS.Run (WS.statsKey false) fleet;
   WS.Done (WS.statsKey false); WS.Send "c1" false true].

Definition laterSteps : list (@WS.Label string unit string) :=
  [WS.Connect "c2" true; WS.Call "c2"].

(** The connection ["c1"] of a state, if any. *)
Definition viewer (s : @WS.System string unit string (@WS.StreamServerData string unit))
  : @WS.Conn (@WS.StreamServerData string unit) :=
  match WS.conns s !! "c1" with
  | Some c => c
  | None => WS.mkConn false 0 WS.AtCall []
  end.

(** Interfaces of a machine, a machine without any, and the
    configuration of an agent. *)
Definition loopback : Agent.Interface := Agent.mkInterface true (Some []).

Definition ethernet : Agent.Interface :=
  Agent.mkInterface true
    (Some [Byte.x52; Byte.x54; Byte.x00; Byte.x12; Byte.x34; Byte.x56]).

Definition tunnel : Agent.Interface :=
  Agent.mkInterface true (Some [Byte.x0a; Byte.x00; Byte.x00; Byte.x01]).

Definition bareMachine : Agent.Machine :=
  Agent.mkMachine None (Some "web_01.example.com") (fun _ => 0%nat).

Definition blankConfig : Agent.Config :=
  Agent.mkConfig "dashboard.example.com:5555" "s3cret" "" "" "".

Definition edgeConfig : Agent.Config :=
  Agent.mkConfig "dashboard.example.com:5555" "s3cret" "new-agent" "" "edge".

End Samples.

(* ===================================================================== *)
(** * Properties *)
(* ===================================================================== *)

(** ** Durations and instants *)

Section TimeFacts.
Import GoTime.

Lemma Sub_ltb_above (c t u : Z) :
  0 <= c < maxDuration -> (c <? Sub t u) = (c <? t - u).
Proof.
  intros Hc. unfold Sub, maxDuration, minDuration in *.
  destruct (Z.ltb_spec (2 ^ 63 - 1) (t - u));
    [| destruct (Z.ltb_spec (t - u) (- 2 ^ 63))];
    destruct (Z.ltb_spec c (t - u)); try reflexivity;
    apply Z.ltb_lt || apply Z.ltb_ge; lia.
Qed.

Lemma Sub_ltb_below (c t u : Z) :
  0 <= c <= maxDuration -> (Sub t u <? c) = (t - u <? c).
Proof.
  intros Hc. unfold Sub, maxDuration, minDuration in *.
  destruct (Z.ltb_spec (2 ^ 63 - 1) (t - u));
    [| destruct (Z.ltb_spec (t - u) (- 2 ^ 63))];
    destruct (Z.ltb_spec (t - u) c); try reflexivity;
    apply Z.ltb_lt || apply Z.ltb_ge; lia.
Qed.

Lemma Sub_exact (t u : Z) :
  minDuration <= t - u <= maxDuration -> Sub t u = t - u.
Proof.
  intros H. unfold Sub.
  destruct (Z.ltb_spec maxDuration (t - u)); [lia |].
  destruct (Z.ltb_spec (t - u) minDuration); [lia | reflexivity].
Qed.

Lemma wrap64_small (x : Z) : minDuration <= x <= maxDuration -> wrap64 x = x.
Proof.
  unfold wrap64, minDuration, maxDuration. intros H.
  rewrite Z.mod_small; lia.
Qed.

End TimeFacts.

(** ** The fallback cache and its rate limiter *)

Section CacheFacts.
Import GoTime IPAPI.

Lemma expiry_bounds : 0 <= cacheExpiry < maxDuration.
Proof. vm_compute. split; [discriminate | reflexivity]. Qed.

Lemma interval_bounds : 0 <= minRequestInterval <= maxDuration.
Proof. vm_compute. split; discriminate. Qed.

Lemma getCachedResult_fresh ip e st :
  ipCache st !! ip = Some e ->
  clock st - timestamp e <= cacheExpiry ->
  getCachedResult ip st = (countryCode e, asn e, true).
Proof.
  intros Hin Hage. unfold getCachedResult, Since. rewrite Hin.
  rewrite (Sub_ltb_above _ _ _ expiry_bounds).
  destruct (Z.ltb_spec cacheExpiry (clock st - timestamp e)); [lia | reflexivity].
Qed.

Lemma getCachedResult_stale ip e st :
  ipCache st !! ip = Some e ->
  cacheExpiry < clock st - timestamp e ->
  getCachedResult ip st = ("", "", false).
Proof.
  intros Hin Hage. unfold getCachedResult, Since. rewrite Hin.
  rewrite (Sub_ltb_above _ _ _ expiry_bounds).
  destruct (Z.ltb_spec cacheExpiry (clock st - timestamp e)); [reflexivity | lia].
Qed.

End CacheFacts.

Section CacheTTL.
Import GoTime IPAPI Samples.

(** C7: while the entry stored for an address is less than 24 hours old,
    [queryIPAPI] answers with the stored country code and organisation and
    leaves the package state as it is: nothing is fetched, the rate
    limiter is not consulted. Once the entry is more than 24 hours old,
    [getCachedResult] reports a miss, and the query passes the rate
    limiter, fetches the address, the request leaving [dispatch env]
    after the limiter has let it through, and, when the service answers
    with success, stores a fresh entry stamped with the current time. *)
Theorem cache_ttl_lookup (env : Env) (ip : string) (e : cacheEntry) (st : State) :
  ipCache st !! ip = Some e ->
  (clock st - timestamp e < cacheExpiry ->
     queryIPAPI env (Some ip) st
     = (inr (mkAPIResponse "success" "" (countryCode e) "" "" "" "" "" "" ""
                           (asn e) ip),
        st))
  /\ (cacheExpiry < clock st - timestamp e ->
      let url := String.append apiBaseURL ip in
      let out := queryIPAPI env (Some ip) st in
      getCachedResult ip st = ("", "", false)
      /\ lastRequestTime (snd out) = clock (checkRateLimit env st)
      /\ fetched (snd out)
         = (url, lastRequestTime (snd out) + dispatch env) :: fetched st
      /\ (forall result,
            httpGet env url = GetDone StatusOK (inr result) ->
            Status result = "success" ->
            fst out = inr result)
      /\ (forall result,
            fst out = inr result ->
            ipCache (snd out) !! ip
            = Some (mkCacheEntry (CountryCode result) (orgOf result)
                                 (clock (snd out))))).
Proof.
  intros Hin. split; intros Hage.
  - unfold queryIPAPI.
    rewrite (getCachedResult_fresh ip e st Hin) by lia. reflexivity.
  - cbn zeta.
    pose proof (getCachedResult_stale ip e st Hin Hage) as Hmiss.
    split; [exact Hmiss |].
    unfold queryIPAPI. rewrite Hmiss. unfold Get, send, advance. cbn beta iota.
    assert (Hst1 : lastRequestTime (checkRateLimit env st)
                   = clock (checkRateLimit env st)
                   /\ fetched (checkRateLimit env st) = fetched st).
    { unfold checkRateLimit, advance, Sleep. cbn.
      destruct (_ <? minRequestInterval); [destruct (0 <? _) |]; split; reflexivity. }
    destruct Hst1 as [Hlast Hfetched].
    generalize dependent (checkRateLimit env st). intros st1 Hlast Hfetched.
    destruct (httpGet env (String.append apiBaseURL ip)) as [err | code body] eqn:Hget.
    { cbn. rewrite Hlast, Hfetched. repeat split; intros; discriminate. }
    destruct (Z.eqb_spec code StatusOK) as [-> | Hne]; cbn [negb].
    2:{ cbn. rewrite Hlast, Hfetched. repeat split; intros; try discriminate.
        congruence. }
    destruct body as [err | result].
    { cbn. rewrite Hlast, Hfetched. repeat split; intros; discriminate. }
    destruct (String.eqb_spec (Status result) "success") as [Hs | Hs]; cbn [negb].
    + cbn. rewrite Hlast, Hfetched. repeat split.
      * intros r' Hr' _. congruence.
      * intros r' Hr'. injection Hr' as <-. apply lookup_insert_eq.
    + cbn. rewrite Hlast, Hfetched. repeat split; intros; try discriminate.
      congruence.
Qed.

Lemma cache_ttl_lookup_witness :
  fst (queryIPAPI sampleEnv (Some "8.8.8.8") (sampleState (24 * Hour - 1)))
  = inr (mkAPIResponse "success" "" "US" "" "" "" "" "" "" "" "Google LLC" "8.8.8.8")
  /\ getCachedResult "8.8.8.8" (sampleState (24 * Hour + Second)) = ("", "", false).
Proof.
  split.
  - rewrite (proj1 (cache_ttl_lookup sampleEnv "8.8.8.8" sampleEntry
                      (sampleState (24 * Hour - 1)) eq_refl)).
    + reflexivity.
    + vm_compute. reflexivity.
  - apply (proj2 (cache_ttl_lookup sampleEnv "8.8.8.8" sampleEntry
                    (sampleState (24 * Hour + Second)) eq_refl)).
    vm_compute. reflexivity.
Defined.

(** A remark on the wrapper [LookupASN], which cuts the [AS] field of
    whatever [queryIPAPI] returns at its first space: an answer fetched
    from the service loses its AS number, and an answer rebuilt from the
    cache, whose [AS] field is the organisation already, loses the first
    word of the organisation. *)
Example LookupASN_fetched :
  fst (LookupASN sampleEnv (Some "8.8.8.8") (boot (5 * Second))) = inr "Google LLC".
Proof. reflexivity. Qed.

Example LookupASN_cached :
  fst (LookupASN sampleEnv (Some "8.8.8.8") (sampleState Hour)) = inr "LLC".
Proof. reflexivity. Qed.

End CacheTTL.

Section RateLimit.
Import GoTime IPAPI Samples.

Lemma checkRateLimit_frame env st :
  ipCache (checkRateLimit env st) = ipCache st
  /\ fetched (checkRateLimit env st) = fetched st
  /\ lastRequestTime (checkRateLimit env st) = clock (checkRateLimit env st).
Proof.
  unfold checkRateLimit, advance, Sleep. cbn.
  destruct (_ <? minRequestInterval); [destruct (0 <? _) |]; auto.
Qed.

(** The time since the last stamp, when the clock is not behind it. *)
Lemma Since_last st :
  lastRequestTime st <= clock st ->
  0 <= Since st (lastRequestTime st)
  /\ (Since st (lastRequestTime st) < minRequestInterval ->
      Since st (lastRequestTime st) = clock st - lastRequestTime st)
  /\ (minRequestInterval <= Since st (lastRequestTime st) ->
      minRequestInterval <= clock st - lastRequestTime st).
Proof.
  intros Hmono. pose proof interval_bounds as Hb.
  unfold Since, Sub, maxDuration, minDuration in *.
  destruct (Z.ltb_spec (2 ^ 63 - 1) (clock st - lastRequestTime st));
    [| destruct (Z.ltb_spec (clock st - lastRequestTime st) (- 2 ^ 63))];
    repeat split; intros; lia.
Qed.

Lemma pause_frame st :
  clock (fst (pause st)) = clock st
  /\ ipCache (fst (pause st)) = ipCache st
  /\ lastRequestTime (fst (pause st)) = lastRequestTime st
  /\ fetched (fst (pause st)) = fetched st.
Proof. unfold pause. destruct (_ <? minRequestInterval); cbn; auto. Qed.

(** A call that finds the last stamp less than 2 seconds old sleeps for
    the remainder, and is not to run before the stamp is 2 seconds
    old. *)
Lemma pause_short st :
  lastRequestTime st <= clock st ->
  Since st (lastRequestTime st) < minRequestInterval ->
  pause st
  = (mkState (clock st) (ipCache st) (lastRequestTime st)
             ((minRequestInterval - Since st (lastRequestTime st)) :: sleeps st)
             (fetched st),
     clock st + (minRequestInterval - Since st (lastRequestTime st)))
  /\ clock st + (minRequestInterval - Since st (lastRequestTime st))
     = lastRequestTime st + minRequestInterval.
Proof.
  intros Hmono Hshort. pose proof interval_bounds as Hb.
  destruct (Since_last st Hmono) as (Hpos & Hexact & _).
  specialize (Hexact Hshort). unfold pause.
  destruct (Z.ltb_spec (Since st (lastRequestTime st)) minRequestInterval); [| lia].
  rewrite wrap64_small by (unfold minDuration; lia).
  destruct (Z.ltb_spec 0 (minRequestInterval - Since st (lastRequestTime st))); [| lia].
  split; [reflexivity | lia].
Qed.

Lemma pause_long st :
  minRequestInterval <= Since st (lastRequestTime st) -> pause st = (st, clock st).
Proof.
  intros Hlong. unfold pause.
  destruct (Z.ltb_spec (Since st (lastRequestTime st)) minRequestInterval);
    [lia | reflexivity].
Qed.

Lemma pause_wake st :
  lastRequestTime st <= clock st ->
  lastRequestTime st + minRequestInterval <= snd (pause st).
Proof.
  intros Hmono.
  destruct (Z.lt_ge_cases (Since st (lastRequestTime st)) minRequestInterval) as [Hs | Hl].
  - destruct (pause_short st Hmono Hs) as [-> Heq]. cbn [snd]. lia.
  - rewrite (pause_long st Hl). cbn [snd].
    destruct (Since_last st Hmono) as (_ & _ & Hmin). specialize (Hmin Hl). lia.
Qed.

Lemma settle_frame ip o st :
  clock (snd (settle ip o st)) = clock st
  /\ lastRequestTime (snd (settle ip o st)) = lastRequestTime st
  /\ fetched (snd (settle ip o st)) = fetched st.
Proof.
  unfold settle. destruct o as [err | code body]; [auto |].
  destruct (negb (code =? StatusOK)); [auto |].
  destruct body as [err | result]; [auto |].
  destruct (negb (String.eqb (Status result) "success")); cbn; auto.
Qed.

Lemma paced_start t0 : 0 <= t0 -> paced (start t0).
Proof.
  intros H. constructor; cbn; try (intros; discriminate); try (intros; contradiction).
  - unfold zeroTime. lia.
  - exact I.
  - reflexivity.
  - intros c _. auto.
  - split; constructor.
Qed.

(** A step of call [c] that leaves the mutex, the stamp, the clock and
    both records as they are. *)
Lemma paced_moved c p' st' s :
  paced s ->
  clock st' = clock (vars s) ->
  lastRequestTime st' = lastRequestTime (vars s) ->
  fetched st' = fetched (vars s) ->
  (inside p' = true -> requestMu s = Some c) ->
  (forall ip wake, p' = Pausing ip wake ->
                   lastRequestTime (vars s) + minRequestInterval <= wake) ->
  (unstamped p' = true -> ~ In c (map fst (stamps s))) ->
  (unsent p' = true -> ~ In c (map fst (requests s))) ->
  (forall ip, p' = Cleared ip -> In c (map fst (stamps s))) ->
  paced (moved c p' st' s).
Proof.
  intros Hp Hclock Hlast Hfetched Hin Hwake Hst Hse Hcl. destruct Hp.
  constructor; cbn [moved vars requestMu calls stamps requests];
    rewrite ?Hclock, ?Hlast, ?Hfetched; try assumption.
  - intros c' p Hc' Hi. destruct (decide (c' = c)) as [-> | Hne].
    + rewrite lookup_insert_eq in Hc'. injection Hc' as <-. auto.
    + rewrite lookup_insert_ne in Hc' by congruence. eauto.
  - intros c' ip wake Hc'. destruct (decide (c' = c)) as [-> | Hne].
    + rewrite lookup_insert_eq in Hc'. injection Hc' as Heq. eauto.
    + rewrite lookup_insert_ne in Hc' by congruence. eauto.
  - intros c' Hc'. destruct (decide (c' = c)) as [-> | Hne].
    + rewrite lookup_insert_eq in Hc'. discriminate.
    + rewrite lookup_insert_ne in Hc' by congruence. auto.
  - intros c' p Hc' Hu. destruct (decide (c' = c)) as [-> | Hne].
    + rewrite lookup_insert_eq in Hc'. injection Hc' as <-. auto.
    + rewrite lookup_insert_ne in Hc' by congruence. eauto.
  - intros c' p Hc' Hu. destruct (decide (c' = c)) as [-> | Hne].
    + rewrite lookup_insert_eq in Hc'. injection Hc' as <-. auto.
    + rewrite lookup_insert_ne in Hc' by congruence. eauto.
  - intros c' ip Hc'. destruct (decide (c' = c)) as [-> | Hne].
    + rewrite lookup_insert_eq in Hc'. injection Hc' as Heq. eauto.
    + rewrite lookup_insert_ne in Hc' by congruence. eauto.
Qed.

(** Taking the mutex. *)
Lemma paced_lock c ip s :
  paced s -> calls s !! c = Some (AtLimiter ip) -> requestMu s = None ->
  paced (mkProgram (vars s) (Some c) (<[c := Locked ip]> (calls s))
                   (stamps s) (requests s)).
Proof.
  intros Hp Hc Hfree. destruct Hp.
  constructor; cbn [vars requestMu calls stamps requests]; try assumption.
  - intros c' p Hc' Hi. destruct (decide (c' = c)) as [-> | Hne]; [reflexivity |].
    rewrite lookup_insert_ne in Hc' by congruence.
    rewrite (paced_holder0 c' p Hc' Hi) in Hfree. discriminate.
  - intros c' ip' wake Hc'. destruct (decide (c' = c)) as [-> | Hne].
    + rewrite lookup_insert_eq in Hc'. discriminate.
    + rewrite lookup_insert_ne in Hc' by congruence. eauto.
  - intros c' Hc'. destruct (decide (c' = c)) as [-> | Hne].
    + rewrite lookup_insert_eq in Hc'. discriminate.
    + rewrite lookup_insert_ne in Hc' by congruence. auto.
  - intros c' p Hc' Hu. destruct (decide (c' = c)) as [-> | Hne].
    + apply (paced_unstamped0 c (AtLimiter ip) Hc). reflexivity.
    + rewrite lookup_insert_ne in Hc' by congruence. eauto.
  - intros c' p Hc' Hu. destruct (decide (c' = c)) as [-> | Hne].
    + apply (paced_unsent0 c (AtLimiter ip) Hc). reflexivity.
    + rewrite lookup_insert_ne in Hc' by congruence. eauto.
  - intros c' ip' Hc'. destruct (decide (c' = c)) as [-> | Hne].
    + rewrite lookup_insert_eq in Hc'. discriminate.
    + rewrite lookup_insert_ne in Hc' by congruence. eauto.
Qed.

Lemma In_fst {A B} (a : A) (b : B) (l : list (A * B)) : In (a, b) l -> In a (map fst l).
Proof. intros H. apply (in_map fst) in H. exact H. Qed.

(** Renewing the stamp and releasing the mutex. *)
Lemma paced_stamp c ip wake s :
  paced s -> calls s !! c = Some (Pausing ip wake) -> wake <= clock (vars s) ->
  paced (mkProgram (stamp (vars s)) None (<[c := Cleared ip]> (calls s))
                   ((c, clock (vars s)) :: stamps s) (requests s)).
Proof.
  intros Hp Hc Hwake. pose proof interval_bounds as Hb.
  pose proof (paced_wake s Hp c ip wake Hc) as Hgap.
  pose proof (paced_holder s Hp c _ Hc eq_refl) as Hheld.
  pose proof (paced_unstamped s Hp c _ Hc eq_refl) as Hfresh.
  destruct Hp.
  constructor; cbn [stamp vars requestMu calls stamps requests clock lastRequestTime
                    fetched map fst snd head].
  - lia.
  - cbn [spaced]. split; [| assumption].
    destruct (stamps s) as [| [c2 t2] rest] eqn:Hst; cbn [map snd]; [exact I |].
    rewrite <- (paced_latest0 c2 t2 eq_refl). lia.
  - intros c' t H. injection H as _ <-. reflexivity.
  - intros c' t [H | H]; [injection H as _ <-; lia |].
    specialize (paced_past0 c' t H). lia.
  - assumption.
  - intros c' t H. destruct (paced_after0 c' t H) as (t' & Hin & Hle).
    exists t'. split; [right; exact Hin | exact Hle].
  - intros c' p Hc' Hi. destruct (decide (c' = c)) as [-> | Hne].
    + rewrite lookup_insert_eq in Hc'. injection Hc' as <-. discriminate.
    + rewrite lookup_insert_ne in Hc' by congruence.
      rewrite (paced_holder0 c' p Hc' Hi) in Hheld. congruence.
  - intros c' ip' wake' Hc'. destruct (decide (c' = c)) as [-> | Hne].
    + rewrite lookup_insert_eq in Hc'. discriminate.
    + rewrite lookup_insert_ne in Hc' by congruence.
      pose proof (paced_holder0 c' _ Hc' eq_refl) as H. congruence.
  - intros c' Hc'. destruct (decide (c' = c)) as [-> | Hne].
    + rewrite lookup_insert_eq in Hc'. discriminate.
    + rewrite lookup_insert_ne in Hc' by congruence.
      destruct (paced_new0 c' Hc') as [H1 H2]. split; [| exact H2].
      intros [H | H]; [congruence | contradiction].
  - intros c' p Hc' Hu. destruct (decide (c' = c)) as [-> | Hne].
    + rewrite lookup_insert_eq in Hc'. injection Hc' as <-. discriminate.
    + rewrite lookup_insert_ne in Hc' by congruence.
      intros [H | H]; [congruence | exact (paced_unstamped0 c' p Hc' Hu H)].
  - intros c' p Hc' Hu. destruct (decide (c' = c)) as [-> | Hne].
    + apply (paced_unsent0 c _ Hc). reflexivity.
    + rewrite lookup_insert_ne in Hc' by congruence. eauto.
  - intros c' ip' Hc'. destruct (decide (c' = c)) as [-> | Hne]; [left; reflexivity |].
    rewrite lookup_insert_ne in Hc' by congruence. right. eauto.
  - destruct paced_once0 as [H1 H2]. split; [constructor; assumption | assumption].
Qed.

(** The request leaves. *)
Lemma paced_send c ip url s :
  paced s -> calls s !! c = Some (Cleared ip) ->
  paced (mkProgram (send url (vars s)) (requestMu s) (<[c := Awaiting ip]> (calls s))
                   (stamps s) ((c, clock (vars s)) :: requests s)).
Proof.
  intros Hp Hc.
  pose proof (paced_cleared s Hp c ip Hc) as Hstamped.
  pose proof (paced_unsent s Hp c _ Hc eq_refl) as Hfresh.
  destruct Hp.
  constructor; cbn [send vars requestMu calls stamps requests clock lastRequestTime
                    fetched map fst snd head]; try assumption.
  - f_equal. assumption.
  - intros c' t [H | H]; [| eauto]. injection H as <- <-.
    apply in_map_iff in Hstamped as ([c2 t2] & Heq & Hin). cbn in Heq. subst c2.
    exists t2. split; [exact Hin |]. specialize (paced_past0 c t2 Hin). lia.
  - intros c' p Hc' Hi. destruct (decide (c' = c)) as [-> | Hne].
    + rewrite lookup_insert_eq in Hc'. injection Hc' as <-. discriminate.
    + rewrite lookup_insert_ne in Hc' by congruence. eauto.
  - intros c' ip' wake' Hc'. destruct (decide (c' = c)) as [-> | Hne].
    + rewrite lookup_insert_eq in Hc'. discriminate.
    + rewrite lookup_insert_ne in Hc' by congruence. eauto.
  - intros c' Hc'. destruct (decide (c' = c)) as [-> | Hne].
    + rewrite lookup_insert_eq in Hc'. discriminate.
    + rewrite lookup_insert_ne in Hc' by congruence.
      destruct (paced_new0 c' Hc') as [H1 H2]. split; [exact H1 |].
      intros [H | H]; [congruence | contradiction].
  - intros c' p Hc' Hu. destruct (decide (c' = c)) as [-> | Hne].
    + rewrite lookup_insert_eq in Hc'. injection Hc' as <-. discriminate.
    + rewrite lookup_insert_ne in Hc' by congruence. eauto.
  - intros c' p Hc' Hu. destruct (decide (c' = c)) as [-> | Hne].
    + rewrite lookup_insert_eq in Hc'. injection Hc' as <-. discriminate.
    + rewrite lookup_insert_ne in Hc' by congruence.
      intros [H | H]; [congruence | exact (paced_unsent0 c' p Hc' Hu H)].
  - intros c' ip' Hc'. destruct (decide (c' = c)) as [-> | Hne].
    + rewrite lookup_insert_eq in Hc'. discriminate.
    + rewrite lookup_insert_ne in Hc' by congruence. eauto.
  - destruct paced_once0 as [H1 H2]. split; [assumption | constructor; assumption].
Qed.

Lemma paced_step e s s' : onward e -> paced s -> step e s = Some s' -> paced s'.
Proof.
  intros He Hp Hs. destruct e as [d | c ip | c | c o]; cbn [step onward] in *.
  - injection Hs as <-. destruct Hp. constructor; cbn; try assumption. lia.
  - destruct (calls s !! c) as [p |] eqn:Hc; [discriminate |]. injection Hs as <-.
    destruct (paced_new s Hp c Hc) as [H1 H2].
    apply paced_moved; auto; try discriminate.
  - destruct (calls s !! c) as [[[ip |] | ip | ip | ip wake | ip | ip | r] |] eqn:Hc;
      try discriminate.
    + destruct (getCachedResult ip (vars s)) as [[cc org] [|]]; injection Hs as <-;
        apply paced_moved; auto; try discriminate.
      * intros _. exact (paced_unstamped s Hp c _ Hc eq_refl).
      * intros _. exact (paced_unsent s Hp c _ Hc eq_refl).
    + injection Hs as <-. apply paced_moved; auto; discriminate.
    + destruct (requestMu s) eqn:Hmu; [discriminate |]. injection Hs as <-.
      apply paced_lock; assumption.
    + injection Hs as <-. destruct (pause_frame (vars s)) as (H1 & _ & H3 & H4).
      apply paced_moved; auto; try discriminate.
      * intros _. exact (paced_holder s Hp c _ Hc eq_refl).
      * intros ip' wake H. injection H as _ <-. apply pause_wake, Hp.
      * intros _. exact (paced_unstamped s Hp c _ Hc eq_refl).
      * intros _. exact (paced_unsent s Hp c _ Hc eq_refl).
    + destruct (Z.ltb_spec (clock (vars s)) wake); [discriminate |]. injection Hs as <-.
      apply (paced_stamp c ip wake); assumption.
    + injection Hs as <-. apply paced_send; assumption.
  - destruct (calls s !! c) as [[[ip |] | ip | ip | ip wake | ip | ip | r] |] eqn:Hc;
      try discriminate.
    injection Hs as <-. destruct (settle_frame ip o (vars s)) as (H1 & H2 & H3).
    apply paced_moved; auto; discriminate.
Qed.

Lemma paced_run evs : forall s s',
  Forall onward evs -> paced s -> run evs s = Some s' -> paced s'.
Proof.
  induction evs as [| e rest IH]; intros s s' Hall Hp Hrun; cbn [run] in Hrun.
  - injection Hrun as <-. exact Hp.
  - inversion Hall as [| ? ? He Hrest]; subst.
    destruct (step e s) as [s1 |] eqn:Hs; [| discriminate].
    apply (IH s1 s' Hrest); [| exact Hrun].
    apply (paced_step e s s1); assumption.
Qed.

End RateLimit.

Section Admissions.
Import GoTime IPAPI Samples.

(** C8, as amended: in every interleaving of calls, for whatever
    addresses, any two consecutive passes through the rate limiter, that
    is, any two consecutive updates of [lastRequestTime], are at least 2
    seconds apart, and [lastRequestTime] is the latest of them. A call
    that finds the stamp less than 2 seconds old sleeps for exactly the
    remainder, holding [requestMu], and renews the stamp only once the
    sleep is over; a call that finds it older does not sleep. While a
    call is inside the limiter no other call enters it. Every call
    passes the limiter at most once and sends at most one request, at
    or after its own pass; nothing bounds the request from above. *)
Theorem stamps_spaced (t0 : Time) (evs : list Event) (s : Program) :
  0 <= t0 -> Forall onward evs -> run evs (start t0) = Some s ->
  let st := vars s in
  let elapsed := Since st (lastRequestTime st) in
  spaced minRequestInterval (map snd (stamps s))
  /\ (forall c t, head (stamps s) = Some (c, t) -> lastRequestTime st = t)
  /\ List.NoDup (map fst (stamps s))
  /\ List.NoDup (map fst (requests s))
  /\ map snd (requests s) = map snd (fetched st)
  /\ (forall c t, In (c, t) (requests s) ->
        exists t', In (c, t') (stamps s) /\ t' <= t)
  /\ (forall c ip, calls s !! c = Some (AtLimiter ip) ->
        forall c', requestMu s = Some c' -> step (Move c) s = None)
  /\ (forall c ip, calls s !! c = Some (Locked ip) ->
        requestMu s = Some c
        /\ (elapsed < minRequestInterval ->
            step (Move c) s
            = Some (moved c (Pausing ip (lastRequestTime st + minRequestInterval))
                      (mkState (clock st) (ipCache st) (lastRequestTime st)
                               ((minRequestInterval - elapsed) :: sleeps st)
                               (fetched st))
                      s)
            /\ clock st + (minRequestInterval - elapsed)
               = lastRequestTime st + minRequestInterval)
        /\ (minRequestInterval <= elapsed ->
            step (Move c) s = Some (moved c (Pausing ip (clock st)) st s)))
  /\ (forall c ip wake, calls s !! c = Some (Pausing ip wake) ->
        requestMu s = Some c
        /\ lastRequestTime st + minRequestInterval <= wake
        /\ (clock st < wake -> step (Move c) s = None)
        /\ (wake <= clock st ->
            step (Move c) s
            = Some (mkProgram (stamp st) None (<[c := Cleared ip]> (calls s))
                              ((c, clock st) :: stamps s) (requests s))))
  /\ (forall c ip, calls s !! c = Some (Cleared ip) ->
        step (Move c) s
        = Some (mkProgram (send (String.append apiBaseURL ip) st) (requestMu s)
                          (<[c := Awaiting ip]> (calls s))
                          (stamps s) ((c, clock st) :: requests s))).
Proof.
  intros Ht0 Hall Hrun. cbn zeta.
  pose proof (paced_run evs (start t0) s Hall (paced_start t0 Ht0) Hrun) as Hp.
  split; [apply Hp |].
  split; [apply Hp |].
  split; [apply Hp |].
  split; [apply Hp |].
  split; [apply Hp |].
  split; [apply Hp |].
  split.
  { intros c ip Hc c' Hmu. cbn [step]. rewrite Hc, Hmu. reflexivity. }
  split.
  { intros c ip Hc.
    split; [exact (paced_holder s Hp c _ Hc eq_refl) |].
    split.
    - intros Hshort.
      destruct (pause_short (vars s) (paced_clock s Hp) Hshort) as [Hpause Heq].
      split; [| exact Heq].
      cbn [step]. rewrite Hc, Hpause. cbn [fst snd]. rewrite Heq. reflexivity.
    - intros Hlong. cbn [step]. rewrite Hc, (pause_long (vars s) Hlong). reflexivity. }
  split.
  { intros c ip wake Hc.
    split; [exact (paced_holder s Hp c _ Hc eq_refl) |].
    split; [exact (paced_wake s Hp c ip wake Hc) |].
    split; intros Hw; cbn [step]; rewrite Hc;
      destruct (Z.ltb_spec (clock (vars s)) wake); (reflexivity || lia). }
  intros c ip Hc. cbn [step]. rewrite Hc. reflexivity.
Qed.

(** The claim C8 as the specification words it fails: the request of
    the first call leaves a microsecond after its pass through the
    limiter, that of the second call with its pass, 2 seconds after the
    first pass; they are 1.999999 seconds apart. *)
Lemma requests_within_interval :
  Forall onward lateRequest
  /\ map snd (stamps (reached lateRequest (5 * Second))) = [7 * Second; 5 * Second]
  /\ map snd (fetched (vars (reached lateRequest (5 * Second))))
     = [7 * Second; 5 * Second + 1000]
  /\ ~ requestsApart (5 * Second) lateRequest.
Proof.
  split; [repeat constructor; vm_compute; discriminate |].
  split; [vm_compute; reflexivity |].
  split; [vm_compute; reflexivity |].
  intros H. specialize (H (reached lateRequest (5 * Second)) ltac:(vm_compute; reflexivity)).
  vm_compute in H. destruct H as [H _]. apply H. reflexivity.
Qed.

Lemma stamps_spaced_witness :
  stamps (reached overtaken (5 * Second)) = [(2%nat, 9 * Second); (1%nat, 5 * Second)]
  /\ requests (reached overtaken (5 * Second))
     = [(1%nat, 10 * Second); (2%nat, 9 * Second)]
  /\ spaced minRequestInterval (map snd (stamps (reached overtaken (5 * Second)))).
Proof.
  split; [vm_compute; reflexivity |].
  split; [vm_compute; reflexivity |].
  destruct (stamps_spaced (5 * Second) overtaken (reached overtaken (5 * Second)))
    as [H _].
  - vm_compute. discriminate.
  - repeat constructor; vm_compute; discriminate.
  - vm_compute. reflexivity.
  - exact H.
Defined.

End Admissions.

Section LoneCall.
Import GoTime IPAPI.

Lemma checkRateLimit_pause env st :
  checkRateLimit env st
  = stamp (advance (lag env) (advance (snd (pause st) - clock st) (fst (pause st)))).
Proof.
  unfold checkRateLimit, pause, Sleep, stamp, advance.
  destruct (_ <? minRequestInterval); [destruct (0 <? _) |]; cbn; f_equal; lia.
Qed.

Lemma queryIPAPI_settle env ip st :
  getCachedResult ip st = ("", "", false) ->
  queryIPAPI env (Some ip) st
  = settle ip (httpGet env (String.append apiBaseURL ip))
           (snd (Get env (String.append apiBaseURL ip) (checkRateLimit env st))).
Proof.
  intros Hmiss. unfold queryIPAPI, settle. rewrite Hmiss. unfold Get. cbn [snd].
  destruct (httpGet env (String.append apiBaseURL ip)) as [err | code body];
    reflexivity.
Qed.

(** A call that runs while no other does goes through the points of
    [alone] and leaves what [queryIPAPI] returns and the state that it
    leaves. *)
Lemma queryIPAPI_alone env c ip s :
  0 <= lag env -> calls s !! c = None -> requestMu s = None ->
  exists s',
    run (alone env c ip (vars s)) s = Some s'
    /\ vars s' = snd (queryIPAPI env ip (vars s))
    /\ calls s' = <[c := Finished (fst (queryIPAPI env ip (vars s)))]> (calls s)
    /\ requestMu s' = None.
Proof.
  intros Hlag Hnew Hfree. destruct ip as [ip |].
  2:{ eexists. split.
      - cbn [alone run step]. rewrite Hnew. cbn [moved calls vars].
        rewrite lookup_insert_eq. reflexivity.
      - cbn [moved calls vars requestMu queryIPAPI fst snd].
        rewrite insert_insert_eq. repeat split. exact Hfree. }
  cbn [alone].
  destruct (getCachedResult ip (vars s)) as [[cc org] [|]] eqn:Hget.
  { eexists. split.
    - cbn [run step]. rewrite Hnew. cbn [moved calls vars].
      rewrite lookup_insert_eq, Hget. reflexivity.
    - cbn [moved calls vars requestMu]. unfold queryIPAPI. rewrite Hget.
      cbn [fst snd]. rewrite insert_insert_eq. repeat split. exact Hfree. }
  assert (Hmiss : getCachedResult ip (vars s) = ("", "", false)).
  { revert Hget. unfold getCachedResult. destruct (ipCache (vars s) !! ip) as [e |];
      [destruct (_ <? _) |]; intros H; try discriminate; reflexivity. }
  rewrite (queryIPAPI_settle env ip (vars s) Hmiss), checkRateLimit_pause.
  destruct (pause_frame (vars s)) as (Hclock & _).
  eexists. split.
  - cbn [run step]. rewrite Hnew. cbn [moved calls vars requestMu stamps requests].
    rewrite lookup_insert_eq, Hget. cbn [moved calls vars requestMu stamps requests].
    rewrite lookup_insert_eq, Hfree. cbn [moved calls vars requestMu stamps requests].
    rewrite lookup_insert_eq. cbn [moved calls vars requestMu stamps requests].
    rewrite lookup_insert_eq. cbn [advance clock].
    destruct (Z.ltb_spec (clock (fst (pause (vars s)))
                          + (snd (pause (vars s)) - clock (vars s)) + lag env)
                         (snd (pause (vars s)))); [lia |].
    cbn [moved calls vars requestMu stamps requests].
    rewrite lookup_insert_eq. cbn [moved calls vars requestMu stamps requests].
    rewrite lookup_insert_eq. reflexivity.
  - cbn [moved calls vars requestMu]. rewrite !insert_insert_eq.
    repeat split; reflexivity.
Qed.

End LoneCall.

(** ** Agent authentication *)

Section Frames.
Import RPC.

Lemma keeps_ret {X A} (f : World -> X) (a : A) : keeps f (ret a).
Proof. intros w. reflexivity. Qed.

Lemma keeps_fail {X A} (f : World -> X) msg : keeps f (@fail A msg).
Proof. intros w. reflexivity. Qed.

Lemma keeps_panic {X A} (f : World -> X) : keeps f (@panic A).
Proof. intros w. reflexivity. Qed.

Lemma keeps_get {X} (f : World -> X) : keeps f get.
Proof. intros w. reflexivity. Qed.

Lemma keeps_modify {X} (f : World -> X) g :
  (forall w, f (g w) = f w) -> keeps f (modify g).
Proof. intros H w. apply H. Qed.

Lemma keeps_bind {X A B} (f : World -> X) (m : M A) (k : A -> M B) :
  keeps f m -> (forall a, keeps f (k a)) -> keeps f (bind m k).
Proof.
  intros Hm Hk w. unfold bind. specialize (Hm w).
  destruct (m w) as [[a | e |] w']; cbn in *; [| assumption | assumption].
  rewrite (Hk a w'). exact Hm.
Qed.

Lemma keeps_send {X} (f : World -> X) s :
  (forall db w, f (setDB db w) = f w) -> keeps f (send s).
Proof. intros H w. unfold send. cbn. apply H. Qed.

Lemma keeps_Generate {X} (f : World -> X) :
  (forall l w, f (setPetnames l w) = f w) -> keeps f Generate.
Proof. intros H w. unfold Generate. destruct (petnames w); cbn; [reflexivity | apply H]. Qed.

Ltac keeps_step :=
  first
    [ apply keeps_ret | apply keeps_fail | apply keeps_panic | apply keeps_get
    | apply keeps_bind; [| intros ?]
    | apply keeps_modify; solve [assumption | intros; reflexivity]
    | apply keeps_send; solve [assumption | intros; reflexivity]
    | apply keeps_Generate; solve [assumption | intros; reflexivity]
    | match goal with
      | |- keeps _ (match ?x with _ => _ end) => destruct x
      end ].

Ltac keeps_auto := repeat keeps_step.

Lemma keeps_mdValue {X} (f : World -> X) md key : keeps f (mdValue md key).
Proof. unfold mdValue. keeps_auto. Qed.

Lemma keeps_First {X} (f : World -> X) name owner :
  (forall db w, f (setDB db w) = f w) -> keeps f (First name owner).
Proof. intros H. unfold First. keeps_auto. Qed.

Lemma keeps_resolveGroup {X} (f : World -> X) md userId :
  (forall db w, f (setDB db w) = f w) -> keeps f (resolveGroup md userId).
Proof.
  intros H. unfold resolveGroup.
  repeat first [ apply keeps_First; exact H | keeps_step ].
Qed.

Lemma tables_send s : keeps dbTables (send s).
Proof. intros w. reflexivity. Qed.

Lemma tables_First name owner : keeps dbTables (First name owner).
Proof.
  unfold First. apply keeps_bind; [apply tables_send |]. intros ?. keeps_auto.
Qed.

Lemma tables_resolveGroup md userId : keeps dbTables (resolveGroup md userId).
Proof.
  unfold resolveGroup.
  repeat first [ apply tables_First | keeps_step ].
Qed.

Lemma tables_prepare md userId : keeps dbTables (prepare md userId).
Proof.
  unfold prepare.
  repeat first [ apply tables_resolveGroup | apply keeps_mdValue | keeps_step ].
Qed.

Lemma keeps_prepare {X} (f : World -> X) md userId :
  (forall db w, f (setDB db w) = f w) ->
  (forall l w, f (setPetnames l w) = f w) ->
  keeps f (prepare md userId).
Proof.
  intros Hdb Hpet. unfold prepare.
  repeat first [ apply keeps_resolveGroup; exact Hdb | apply keeps_mdValue
               | apply keeps_Generate; exact Hpet | keeps_step ].
Qed.

Lemma keeps_setTables {X} (f : World -> X) t :
  (forall db w, f (setDB db w) = f w) -> keeps f (setTables t).
Proof. intros H w. unfold setTables, modify. cbn. apply H. Qed.

Lemma keeps_Transaction {X A} (f : World -> X) (fn : M (string + A)) :
  (forall db w, f (setDB db w) = f w) ->
  keeps f fn -> keeps f (Transaction fn).
Proof.
  intros H Hfn. unfold Transaction.
  repeat first [ apply keeps_send; exact H | apply keeps_setTables; exact H
               | exact Hfn | keeps_step ].
Qed.

Lemma keeps_createRecords {X} (f : World -> X) s userId gid :
  (forall db w, f (setDB db w) = f w) -> keeps f (createRecords s userId gid).
Proof.
  intros H. unfold createRecords, CreateServer, CreateMember.
  repeat first [ apply keeps_send; exact H | apply keeps_setTables; exact H
               | keeps_step ].
Qed.

Lemma blocklist_announce md userId uuid name gid s :
  keeps blocklist (announce md userId uuid name gid s).
Proof.
  unfold announce, logPrintf, Update.
  repeat first [ apply keeps_mdValue | keeps_step ].
Qed.

Lemma blocklist_identify md userId uuid : keeps blocklist (identify md userId uuid).
Proof.
  unfold identify, UUIDToID, provision.
  repeat first
    [ apply keeps_prepare; intros; reflexivity
    | apply keeps_Transaction; [intros; reflexivity |]
    | apply keeps_createRecords; intros; reflexivity
    | apply blocklist_announce
    | keeps_step ].
Qed.

End Frames.

Section CheckFacts.
Import RPC.

Lemma isEmpty_false s : s <> "" -> isEmpty s = false.
Proof. intros H. unfold isEmpty. destruct (String.eqb_spec s ""); congruence. Qed.

Lemma Check_no_secret ctx md w :
  metadata ctx = Some md -> carries md "client_secret" "" ->
  RPC.Check ctx w = (Failed (mkStatus Unauthenticated msgAuthFailed), w).
Proof.
  intros Hmd Hsec. unfold Check. rewrite Hmd. unfold bind. rewrite (Hsec w).
  reflexivity.
Qed.

Lemma Check_unknown_secret ctx md w secret :
  metadata ctx = Some md -> carries md "client_secret" secret ->
  secret <> "" -> AgentSecretToUserId w !! secret = None ->
  RPC.Check ctx w = (Failed (mkStatus Unauthenticated msgAuthFailed), blocked (realIP ctx) w).
Proof.
  intros Hmd Hsec Hne Hnone. unfold Check. rewrite Hmd. unfold bind.
  rewrite (Hsec w), (isEmpty_false _ Hne). cbn. rewrite Hnone. reflexivity.
Qed.

Lemma Check_authenticated ctx md w secret userId uuid :
  metadata ctx = Some md -> carries md "client_secret" secret ->
  secret <> "" -> AgentSecretToUserId w !! secret = Some userId ->
  carries md "client_uuid" uuid ->
  RPC.Check ctx w
  = if badUUID uuid
    then (Failed (mkStatus Unauthenticated msgBadUUID), unblocked (realIP ctx) w)
    else identify md userId uuid (unblocked (realIP ctx) w).
Proof.
  intros Hmd Hsec Hne Hsome Huuid. unfold Check. rewrite Hmd. unfold bind.
  rewrite (Hsec w), (isEmpty_false _ Hne). cbn. rewrite Hsome. cbn.
  rewrite (Huuid _). destruct (badUUID uuid); reflexivity.
Qed.

Lemma mdValue_cases md key :
  (exists s, carries md key s) \/ (forall w, mdValue md key w = (Panic, w)).
Proof.
  unfold carries, mdValue.
  destruct (md !! key) as [[| v vs] |]; [right | left; eexists | left; eexists];
    intros w; reflexivity.
Qed.

Lemma Check_uuid_panics ctx md w secret userId :
  metadata ctx = Some md -> carries md "client_secret" secret ->
  secret <> "" -> AgentSecretToUserId w !! secret = Some userId ->
  (forall w', mdValue md "client_uuid" w' = (Panic, w')) ->
  RPC.Check ctx w = (Panic, unblocked (realIP ctx) w).
Proof.
  intros Hmd Hsec Hne Hsome Hpanic. unfold Check. rewrite Hmd. unfold bind.
  rewrite (Hsec w), (isEmpty_false _ Hne). cbn. rewrite Hsome. cbn.
  rewrite (Hpanic _). reflexivity.
Qed.

Lemma badUUID_false uuid :
  (1 <= String.length uuid <= 64)%nat -> badUUID uuid = false.
Proof.
  intros [Hlo Hhi]. unfold badUUID, isEmpty.
  destruct uuid as [| a r]; [cbn in Hlo; lia |]. cbn [String.eqb orb].
  apply Nat.ltb_ge. exact Hhi.
Qed.

Lemma badUUID_true uuid :
  (String.length uuid = 0 \/ 64 < String.length uuid)%nat -> badUUID uuid = true.
Proof.
  intros [Hz | Hlong]; unfold badUUID, isEmpty.
  - destruct uuid; [reflexivity | discriminate].
  - apply orb_true_iff. right. apply Nat.ltb_lt. exact Hlong.
Qed.

End CheckFacts.

Section Blocking.
Import RPC Samples.

(** The claim C2 as the specification words it fails on a call that
    carries no secret: the call is refused, and the address of the caller
    is not on the block list afterwards. *)
Lemma absent_secret_not_blocked :
  fst (RPC.Check noSecret (fleetWorld [])) = Failed (mkStatus Unauthenticated msgAuthFailed)
  /\ realIP noSecret ∉ blocklist (snd (RPC.Check noSecret (fleetWorld []))).
Proof.
  assert (Hout : RPC.Check noSecret (fleetWorld [])
                 = (Failed (mkStatus Unauthenticated msgAuthFailed), fleetWorld [])).
  { apply Check_no_secret with ∅; [reflexivity | intros w; reflexivity]. }
  rewrite Hout. split; [reflexivity |].
  cbn. intros Hin. apply elem_of_singleton in Hin. discriminate.
Qed.

(** C2, amended: a call whose secret is absent or empty once trimmed is
    refused with an Unauthenticated error and changes nothing, the block
    list included. A call whose secret is not empty and belongs to no
    account is refused with the same error, and the address of the caller
    is on the block list when [Check] returns. A call whose secret belongs
    to an account takes the address off the block list, and nothing that
    happens later in the call (bad UUID, group, transaction) puts any
    address on it. *)
Theorem secret_validation_blocking (ctx : Ctx) (md : gmap string (list string))
        (secret : string) (w : World) :
  metadata ctx = Some md ->
  carries md "client_secret" secret ->
  let ip := realIP ctx in
  let out := RPC.Check ctx w in
  (secret = "" ->
     out = (Failed (mkStatus Unauthenticated msgAuthFailed), w))
  /\ (secret <> "" -> AgentSecretToUserId w !! secret = None ->
      out = (Failed (mkStatus Unauthenticated msgAuthFailed), blocked ip w)
      /\ ip ∈ blocklist (snd out))
  /\ (secret <> "" -> is_Some (AgentSecretToUserId w !! secret) ->
      blocklist (snd out) = blocklist w ∖ {[ip]} /\ ip ∉ blocklist (snd out)).
Proof.
  intros Hmd Hsec. cbn zeta. split; [| split].
  - intros ->. apply Check_no_secret with md; assumption.
  - intros Hne Hnone.
    rewrite (Check_unknown_secret ctx md w secret Hmd Hsec Hne Hnone).
    split; [reflexivity |]. cbn. apply elem_of_union_l, elem_of_singleton. reflexivity.
  - intros Hne [userId Hsome].
    assert (Hb : blocklist (snd (RPC.Check ctx w)) = blocklist w ∖ {[realIP ctx]}).
    { destruct (mdValue_cases md "client_uuid") as [[uuid Huuid] | Hpanic].
      - rewrite (Check_authenticated ctx md w secret userId uuid
                   Hmd Hsec Hne Hsome Huuid).
        destruct (badUUID uuid); [reflexivity |].
        rewrite (blocklist_identify md userId uuid). reflexivity.
      - rewrite (Check_uuid_panics ctx md w secret userId Hmd Hsec Hne Hsome Hpanic).
        reflexivity. }
    rewrite Hb. split; [reflexivity |].
    intros Hin. apply elem_of_difference in Hin as [_ Hnot].
    apply Hnot, elem_of_singleton. reflexivity.
Qed.

Lemma secret_validation_blocking_witness :
  realIP wrongSecret ∈ blocklist (snd (RPC.Check wrongSecret (fleetWorld []))).
Proof.
  apply (secret_validation_blocking wrongSecret
           {[ "client_secret" := ["guess"] ]} "guess" (fleetWorld [])).
  - reflexivity.
  - intros w. reflexivity.
  - discriminate.
  - reflexivity.
Defined.

End Blocking.

Section FastPath.
Import RPC Samples.

(** C4: when the secret belongs to an account and the trimmed UUID, of 1
    to 64 bytes, is mapped in the Identity Cache, [Check] returns the
    mapped identity, and the world it leaves differs from the one it found
    only by the unblocking of the caller that step 2 performed before the
    lookup: the database (tables, statements sent, pending failures), the
    Identity Cache and inventory, the name generator and the log are
    untouched. *)
Theorem fast_path_frame (ctx : Ctx) (md : gmap string (list string))
        (secret uuid : string) (userId id : N) (w : World) :
  metadata ctx = Some md ->
  carries md "client_secret" secret ->
  secret <> "" ->
  AgentSecretToUserId w !! secret = Some userId ->
  carries md "client_uuid" uuid ->
  (1 <= String.length uuid <= 64)%nat ->
  uuidToID (ServerShared w) !! uuid = Some id ->
  let out := RPC.Check ctx w in
  fst out = Val id
  /\ snd out = unblocked (realIP ctx) w
  /\ DB (snd out) = DB w
  /\ ServerShared (snd out) = ServerShared w
  /\ petnames (snd out) = petnames w
  /\ logged (snd out) = logged w.
Proof.
  intros Hmd Hsec Hne Hsome Huuid Hlen Hmapped. cbn zeta.
  rewrite (Check_authenticated ctx md w secret userId uuid Hmd Hsec Hne Hsome Huuid).
  rewrite (badUUID_false uuid Hlen).
  unfold identify, UUIDToID, bind, get, ret. cbn. rewrite Hmapped. cbn.
  repeat split.
Qed.

End FastPath.

Section UUIDBounds.
Import RPC Samples.

(** The bounds that [Check] puts on the UUID are bounds on its bytes,
    those of Go's [len]: once the secret is accepted, a UUID that is
    empty or longer than 64 bytes once trimmed is refused with the
    Unauthenticated error [msgBadUUID], and every UUID of 1 to 64 bytes
    passes the validation: the call goes on to the Identity Cache
    lookup. *)
Theorem uuid_length_bounds (ctx : Ctx) (md : gmap string (list string))
        (secret uuid : string) (userId : N) (w : World) :
  metadata ctx = Some md ->
  carries md "client_secret" secret ->
  secret <> "" ->
  AgentSecretToUserId w !! secret = Some userId ->
  carries md "client_uuid" uuid ->
  let out := RPC.Check ctx w in
  ((String.length uuid = 0 \/ 64 < String.length uuid)%nat ->
     out = (Failed (mkStatus Unauthenticated msgBadUUID), unblocked (realIP ctx) w))
  /\ ((1 <= String.length uuid <= 64)%nat ->
      out = identify md userId uuid (unblocked (realIP ctx) w)).
Proof.
  intros Hmd Hsec Hne Hsome Huuid. cbn zeta.
  rewrite (Check_authenticated ctx md w secret userId uuid Hmd Hsec Hne Hsome Huuid).
  split; intros Hlen.
  - rewrite (badUUID_true uuid Hlen). reflexivity.
  - rewrite (badUUID_false uuid Hlen). reflexivity.
Qed.

End UUIDBounds.

Section TrimFacts.
Import GoStrings.

Lemma space2_lead a b :
  isSpace2 a b = true -> isAsciiSpace a = false.
Proof.
  unfold isSpace2, isByte, isAsciiSpace. intros H.
  apply andb_true_iff in H as [Ha _]. apply N.eqb_eq in Ha. rewrite Ha. reflexivity.
Qed.

Lemma space3_lead a b c :
  isSpace3 a b c = true -> isAsciiSpace a = false /\ isSpace2 a b = false.
Proof.
  unfold isSpace3, isSpace2, isByte, isAsciiSpace. intros H.
  repeat (apply orb_true_iff in H as [H | H]);
    repeat (apply andb_true_iff in H as [H ?]);
    apply N.eqb_eq in H; rewrite H; split; reflexivity.
Qed.

Lemma trimLeft_blank s : blank s -> trimLeft s = "".
Proof.
  induction 1 as [| a r Ha _ IH | a b r Hab _ IH | a b c r Habc _ IH].
  - reflexivity.
  - cbn [trimLeft]. rewrite Ha. exact IH.
  - cbn [trimLeft]. rewrite (space2_lead a b Hab), Hab. exact IH.
  - destruct (space3_lead a b c Habc) as [Ha Hab].
    cbn [trimLeft]. rewrite Ha, Hab, Habc. exact IH.
Qed.

Lemma TrimSpace_blank s : blank s -> TrimSpace s = "".
Proof. intros H. unfold TrimSpace. rewrite (trimLeft_blank s H). reflexivity. Qed.

End TrimFacts.

Section Trimming.
Import GoStrings RPC Samples.

Lemma mdValue_seen md md' key :
  seen md' key = seen md key -> mdValue md' key = mdValue md key.
Proof.
  unfold seen, mdValue.
  destruct (md' !! key) as [[| v' vs'] |], (md !! key) as [[| v vs] |];
    intros H; try discriminate; try reflexivity.
  injection H as ->. reflexivity.
Qed.

Lemma resolveGroup_seen md md' :
  seen md' "server_group_name" = seen md "server_group_name" ->
  resolveGroup md' = resolveGroup md.
Proof.
  unfold seen, resolveGroup.
  destruct (md' !! "server_group_name") as [[| v' vs'] |],
           (md !! "server_group_name") as [[| v vs] |];
    intros H; try discriminate; try reflexivity.
  injection H as ->. reflexivity.
Qed.

Lemma Check_seen md md' ip w :
  sameView md md' ->
  RPC.Check (mkCtx (Some md') ip) w = RPC.Check (mkCtx (Some md) ip) w.
Proof.
  intros (Hs & Hu & Hn & Hg).
  unfold Check, identify, provision, prepare, announce. cbn [metadata realIP].
  rewrite (mdValue_seen md md' _ Hs), (mdValue_seen md md' _ Hu),
    (mdValue_seen md md' _ Hn), (mdValue_seen md md' _ Hg),
    (resolveGroup_seen md md' Hg).
  reflexivity.
Qed.

Lemma carries_seen md key v vs :
  md !! key = Some (v :: vs) -> carries md key (TrimSpace v).
Proof. intros H w. unfold mdValue. rewrite H. reflexivity. Qed.

Lemma carries_absent md key : md !! key = None -> carries md key "".
Proof. intros H w. unfold mdValue. rewrite H. reflexivity. Qed.

(** C10: [Check] sees of the four metadata values only their trimmed
    form: two metadata maps with the same trimmed values give the same
    result and the same world. A secret made of white space only is
    refused exactly as an absent secret is; a UUID made of white space
    only is refused as empty; the limit of 64 bytes is applied to the
    trimmed UUID. *)
Theorem metadata_trimmed (ctx : Ctx) (md : gmap string (list string)) (w : World) :
  metadata ctx = Some md ->
  (forall md', sameView md md' ->
     RPC.Check (mkCtx (Some md') (realIP ctx)) w = RPC.Check ctx w)
  /\ (forall v vs, md !! "client_secret" = Some (v :: vs) -> blank v ->
      RPC.Check ctx w = (Failed (mkStatus Unauthenticated msgAuthFailed), w)
      /\ RPC.Check (mkCtx (Some (delete "client_secret" md)) (realIP ctx)) w
         = RPC.Check ctx w)
  /\ (forall secret userId v vs,
        carries md "client_secret" secret -> secret <> "" ->
        AgentSecretToUserId w !! secret = Some userId ->
        md !! "client_uuid" = Some (v :: vs) ->
        (blank v ->
           RPC.Check ctx w
           = (Failed (mkStatus Unauthenticated msgBadUUID), unblocked (realIP ctx) w))
        /\ ((64 < String.length (TrimSpace v))%nat ->
            RPC.Check ctx w
            = (Failed (mkStatus Unauthenticated msgBadUUID), unblocked (realIP ctx) w))
        /\ ((1 <= String.length (TrimSpace v) <= 64)%nat ->
            RPC.Check ctx w
            = identify md userId (TrimSpace v) (unblocked (realIP ctx) w))).
Proof.
  intros Hmd. destruct ctx as [m ip]. cbn in Hmd. subst m. cbn [realIP].
  split; [| split].
  - intros md' Hview. apply Check_seen, Hview.
  - intros v vs Hsec Hblank.
    pose proof (carries_seen md "client_secret" v vs Hsec) as Hc.
    rewrite (TrimSpace_blank v Hblank) in Hc.
    rewrite (Check_no_secret (mkCtx (Some md) ip) md w eq_refl Hc).
    split; [reflexivity |].
    apply (Check_no_secret (mkCtx (Some (delete "client_secret" md)) ip)
             (delete "client_secret" md) w eq_refl).
    apply carries_absent, lookup_delete_eq.
  - intros secret userId v vs Hsec Hne Hsome Huuid.
    pose proof (carries_seen md "client_uuid" v vs Huuid) as Hc.
    rewrite (Check_authenticated (mkCtx (Some md) ip) md w secret userId
               (TrimSpace v) eq_refl Hsec Hne Hsome Hc).
    cbn [realIP].
    split; [| split].
    + intros Hblank. rewrite (TrimSpace_blank v Hblank). reflexivity.
    + intros Hlong. rewrite badUUID_true by (right; exact Hlong). reflexivity.
    + intros Hlen. rewrite (badUUID_false _ Hlen). reflexivity.
Qed.

End Trimming.

Section Groups.
Import GoStrings RPC Samples.






End Groups.

Section Provisioning.
Import GoStrings RPC Samples.

Lemma Transaction_createRecords s userId gid w :
  let tx := Transaction (createRecords s userId gid) w in
  let t := tables (DB w) in
  (exists e, fst tx = Val (inl e) /\ tables (DB (snd tx)) = t)
  \/ (exists s', fst tx = Val (inr s')
                 /\ s' = mkServer (N.succ (last_server_id t)) (srv_UserID s)
                                  (srv_UUID s) (srv_Name s) (srv_initialised s)
                 /\ servers (tables (DB (snd tx))) = (servers t ++ [s'])%list
                 /\ server_group_servers (tables (DB (snd tx)))
                    = (server_group_servers t ++ memberRows t userId gid s')%list
                 /\ server_groups (tables (DB (snd tx))) = server_groups t).
Proof.
  cbn zeta. unfold memberRows.
  unfold Transaction, createRecords, CreateServer, CreateMember.
  unfold bind, send, get, ret, setTables, modify. cbn.
  assert (Hleft : forall (x : string) (t1 t2 : Tables) (P : Prop),
             t1 = t2 -> (exists e, @Val (string + Server) (inl x) = Val (inl e) /\ t1 = t2) \/ P).
  { intros x t1 t2 P ->. left. exists x. split; reflexivity. }
  generalize (faults (DB w)). intros fs.
  repeat (cbn;
          try (apply Hleft; reflexivity);
          match goal with
          | |- context [head ?l] => is_var l; destruct l as [| [? |] ?]
          | |- context [(0 <? gid)%N] => destruct (0 <? gid)%N
          end).
  all: cbn; try (apply Hleft; reflexivity).
  all: right; eexists; repeat split; rewrite ?app_nil_r; reflexivity.
Qed.

Lemma identify_unmapped md userId uuid w :
  uuidToID (ServerShared w) !! uuid = None ->
  identify md userId uuid w = provision md userId uuid w.
Proof.
  intros H. unfold identify, UUIDToID, bind, get, ret. cbn. rewrite H. reflexivity.
Qed.

Lemma resolveGroup_asked md userId gid w w' :
  resolveGroup md userId w = (Val gid, w') ->
  (0 < gid)%N -> exists v vs, md !! "server_group_name" = Some (v :: vs).
Proof.
  unfold resolveGroup.
  destruct (md !! "server_group_name") as [[| v vs] |]; intros H Hpos.
  - discriminate.
  - eauto.
  - injection H as <- _. lia.
Qed.

Lemma prepare_inv md userId name gid w w1 :
  prepare md userId w = (Val (name, gid), w1) ->
  exists w', resolveGroup md userId w' = (Val gid, w1).
Proof.
  unfold prepare. unfold bind at 1.
  destruct (mdValue md "server_name" w) as [[given | e |] wa]; try discriminate.
  unfold bind at 1.
  destruct ((if isEmpty given then Generate else ret given) wa)
    as [[serverName | e |] wb]; try discriminate.
  unfold bind, ret.
  destruct (resolveGroup md userId wb) as [[g | e |] wc] eqn:Hres; try discriminate.
  intros H. injection H as <- <- <-. eauto.
Qed.

Lemma announce_spec md userId uuid name gid s w :
  ((0 < gid)%N -> exists v vs, md !! "server_group_name" = Some (v :: vs)) ->
  let out := announce md userId uuid name gid s w in
  fst out = Val (srv_ID s)
  /\ DB (snd out) = DB w
  /\ uuidToID (ServerShared (snd out)) !! uuid = Some (srv_ID s)
  /\ list_ (ServerShared (snd out)) !! srv_ID s = Some (InitServer s).
Proof.
  intros Hasked. cbn zeta. unfold announce, logPrintf, Update, bind, modify, ret.
  destruct (N.ltb_spec 0 gid) as [Hpos | Hzero].
  - destruct (Hasked Hpos) as (v & vs & Hmd). unfold mdValue. rewrite Hmd. cbn.
    repeat split; apply lookup_insert_eq.
  - cbn. repeat split; apply lookup_insert_eq.
Qed.

(** The transaction of [Check] by the answers of the engine to its
    statements. When one of them is refused, the transaction returns
    that failure and the tables are those from before. When none is,
    it returns the new server row, which is the last of its table, the
    membership row, if any, is the last of its own, and the statements
    sent are [Begin], the insertions and [Commit]. *)
Lemma Transaction_createRecords_schedule s userId gid w :
  let tx := Transaction (createRecords s userId gid) w in
  let t := tables (DB w) in
  let s' := mkServer (N.succ (last_server_id t)) (srv_UserID s)
                     (srv_UUID s) (srv_Name s) (srv_initialised s) in
  match firstFault (transactionLength gid) (faults (DB w)) with
  | Some e => fst tx = Val (inl e) /\ tables (DB (snd tx)) = t
  | None =>
      fst tx = Val (inr s')
      /\ servers (tables (DB (snd tx))) = (servers t ++ [s'])%list
      /\ server_group_servers (tables (DB (snd tx)))
         = (server_group_servers t ++ memberRows t userId gid s')%list
      /\ server_groups (tables (DB (snd tx))) = server_groups t
      /\ statements (DB (snd tx))
         = (Commit :: map InsertMember (memberRows t userId gid s')
              ++ InsertServer s' :: Begin :: statements (DB w))%list
  end.
Proof.
  cbn zeta. unfold memberRows, transactionLength.
  unfold Transaction, createRecords, CreateServer, CreateMember.
  unfold bind, send, get, ret, setTables, modify. cbn.
  generalize (faults (DB w)). intros fs.
  destruct (0 <? gid)%N;
    repeat (cbn;
            match goal with
            | |- context [head ?l] => is_var l; destruct l as [| [? |] ?]
            end);
    cbn; rewrite ?app_nil_r; repeat split; reflexivity.
Qed.

(** C3: for a first-contact UUID whose name and group have been
    prepared, the server row and, when a group was resolved, its
    membership row are written by one transaction, and the answers of
    the engine to the statements of that transaction ([Begin], the
    insertion of the server row, that of the membership row if there
    is one, [Commit]) decide between two outcomes. When the engine
    refuses one of them, the transaction fails with that failure: the
    tables are those from before the call, with neither row, [Check]
    returns an Unauthenticated error carrying the failure, the Identity
    Cache is unchanged, the UUID is still unmapped, and the same call
    made again takes the provisioning branch again. When the engine
    refuses none, the transaction commits: the server row is the last
    of its table, the membership row, when a group was resolved, the
    last of its own, both sent between [Begin] and [Commit]; [Check]
    returns the new identity, the UUID is mapped to it and the
    inventory holds the record. *)
Theorem provisioning_atomic (ctx : Ctx) (md : gmap string (list string))
        (secret uuid name : string) (userId gid : N) (w w1 : World) :
  metadata ctx = Some md ->
  carries md "client_secret" secret ->
  secret <> "" ->
  AgentSecretToUserId w !! secret = Some userId ->
  carries md "client_uuid" uuid ->
  (1 <= String.length uuid <= 64)%nat ->
  uuidToID (ServerShared w) !! uuid = None ->
  prepare md userId (unblocked (realIP ctx) w) = (Val (name, gid), w1) ->
  let t := tables (DB w) in
  let s' := mkServer (N.succ (last_server_id t)) userId uuid name false in
  let tx := Transaction (createRecords (mkServer 0 userId uuid name false) userId gid) w1 in
  let out := RPC.Check ctx w in
  match firstFault (transactionLength gid) (faults (DB w1)) with
  | Some e =>
      fst tx = Val (inl e)
      /\ out = (Failed (mkStatus Unauthenticated e), snd tx)
      /\ tables (DB (snd out)) = t
      /\ ServerShared (snd out) = ServerShared w
      /\ uuidToID (ServerShared (snd out)) !! uuid = None
      /\ RPC.Check ctx (snd out)
         = provision md userId uuid (unblocked (realIP ctx) (snd out))
  | None =>
      fst tx = Val (inr s')
      /\ fst out = Val (srv_ID s')
      /\ servers (tables (DB (snd out))) = (servers t ++ [s'])%list
      /\ server_group_servers (tables (DB (snd out)))
         = (server_group_servers t ++ memberRows t userId gid s')%list
      /\ server_groups (tables (DB (snd out))) = server_groups t
      /\ statements (DB (snd out))
         = (Commit :: map InsertMember (memberRows t userId gid s')
              ++ InsertServer s' :: Begin :: statements (DB w1))%list
      /\ uuidToID (ServerShared (snd out)) !! uuid = Some (srv_ID s')
      /\ list_ (ServerShared (snd out)) !! srv_ID s' = Some (InitServer s')
  end.
Proof.
  intros Hmd Hsec Hne Hsome Huuid Hlen Hfresh Hprep. cbn zeta.
  set (w0 := unblocked (realIP ctx) w) in *.
  set (s := mkServer 0 userId uuid name false).
  assert (Hout : RPC.Check ctx w
            = match Transaction (createRecords s userId gid) w1 with
              | (Val (inl e), w2) => (Failed (mkStatus Unauthenticated e), w2)
              | (Val (inr s'), w2) => announce md userId uuid name gid s' w2
              | (Failed e, w2) => (Failed e, w2)
              | (Panic, w2) => (Panic, w2)
              end).
  { rewrite (Check_authenticated ctx md w secret userId uuid Hmd Hsec Hne Hsome Huuid).
    rewrite (badUUID_false uuid Hlen). fold w0.
    rewrite identify_unmapped by exact Hfresh.
    unfold provision. unfold bind at 1. rewrite Hprep. cbn [fst snd].
    unfold bind at 1. fold s.
    destruct (Transaction (createRecords s userId gid) w1) as [[[e | s'] | e |] w2];
      reflexivity. }
  assert (Ht1 : tables (DB w1) = tables (DB w)).
  { pose proof (tables_prepare md userId w0) as H. rewrite Hprep in H. exact H. }
  assert (Hss1 : ServerShared w1 = ServerShared w).
  { pose proof (keeps_prepare ServerShared md userId
                  (fun _ _ => eq_refl) (fun _ _ => eq_refl) w0) as H.
    rewrite Hprep in H. exact H. }
  assert (Hsec1 : AgentSecretToUserId w1 = AgentSecretToUserId w).
  { pose proof (keeps_prepare AgentSecretToUserId md userId
                  (fun _ _ => eq_refl) (fun _ _ => eq_refl) w0) as H.
    rewrite Hprep in H. exact H. }
  pose proof (keeps_Transaction ServerShared (createRecords s userId gid)
                (fun _ _ => eq_refl)
                (keeps_createRecords ServerShared s userId gid (fun _ _ => eq_refl))
                w1) as Hss2.
  pose proof (keeps_Transaction AgentSecretToUserId (createRecords s userId gid)
                (fun _ _ => eq_refl)
                (keeps_createRecords AgentSecretToUserId s userId gid
                   (fun _ _ => eq_refl)) w1) as Hsec2.
  pose proof (Transaction_createRecords_schedule s userId gid w1) as Htx.
  cbn zeta in Htx. rewrite Ht1 in Htx. cbn [s srv_UserID srv_UUID srv_Name srv_initialised] in Htx.
  destruct (firstFault (transactionLength gid) (faults (DB w1))) as [e |].
  - destruct Htx as [Hr Htab].
    destruct (Transaction (createRecords s userId gid) w1) as [r w2].
    cbn [fst snd] in *. subst r. rewrite Hout. cbn [fst snd].
    assert (Hfresh2 : uuidToID (ServerShared w2) !! uuid = None)
      by (rewrite Hss2, Hss1; exact Hfresh).
    repeat split.
    + exact Htab.
    + congruence.
    + exact Hfresh2.
    + rewrite (Check_authenticated ctx md w2 secret userId uuid Hmd Hsec Hne
                 ltac:(rewrite Hsec2, Hsec1; exact Hsome) Huuid).
      rewrite (badUUID_false uuid Hlen).
      apply identify_unmapped. exact Hfresh2.
  - destruct Htx as (Hr & Hsrv & Hmem & Hgrp & Hstmts).
    destruct (Transaction (createRecords s userId gid) w1) as [r w2].
    cbn [fst snd] in *. subst r. rewrite Hout.
    destruct (prepare_inv md userId name gid w0 w1 Hprep) as [w' Hres].
    destruct (announce_spec md userId uuid name gid
                (mkServer (N.succ (last_server_id (tables (DB w)))) userId uuid name false)
                w2 (resolveGroup_asked md userId gid w' w1 Hres))
      as (Hval & Hdb & Hmap & Hlist).
    rewrite Hdb, Hsrv, Hmem, Hgrp, Hstmts.
    repeat split; assumption.
Qed.

End Provisioning.

(** *** The theorems on agent authentication at concrete calls *)

Section AuthExamples.
Import GoStrings RPC Samples.

Lemma fast_path_frame_witness :
  fst (RPC.Check (agentCall "s3cret" "known-agent" "") (fleetWorld [])) = Val 7%N
  /\ DB (snd (RPC.Check (agentCall "s3cret" "known-agent" "") (fleetWorld [])))
     = DB (fleetWorld []).
Proof.
  pose proof (fast_path_frame (agentCall "s3cret" "known-agent" "")
                (agentMD "s3cret" "known-agent" "") "s3cret" "known-agent" 42 7
                (fleetWorld []) eq_refl
                ltac:(intros w; vm_compute; reflexivity)
                ltac:(discriminate) eq_refl
                ltac:(intros w; vm_compute; reflexivity)
                ltac:(cbn; lia) eq_refl) as (Hval & _ & Hdb & _).
  split; assumption.
Defined.

Lemma uuid_length_bounds_witness :
  fst (RPC.Check (agentCall "s3cret" (pad 0) "") (fleetWorld []))
  = Failed (mkStatus Unauthenticated msgBadUUID)
  /\ fst (RPC.Check (agentCall "s3cret" (pad 65) "") (fleetWorld []))
     = Failed (mkStatus Unauthenticated msgBadUUID)
  /\ fst (RPC.Check (agentCall "s3cret" (pad 1) "") (fleetWorld [])) = Val 8%N
  /\ fst (RPC.Check (agentCall "s3cret" (pad 64) "") (fleetWorld [])) = Val 8%N.
Proof.
  assert (Hat : forall uuid,
             carries (agentMD "s3cret" uuid "") "client_uuid" uuid ->
             let out := RPC.Check (agentCall "s3cret" uuid "") (fleetWorld []) in
             ((String.length uuid = 0 \/ 64 < String.length uuid)%nat ->
              out = (Failed (mkStatus Unauthenticated msgBadUUID),
                     unblocked "203.0.113.9" (fleetWorld [])))
             /\ ((1 <= String.length uuid <= 64)%nat ->
                 out = identify (agentMD "s3cret" uuid "") 42 uuid
                                (unblocked "203.0.113.9" (fleetWorld [])))).
  { intros uuid Hc.
    apply (uuid_length_bounds (agentCall "s3cret" uuid "") (agentMD "s3cret" uuid "")
             "s3cret" uuid 42 (fleetWorld [])).
    - reflexivity.
    - intros w. unfold mdValue, agentMD. rewrite lookup_insert_eq. reflexivity.
    - discriminate.
    - reflexivity.
    - exact Hc. }
  split; [| split; [| split]].
  - rewrite (proj1 (Hat (pad 0) ltac:(intros w; vm_compute; reflexivity)));
      [reflexivity | left; reflexivity].
  - rewrite (proj1 (Hat (pad 65) ltac:(intros w; vm_compute; reflexivity)));
      [reflexivity | right; cbn; lia].
  - rewrite (proj2 (Hat (pad 1) ltac:(intros w; vm_compute; reflexivity)));
      [vm_compute; reflexivity | cbn; lia].
  - rewrite (proj2 (Hat (pad 64) ltac:(intros w; vm_compute; reflexivity)));
      [vm_compute; reflexivity | cbn; lia].
Defined.

Lemma metadata_trimmed_witness :
  fst (RPC.Check (agentCall "   " "new-agent" "") (fleetWorld []))
  = Failed (mkStatus Unauthenticated msgAuthFailed)
  /\ fst (RPC.Check (agentCall "s3cret" (String.append (String " " (pad 64)) "  ") "")
                    (fleetWorld []))
     = Val 8%N.
Proof.
  split.
  - destruct (metadata_trimmed (agentCall "   " "new-agent" "")
                (agentMD "   " "new-agent" "") (fleetWorld []) eq_refl)
      as (_ & Hblank & _).
    destruct (Hblank "   " [] eq_refl) as [Hout _].
    + repeat (apply blank_ascii; [reflexivity |]). apply blank_empty.
    + rewrite Hout. reflexivity.
  - destruct (metadata_trimmed
                (agentCall "s3cret" (String.append (String " " (pad 64)) "  ") "")
                (agentMD "s3cret" (String.append (String " " (pad 64)) "  ") "")
                (fleetWorld []) eq_refl)
      as (_ & _ & Huuid).
    destruct (Huuid "s3cret" 42%N (String.append (String " " (pad 64)) "  ") [])
      as (_ & _ & Hgood).
    + intros w. vm_compute. reflexivity.
    + discriminate.
    + reflexivity.
    + reflexivity.
    + rewrite Hgood; [vm_compute; reflexivity | vm_compute; lia].
Defined.


Lemma provisioning_atomic_witness :
  (fst (RPC.Check newAgent (fleetWorld [])) = Val 8%N
   /\ servers (tables (DB (snd (RPC.Check newAgent (fleetWorld [])))))
      = [mkServer 7 42 "known-agent" "db-1" false;
         mkServer 8 42 "new-agent" "brave-otter" false]
   /\ server_group_servers (tables (DB (snd (RPC.Check newAgent (fleetWorld [])))))
      = [mkServerGroupServer 1 42 5 8])
  /\ (fst (RPC.Check newAgent failingWorld) = Failed (mkStatus Unauthenticated "disk full")
      /\ tables (DB (snd (RPC.Check newAgent failingWorld))) = tables (DB failingWorld)).
Proof.
  split.
  - pose proof (provisioning_atomic newAgent newAgentMD "s3cret" "new-agent" "brave-otter"
                  42 5 (fleetWorld []) preparedWell
                  eq_refl
                  ltac:(intros w; vm_compute; reflexivity)
                  ltac:(discriminate) eq_refl
                  ltac:(intros w; vm_compute; reflexivity)
                  ltac:(cbn; lia) eq_refl
                  ltac:(vm_compute; reflexivity))
      as H.
    cbn zeta in H.
    change (firstFault (transactionLength 5) (faults (DB preparedWell)))
      with (@None string) in H.
    destruct H as (_ & Hval & Hsrv & Hmem & _).
    rewrite Hval, Hsrv, Hmem. repeat split.
  - pose proof (provisioning_atomic newAgent newAgentMD "s3cret" "new-agent" "brave-otter"
                  42 5 failingWorld prepared
                  eq_refl
                  ltac:(intros w; vm_compute; reflexivity)
                  ltac:(discriminate) eq_refl
                  ltac:(intros w; vm_compute; reflexivity)
                  ltac:(cbn; lia) eq_refl
                  ltac:(vm_compute; reflexivity))
      as H.
    cbn zeta in H.
    change (firstFault (transactionLength 5) (faults (DB prepared)))
      with (Some "disk full") in H.
    destruct H as (_ & Hout & Htab & _).
    split; [rewrite Hout; reflexivity | exact Htab].
Defined.

End AuthExamples.

(** *** Bytes and characters of the UUID *)

Section UUIDCharacters.
Import GoStrings RPC Samples.

Lemma DecodeRuneInString_one_byte c r :
  (byteVal c <? 128)%N = true ->
  Origin.DecodeRuneInString (String c r) = (Z.of_N (byteVal c), 1%nat).
Proof.
  intros H. unfold Origin.DecodeRuneInString, Origin.first. rewrite H. reflexivity.
Qed.

(** A string of ASCII bytes has as many characters as bytes. *)
Lemma RuneCountInString_ascii s :
  isASCII s = true -> Origin.RuneCountInString s = String.length s.
Proof.
  unfold Origin.RuneCountInString. induction s as [| c r IH]; [reflexivity |].
  cbn [isASCII]. intros H. apply andb_true_iff in H as [Hc Hr].
  cbn [String.length Origin.runeCount].
  rewrite (DecodeRuneInString_one_byte c r Hc). cbn [snd Origin.sliceFrom].
  rewrite (IH Hr). reflexivity.
Qed.

(** C6, where characters and bytes part: a UUID of 22 characters that
    take three bytes each, 66 bytes in all, is within the 1 to 64
    characters that the comment and the message of [Check] ask for, and
    [Check] refuses it with that very message, while it lets the UUID
    of 21 such characters, 63 bytes, through to provisioning. *)
Theorem uuid_characters_miscounted :
  Origin.RuneCountInString (wide 22) = 22%nat
  /\ String.length (wide 22) = 66%nat
  /\ TrimSpace (wide 22) = wide 22
  /\ RPC.Check (agentCall "s3cret" (wide 22) "") (fleetWorld [])
     = (Failed (mkStatus Unauthenticated msgBadUUID),
        unblocked "203.0.113.9" (fleetWorld []))
  /\ Origin.RuneCountInString (wide 21) = 21%nat
  /\ String.length (wide 21) = 63%nat
  /\ fst (RPC.Check (agentCall "s3cret" (wide 21) "") (fleetWorld [])) = Val 8%N.
Proof. repeat split; vm_compute; reflexivity. Qed.

End UUIDCharacters.
(** ** The broadcaster *)

Section Broadcasting.
Import WS.
Context {Host HostState Addrs Bytes : Type}.
Variable Filter : Host -> Host.
Variable Join : Addrs -> string.
Variable Marshal : @StreamServerData Host HostState -> string + Bytes.

Abbreviation System := (@System Host HostState Addrs Bytes).
Abbreviation step := (step Filter Join Marshal).
Abbreviation run := (run Filter Join Marshal).
Abbreviation serverStats := (serverStats Filter Join Marshal).
Abbreviation snapshot := (snapshot Filter Join).
Abbreviation wf := (wf Filter Join Marshal).
Abbreviation wf_waiting := (wf_waiting Filter Join Marshal).
Abbreviation wf_frames := (wf_frames Filter Join Marshal).
Abbreviation wf_count := (wf_count Filter Join Marshal).
Abbreviation wf_history := (wf_history Filter Join Marshal).


Lemma tally_app p h e :
  tally p (h ++ [e]) = (tally p h + (if p e then 1 else 0))%nat.
Proof. induction h as [| x h IH]; cbn; [lia | rewrite IH; lia]. Qed.

Lemma statsKey_inj a b : statsKey a = statsKey b -> a = b.
Proof. destruct a, b; intros H; try reflexivity; cbv in H; discriminate. Qed.

Lemma resume_lookup v ws (m : gmap string (@Conn Bytes)) id :
  resume v ws m !! id
  = if decide (id ∈ ws) then setPC (Returned v) <$> m !! id else m !! id.
Proof.
  unfold resume. induction ws as [| x ws IH]; cbn [foldr].
  - destruct (decide (id ∈ [])) as [Hin | _]; [inversion Hin | reflexivity].
  - rewrite lookup_alter. destruct (decide (x = id)) as [-> | Hne].
    + rewrite IH. destruct (decide (id ∈ id :: ws)) as [_ | Hn];
        [| exfalso; apply Hn; left].
      destruct (decide (id ∈ ws)); [| reflexivity].
      destruct (m !! id); reflexivity.
    + rewrite IH.
      destruct (decide (id ∈ ws)) as [Hin | Hnin];
        destruct (decide (id ∈ x :: ws)) as [Hin' | Hnin']; try reflexivity.
      * exfalso. apply Hnin'. right. exact Hin.
      * exfalso. apply elem_of_cons in Hin' as [-> | Hin']; [congruence | auto].
Qed.

Lemma wf_initial : wf initial.
Proof.
  constructor; unfold initial; cbn; intros;
    try (rewrite lookup_empty in *; discriminate).
  reflexivity.
Qed.

Lemma afterStat_isMember v t p (c : @Conn Bytes) :
  isMember (afterStat v t p c) = isMember c.
Proof.
  unfold afterStat. destruct v; [reflexivity |].
  destruct (negb t); [reflexivity |].
  destruct (_ =? 0)%nat; [destruct (negb p) |]; reflexivity.
Qed.

Lemma afterStat_pc v t p (c : @Conn Bytes) :
  pc (afterStat v t p c) = AtCall \/ pc (afterStat v t p c) = Closed.
Proof.
  unfold afterStat. destruct v; [left; reflexivity |].
  destruct (negb t); [right; reflexivity |].
  destruct (_ =? 0)%nat; [destruct (negb p) |]; cbn; auto.
Qed.

Lemma afterStat_sent v t p (c : @Conn Bytes) payload :
  TextMessage payload ∈ sent (afterStat v t p c) ->
  TextMessage payload ∈ sent c \/ v = inr payload.
Proof.
  unfold afterStat. destruct v as [e | stat]; [cbn; auto |].
  destruct (negb t); [cbn; auto |].
  destruct (_ =? 0)%nat; [destruct (negb p) |]; cbn;
    rewrite ?elem_of_app, ?list_elem_of_singleton; intros H;
    repeat match goal with H : _ \/ _ |- _ => destruct H as [H | H] end;
    auto; try discriminate; injection H as ->; auto.
Qed.

Lemma texts_app (l1 l2 : list (@Frame Bytes)) :
  texts (l1 ++ l2) = (texts l1 + texts l2)%nat.
Proof.
  induction l1 as [| [p |] l1 IH]; cbn; [reflexivity | rewrite IH; reflexivity | exact IH].
Qed.

Lemma afterStat_count v t p (c : @Conn Bytes) :
  count c = texts (sent c) ->
  count (afterStat v t p c) = texts (sent (afterStat v t p c)).
Proof.
  intros H. unfold afterStat. destruct v; [exact H |].
  destruct (negb t); [exact H |].
  destruct (_ =? 0)%nat; [destruct (negb p) |]; cbn;
    rewrite ?texts_app; cbn; lia.
Qed.

Lemma wf_Connect s s' id member :
  wf s -> step (Connect id member) s = Some s' -> wf s'.
Proof.
  intros [Hc Hv Hw Hb Hr Hf Hn Hh]. cbn.
  destruct (conns s !! id) eqn:Hfresh; [discriminate |].
  intros H. injection H as <-.
  constructor; cbn [requestGroup conns history].
  - exact Hc.
  - exact Hv.
  - intros k cl id0 Hk Hin. destruct (Hw k cl id0 Hk Hin) as (c & Hc0 & Hpc & Hkey).
    exists c. rewrite lookup_insert_ne by congruence. auto.
  - intros id0 c k. rewrite lookup_insert.
    destruct (decide (id = id0)) as [-> | Hne]; [| apply Hb].
    intros H. injection H as <-. discriminate.
  - intros id0 c v. rewrite lookup_insert.
    destruct (decide (id = id0)) as [-> | Hne]; [| apply Hr].
    intros H. injection H as <-. discriminate.
  - intros id0 c payload. rewrite lookup_insert.
    destruct (decide (id = id0)) as [-> | Hne]; [| apply Hf].
    intros H. injection H as <-. cbn. intros Hin. inversion Hin.
  - intros id0 c. rewrite lookup_insert.
    destruct (decide (id = id0)) as [-> | Hne]; [| apply Hn].
    intros H. injection H as <-. reflexivity.
  - exact Hh.
Qed.

Lemma wf_Send s s' id textOk pingOk :
  wf s -> step (Send id textOk pingOk) s = Some s' -> wf s'.
Proof.
  intros [Hc Hv Hw Hb Hr Hf Hn Hh]. cbn.
  destruct (conns s !! id) as [c |] eqn:Hid; [| discriminate].
  destruct (pc c) as [| | v |] eqn:Hpc; try discriminate.
  intros H. injection H as <-.
  constructor; cbn [requestGroup conns history].
  - exact Hc.
  - exact Hv.
  - intros k cl id0 Hk Hin. destruct (Hw k cl id0 Hk Hin) as (c0 & Hc0 & Hpc0 & Hkey).
    exists c0. rewrite lookup_insert_ne by congruence. auto.
  - intros id0 c0 k. rewrite lookup_insert.
    destruct (decide (id = id0)) as [-> | Hne]; [| apply Hb].
    intros H. injection H as <-.
    destruct (afterStat_pc v textOk pingOk c) as [-> | ->]; discriminate.
  - intros id0 c0 v0. rewrite lookup_insert.
    destruct (decide (id = id0)) as [-> | Hne]; [| apply Hr].
    intros H. injection H as <-.
    destruct (afterStat_pc v textOk pingOk c) as [-> | ->]; discriminate.
  - intros id0 c0 payload. rewrite lookup_insert.
    destruct (decide (id = id0)) as [-> | Hne]; [| apply Hf].
    intros H. injection H as <-. rewrite afterStat_isMember.
    intros Hin. apply afterStat_sent in Hin as [Hin | ->].
    + apply (Hf id0 c payload Hid Hin).
    + destruct (Hr id0 c _ Hid Hpc) as (b & f & Heq). eauto.
  - intros id0 c0. rewrite lookup_insert.
    destruct (decide (id = id0)) as [-> | Hne]; [| apply Hn].
    intros H. injection H as <-. apply afterStat_count, (Hn id0 c Hid).
  - exact Hh.
Qed.

Lemma wf_Run s s' key f :
  wf s -> step (Run key f) s = Some s' -> wf s'.
Proof.
  intros [Hc Hv Hw Hb Hr Hf Hn Hh]. cbn.
  destruct (requestGroup s !! key) as [cl |] eqn:Hkey; [| discriminate].
  destruct (val cl) eqn:Hval; [discriminate |].
  intros H. injection H as <-.
  constructor; cbn [requestGroup conns history].
  - intros k cl0. rewrite lookup_insert.
    destruct (decide (key = k)) as [-> | Hne]; [| apply Hc].
    intros H. injection H as <-. cbn. apply (Hc k cl Hkey).
  - intros k cl0 v. rewrite lookup_insert.
    destruct (decide (key = k)) as [-> | Hne]; [| apply Hv].
    intros H. injection H as <-. cbn. intros H. injection H as <-. eauto.
  - intros k cl0 id0. rewrite lookup_insert.
    destruct (decide (key = k)) as [-> | Hne]; [| apply Hw].
    intros H. injection H as <-. cbn. apply (Hw k cl id0 Hkey).
  - intros id0 c k Hid Hpc. destruct (Hb id0 c k Hid Hpc) as (cl0 & Hk & Hin).
    rewrite lookup_insert. destruct (decide (key = k)) as [-> | Hne]; [| eauto].
    rewrite Hkey in Hk. injection Hk as <-. eexists. split; [reflexivity | exact Hin].
  - exact Hr.
  - exact Hf.
  - exact Hn.
  - intros k. rewrite Hh, lookup_insert.
    destruct (decide (key = k)) as [-> | Hne]; [rewrite Hkey |]; reflexivity.
Qed.

Lemma wf_Call s s' id :
  wf s -> step (Call id) s = Some s' -> wf s'.
Proof.
  intros [Hc Hv Hw Hb Hr Hf Hn Hh]. cbn.
  destruct (conns s !! id) as [c |] eqn:Hid; [| discriminate].
  destruct (pc c) eqn:Hpc; try discriminate.
  set (key := statsKey (isMember c)).
  assert (Hother : forall k cl id0,
             requestGroup s !! k = Some cl -> id0 ∈ waiting cl -> id <> id0).
  { intros k cl id0 Hk Hin ->.
    destruct (Hw k cl id0 Hk Hin) as (c0 & Hc0 & Hpc0 & _). congruence. }
  destruct (requestGroup s !! key) as [cl |] eqn:Hkey;
    intros H; injection H as <-;
    constructor; cbn [requestGroup conns history].
  - intros k cl0. rewrite lookup_insert.
    destruct (decide (key = k)) as [<- | Hne]; [| apply Hc].
    intros H. injection H as <-. cbn. apply (Hc key cl Hkey).
  - intros k cl0 v. rewrite lookup_insert.
    destruct (decide (key = k)) as [<- | Hne]; [| apply Hv].
    intros H. injection H as <-. cbn. apply (Hv key cl v Hkey).
  - intros k cl0 id0. rewrite lookup_insert.
    destruct (decide (key = k)) as [<- | Hne].
    + intros H. injection H as <-. cbn. rewrite elem_of_app, list_elem_of_singleton.
      intros [Hin | ->].
      * destruct (Hw key cl id0 Hkey Hin) as (c0 & Hc0 & Hpc0 & Hk0).
        exists c0. rewrite lookup_insert_ne by (eapply Hother; eauto). auto.
      * exists (setPC (InDo key) c). rewrite lookup_insert_eq. auto.
    + intros Hk Hin. destruct (Hw k cl0 id0 Hk Hin) as (c0 & Hc0 & Hpc0 & Hk0).
      exists c0. rewrite lookup_insert_ne by (eapply Hother; eauto). auto.
  - intros id0 c0 k. rewrite lookup_insert.
    destruct (decide (id = id0)) as [<- | Hne].
    + intros H. injection H as <-. cbn. intros H. injection H as <-.
      eexists. rewrite lookup_insert_eq. split; [reflexivity |].
      cbn. apply elem_of_app. right. apply list_elem_of_singleton. reflexivity.
    + intros Hid0 Hpc0. destruct (Hb id0 c0 k Hid0 Hpc0) as (cl0 & Hk & Hin).
      rewrite lookup_insert. destruct (decide (key = k)) as [<- | Hnk]; [| eauto].
      rewrite Hkey in Hk. injection Hk as <-.
      eexists. split; [reflexivity |]. cbn. apply elem_of_app. auto.
  - intros id0 c0 v. rewrite lookup_insert.
    destruct (decide (id = id0)) as [<- | Hne]; [| apply Hr].
    intros H. injection H as <-. discriminate.
  - intros id0 c0 payload. rewrite lookup_insert.
    destruct (decide (id = id0)) as [<- | Hne]; [| apply Hf].
    intros H. injection H as <-. cbn. apply (Hf id c payload Hid).
  - intros id0 c0. rewrite lookup_insert.
    destruct (decide (id = id0)) as [<- | Hne]; [| apply Hn].
    intros H. injection H as <-. cbn. apply (Hn id c Hid).
  - intros k. rewrite Hh, lookup_insert.
    destruct (decide (key = k)) as [<- | Hne]; [rewrite Hkey |]; reflexivity.
  - intros k cl0. rewrite lookup_insert.
    destruct (decide (key = k)) as [<- | Hne]; [| apply Hc].
    intros H. injection H as <-. cbn. eauto.
  - intros k cl0 v. rewrite lookup_insert.
    destruct (decide (key = k)) as [<- | Hne]; [| apply Hv].
    intros H. injection H as <-. discriminate.
  - intros k cl0 id0. rewrite lookup_insert.
    destruct (decide (key = k)) as [<- | Hne].
    + intros H. injection H as <-. cbn. rewrite list_elem_of_singleton. intros ->.
      exists (setPC (InDo key) c). rewrite lookup_insert_eq. auto.
    + intros Hk Hin. destruct (Hw k cl0 id0 Hk Hin) as (c0 & Hc0 & Hpc0 & Hk0).
      exists c0. rewrite lookup_insert_ne by (eapply Hother; eauto). auto.
  - intros id0 c0 k. rewrite lookup_insert.
    destruct (decide (id = id0)) as [<- | Hne].
    + intros H. injection H as <-. cbn. intros H. injection H as <-.
      eexists. rewrite lookup_insert_eq. split; [reflexivity |].
      cbn. apply list_elem_of_singleton. reflexivity.
    + intros Hid0 Hpc0. destruct (Hb id0 c0 k Hid0 Hpc0) as (cl0 & Hk & Hin).
      rewrite lookup_insert. destruct (decide (key = k)) as [<- | Hnk]; [| eauto].
      congruence.
  - intros id0 c0 v. rewrite lookup_insert.
    destruct (decide (id = id0)) as [<- | Hne]; [| apply Hr].
    intros H. injection H as <-. discriminate.
  - intros id0 c0 payload. rewrite lookup_insert.
    destruct (decide (id = id0)) as [<- | Hne]; [| apply Hf].
    intros H. injection H as <-. cbn. apply (Hf id c payload Hid).
  - intros id0 c0. rewrite lookup_insert.
    destruct (decide (id = id0)) as [<- | Hne]; [| apply Hn].
    intros H. injection H as <-. cbn. apply (Hn id c Hid).
  - intros k. rewrite !tally_app, Hh, lookup_insert. cbn [isStart isFinish].
    destruct (decide (key = k)) as [<- | Hne].
    + rewrite Hkey, String.eqb_refl. lia.
    + destruct (String.eqb_spec key k); [congruence | lia].
Qed.

Lemma wf_Done s s' key :
  wf s -> step (Done key) s = Some s' -> wf s'.
Proof.
  intros [Hc Hv Hw Hb Hr Hf Hn Hh]. cbn.
  destruct (requestGroup s !! key) as [cl |] eqn:Hkey; [| discriminate].
  destruct (val cl) as [v |] eqn:Hval; [| discriminate].
  intros H. injection H as <-.
  constructor; cbn [requestGroup conns history].
  - intros k cl0. rewrite lookup_delete.
    destruct (decide (key = k)); [discriminate | apply Hc].
  - intros k cl0 v0. rewrite lookup_delete.
    destruct (decide (key = k)); [discriminate | apply Hv].
  - intros k cl0 id0. rewrite lookup_delete.
    destruct (decide (key = k)) as [| Hne]; [discriminate |].
    intros Hk Hin. destruct (Hw k cl0 id0 Hk Hin) as (c0 & Hc0 & Hpc0 & Hk0).
    exists c0. rewrite resume_lookup.
    destruct (decide (id0 ∈ waiting cl)) as [Hin' | _]; [| auto].
    destruct (Hw key cl id0 Hkey Hin') as (c1 & Hc1 & Hpc1 & _). congruence.
  - intros id0 c0 k. rewrite resume_lookup.
    destruct (decide (id0 ∈ waiting cl)) as [Hin | Hnin].
    + destruct (conns s !! id0); [| discriminate].
      intros H. injection H as <-. discriminate.
    + intros Hid0 Hpc0. destruct (Hb id0 c0 k Hid0 Hpc0) as (cl0 & Hk & Hin).
      exists cl0. rewrite lookup_delete.
      destruct (decide (key = k)) as [<- | Hne]; [congruence | auto].
  - intros id0 c0 v0. rewrite resume_lookup.
    destruct (decide (id0 ∈ waiting cl)) as [Hin | Hnin]; [| apply Hr].
    destruct (Hw key cl id0 Hkey Hin) as (c1 & Hc1 & Hpc1 & Hk1).
    rewrite Hc1. intros H. injection H as <-. cbn. intros H. injection H as <-.
    destruct (Hc key cl Hkey) as (a & b & Ha & Hfn).
    destruct (Hv key cl v Hkey Hval) as [f ->].
    rewrite Ha in Hk1. apply statsKey_inj in Hk1 as ->.
    exists b, f. rewrite Hfn. reflexivity.
  - intros id0 c0 payload. rewrite resume_lookup.
    destruct (decide (id0 ∈ waiting cl)) as [Hin | Hnin]; [| apply Hf].
    destruct (conns s !! id0) as [c1 |] eqn:Hc1; [| discriminate].
    intros H. injection H as <-. cbn. apply (Hf id0 c1 payload Hc1).
  - intros id0 c0. rewrite resume_lookup.
    destruct (decide (id0 ∈ waiting cl)) as [Hin | Hnin]; [| apply Hn].
    destruct (conns s !! id0) as [c1 |] eqn:Hc1; [| discriminate].
    intros H. injection H as <-. cbn. apply (Hn id0 c1 Hc1).
  - intros k. rewrite !tally_app, Hh, lookup_delete. cbn [isStart isFinish].
    destruct (decide (key = k)) as [<- | Hne].
    + rewrite Hkey, String.eqb_refl. lia.
    + destruct (String.eqb_spec key k); [congruence | lia].
Qed.

Lemma wf_step s s' l : wf s -> step l s = Some s' -> wf s'.
Proof.
  destruct l; eauto using wf_Connect, wf_Call, wf_Run, wf_Done, wf_Send.
Qed.

Lemma wf_run ls : forall s s', wf s -> run ls s = Some s' -> wf s'.
Proof.
  induction ls as [| l ls IH]; cbn; intros s s' Hwf Hrun.
  - injection Hrun as <-. exact Hwf.
  - destruct (step l s) as [s1 |] eqn:Hstep; [| discriminate].
    apply (IH s1 s'); [eapply wf_step; eauto | exact Hrun].
Qed.

Lemma step_isMember l s s' id a :
  step l s = Some s' ->
  isMember <$> conns s !! id = Some a ->
  isMember <$> conns s' !! id = Some a.
Proof.
  destruct l as [id' member | id' | key f | key | id' t p]; cbn.
  - destruct (conns s !! id') eqn:Hfresh; [discriminate |].
    intros H Hm. injection H as <-. cbn.
    rewrite lookup_insert_ne; [exact Hm |]. intros ->. rewrite Hfresh in Hm. discriminate.
  - destruct (conns s !! id') as [c |] eqn:Hid; [| discriminate].
    destruct (pc c); try discriminate.
    destruct (requestGroup s !! statsKey (isMember c));
      intros H Hm; injection H as <-; cbn; rewrite lookup_insert;
      (destruct (decide (id' = id)) as [-> | Hne]; [| exact Hm]);
      rewrite Hid in Hm; exact Hm.
  - destruct (requestGroup s !! key) as [cl |]; [| discriminate].
    destruct (val cl); [discriminate |].
    intros H Hm. injection H as <-. exact Hm.
  - destruct (requestGroup s !! key) as [cl |]; [| discriminate].
    destruct (val cl); [| discriminate].
    intros H Hm. injection H as <-. cbn. rewrite resume_lookup.
    destruct (decide (id ∈ waiting cl)); [| exact Hm].
    destruct (conns s !! id); [exact Hm | discriminate].
  - destruct (conns s !! id') as [c |] eqn:Hid; [| discriminate].
    destruct (pc c); try discriminate.
    intros H Hm. injection H as <-. cbn. rewrite lookup_insert.
    destruct (decide (id' = id)) as [-> | Hne]; [| exact Hm].
    rewrite Hid in Hm. cbn in *. rewrite afterStat_isMember. exact Hm.
Qed.

Lemma step_stays l s s' k cl id :
  step l s = Some s' -> l <> Done k ->
  requestGroup s !! k = Some cl -> id ∈ waiting cl ->
  exists cl', requestGroup s' !! k = Some cl' /\ id ∈ waiting cl'.
Proof.
  destruct l as [id' member | id' | key f | key | id' t p]; cbn; intros Hstep Hl Hk Hin.
  - destruct (conns s !! id'); [discriminate |]. injection Hstep as <-. eauto.
  - destruct (conns s !! id') as [c |]; [| discriminate].
    destruct (pc c); try discriminate.
    destruct (requestGroup s !! statsKey (isMember c)) as [cl0 |] eqn:Hkey;
      injection Hstep as <-; cbn; rewrite lookup_insert;
      destruct (decide (statsKey (isMember c) = k)) as [<- | Hne]; eauto.
    + rewrite Hkey in Hk. injection Hk as <-.
      eexists. split; [reflexivity |]. cbn. apply elem_of_app. auto.
    + congruence.
  - destruct (requestGroup s !! key) as [cl0 |] eqn:Hkey; [| discriminate].
    destruct (val cl0); [discriminate |].
    injection Hstep as <-. cbn. rewrite lookup_insert.
    destruct (decide (key = k)) as [<- | Hne]; eauto.
    rewrite Hkey in Hk. injection Hk as <-. eauto.
  - destruct (requestGroup s !! key) as [cl0 |]; [| discriminate].
    destruct (val cl0); [| discriminate].
    injection Hstep as <-. cbn. rewrite lookup_delete.
    destruct (decide (key = k)) as [<- | Hne]; [congruence | eauto].
  - destruct (conns s !! id') as [c |]; [| discriminate].
    destruct (pc c); try discriminate.
    injection Hstep as <-. eauto.
Qed.

Lemma run_stays ls : forall s s' k cl id,
  run ls s = Some s' -> ~ In (Done k) ls ->
  requestGroup s !! k = Some cl -> id ∈ waiting cl ->
  exists cl', requestGroup s' !! k = Some cl' /\ id ∈ waiting cl'.
Proof.
  induction ls as [| l ls IH]; cbn; intros s s' k cl id Hrun Hno Hk Hin.
  - injection Hrun as <-. eauto.
  - destruct (step l s) as [s1 |] eqn:Hstep; [| discriminate].
    destruct (step_stays l s s1 k cl id Hstep) as (cl1 & Hk1 & Hin1); auto.
    eapply IH; eauto.
Qed.

Lemma step_Call_waits s s' id a :
  step (Call id) s = Some s' ->
  isMember <$> conns s !! id = Some a ->
  exists cl, requestGroup s' !! statsKey a = Some cl /\ id ∈ waiting cl.
Proof.
  cbn. destruct (conns s !! id) as [c |]; [| discriminate].
  destruct (pc c); try discriminate. cbn. intros Hstep Hm. injection Hm as <-.
  destruct (requestGroup s !! statsKey (isMember c)) as [cl0 |];
    injection Hstep as <-; cbn; rewrite lookup_insert_eq;
    eexists; (split; [reflexivity |]); cbn.
  - apply elem_of_app. right. apply list_elem_of_singleton. reflexivity.
  - apply list_elem_of_singleton. reflexivity.
Qed.

Lemma run_Call_waits ls : forall s s' id a,
  run ls s = Some s' -> ~ In (Done (statsKey a)) ls ->
  In (Call id) ls -> isMember <$> conns s !! id = Some a ->
  exists cl, requestGroup s' !! statsKey a = Some cl /\ id ∈ waiting cl.
Proof.
  induction ls as [| l ls IH]; cbn; intros s s' id a Hrun Hno Hcall Hm; [contradiction |].
  destruct (step l s) as [s1 |] eqn:Hstep; [| discriminate].
  destruct Hcall as [-> | Hcall].
  - destruct (step_Call_waits s s1 id a Hstep Hm) as (cl & Hk & Hin).
    eapply run_stays; eauto.
  - eapply IH; eauto. eapply step_isMember; eauto.
Qed.

Lemma step_finished l s s' k :
  step l s = Some s' -> l <> Done k ->
  tally (isFinish k) (history s') = tally (isFinish k) (history s).
Proof.
  destruct l as [id' member | id' | key f | key | id' t p]; cbn; intros Hstep Hl.
  - destruct (conns s !! id'); [discriminate |]. injection Hstep as <-. reflexivity.
  - destruct (conns s !! id') as [c |]; [| discriminate].
    destruct (pc c); try discriminate.
    destruct (requestGroup s !! statsKey (isMember c));
      injection Hstep as <-; cbn; [reflexivity |].
    rewrite tally_app. cbn. lia.
  - destruct (requestGroup s !! key) as [cl0 |]; [| discriminate].
    destruct (val cl0); [discriminate |]. injection Hstep as <-. reflexivity.
  - destruct (requestGroup s !! key) as [cl0 |]; [| discriminate].
    destruct (val cl0); [| discriminate]. injection Hstep as <-. cbn.
    rewrite tally_app. cbn. destruct (String.eqb_spec key k); [congruence | lia].
  - destruct (conns s !! id') as [c |]; [| discriminate].
    destruct (pc c); try discriminate. injection Hstep as <-. reflexivity.
Qed.

Lemma run_finished ls : forall s s' k,
  run ls s = Some s' -> ~ In (Done k) ls ->
  tally (isFinish k) (history s') = tally (isFinish k) (history s).
Proof.
  induction ls as [| l ls IH]; cbn; intros s s' k Hrun Hno.
  - injection Hrun as <-. reflexivity.
  - destruct (step l s) as [s1 |] eqn:Hstep; [| discriminate].
    rewrite (IH s1 s' k Hrun) by tauto.
    apply (step_finished l s s1 k Hstep). intros ->. tauto.
Qed.

Lemma wf_inFlight s k : wf s -> (inFlight k s <= 1)%nat.
Proof.
  intros Hwf. unfold inFlight. rewrite (wf_history s Hwf k).
  destruct (requestGroup s !! k); lia.
Qed.

Lemma Done_step s k cl v :
  requestGroup s !! k = Some cl -> val cl = Some v ->
  step (Done k) s
  = Some (mkSystem (delete k (requestGroup s)) (resume v (waiting cl) (conns s))
                   (history s ++ [Finished k])).
Proof. intros Hk Hval. cbn. rewrite Hk, Hval. reflexivity. Qed.

Lemma Run_step s k cl f :
  requestGroup s !! k = Some cl -> val cl = None ->
  step (Run k f) s
  = Some (mkSystem (<[k := mkCall (fn cl) (Some (fn cl f)) (waiting cl)]> (requestGroup s))
                   (conns s) (history s)).
Proof. intros Hk Hval. cbn. rewrite Hk, Hval. reflexivity. Qed.

Lemma resume_waiter s k cl v id :
  wf s -> requestGroup s !! k = Some cl -> id ∈ waiting cl ->
  exists c, resume v (waiting cl) (conns s) !! id = Some c /\ pc c = Returned v.
Proof.
  intros Hwf Hk Hin. rewrite resume_lookup.
  destruct (decide (id ∈ waiting cl)) as [_ | Hn]; [| contradiction].
  destruct (wf_waiting s Hwf k cl id Hk Hin) as (c & Hc & _).
  rewrite Hc. cbn. eauto.
Qed.

Lemma snapshot_notes b a (f : @Fleet Host HostState Addrs) :
  map ss_PublicNote (Servers (snapshot b a f))
  = map (shownNote b) (serverList a f).
Proof.
  unfold WS.snapshot. cbn [Servers]. rewrite map_map. apply map_ext.
  intros server. unfold streamServer, shownNote.
  destruct (GeoIP_ server); destruct b; reflexivity.
Qed.

(** C1, amended: in every snapshot the note text of each host is the
    public note of the host when the computation was started with
    [withPublicNote] set, and empty otherwise, whatever the privilege
    class; the class decides the list of hosts only. A request that starts
    a computation sets [withPublicNote] exactly when its connection has
    not been sent any snapshot yet (its [count] is 0). Every snapshot
    written to a connection was computed for the privilege class of that
    connection. *)
Theorem notes_follow_first_request (ls : list Label) (s : System) :
  run ls initial = Some s ->
  (forall b a (f : @Fleet Host HostState Addrs),
      map ss_PublicNote (Servers (snapshot b a f))
      = map (shownNote b) (serverList a f))
  /\ (forall id c,
        conns s !! id = Some c -> pc c = AtCall ->
        requestGroup s !! statsKey (isMember c) = None ->
        exists s',
          step (Call id) s = Some s'
          /\ requestGroup s' !! statsKey (isMember c)
             = Some (mkCall (serverStats (texts (sent c) =? 0)%nat (isMember c))
                            None [id]))
  /\ (forall id c payload,
        conns s !! id = Some c -> In (TextMessage payload) (sent c) ->
        exists b f, Marshal (snapshot b (isMember c) f) = inr payload).
Proof.
  intros Hrun. pose proof (wf_run ls initial s wf_initial Hrun) as Hwf.
  split; [exact snapshot_notes |]. split.
  - intros id c Hid Hpc Hfree. cbn. rewrite Hid, Hpc, Hfree.
    eexists. split; [reflexivity |]. cbn. rewrite lookup_insert_eq.
    rewrite (wf_count s Hwf id c Hid). reflexivity.
  - intros id c payload Hid Hin.
    apply (wf_frames s Hwf id c payload Hid). apply list_elem_of_In. exact Hin.
Qed.

(** A connection at the top of its loop calls [getServerStat]: it
    waits in the call of the key of its own class and leaves the call
    of any other key as it is. *)
Lemma Call_other_key s id c k cl :
  conns s !! id = Some c -> pc c = AtCall ->
  statsKey (isMember c) <> k -> requestGroup s !! k = Some cl ->
  exists s', step (Call id) s = Some s' /\ requestGroup s' !! k = Some cl.
Proof.
  intros Hid Hpc Hne Hk. cbn. rewrite Hid, Hpc.
  destruct (requestGroup s !! statsKey (isMember c)) as [cl0 |];
    eexists; (split; [reflexivity |]); cbn [requestGroup];
    rewrite lookup_insert_ne by exact Hne; exact Hk.
Qed.

(** C9: snapshot computation is coalesced per privilege class. In a
    state the broadcaster can reach, with no computation in flight for
    the class [a], let any number of connections of that class call
    [getServerStat], interleaved in any way with the steps of other
    connections, of either class, before the computation of the class
    completes. Then one computation was started for the class; it is a
    computation of the snapshot of that class, [serverStats b a]; the
    callers all wait for that one, and all that wait for it are
    connections of the class. A connection of the other class that
    calls [getServerStat] does not join it: the key of its class is
    another one, and it waits for a computation of the snapshot of its
    own class. When the computation completes, every caller is handed
    the very value it produced, a snapshot of the class [a]. In every
    reachable state at most one computation per key, hence per class, is
    in flight. *)
Theorem snapshot_coalescing (ls0 ls : list Label) (s s' : System) (a : bool)
        (ids : list string) :
  run ls0 initial = Some s ->
  requestGroup s !! statsKey a = None ->
  run ls s = Some s' ->
  ~ In (Done (statsKey a)) ls ->
  (forall id, In id ids ->
     In (Call id) ls /\ isMember <$> conns s !! id = Some a) ->
  ids <> [] ->
  exists cl b,
    requestGroup s' !! statsKey a = Some cl
    /\ fn cl = serverStats b a
    /\ (forall id, In id ids -> In id (waiting cl))
    /\ (forall id, In id (waiting cl) -> isMember <$> conns s' !! id = Some a)
    /\ statsKey (negb a) <> statsKey a
    /\ (forall id c, conns s' !! id = Some c -> pc c = AtCall -> isMember c = negb a ->
          exists s'' cl' b',
            step (Call id) s' = Some s''
            /\ requestGroup s'' !! statsKey a = Some cl
            /\ requestGroup s'' !! statsKey (negb a) = Some cl'
            /\ In id (waiting cl')
            /\ fn cl' = serverStats b' (negb a))
    /\ tally (isStart (statsKey a)) (history s')
       = S (tally (isStart (statsKey a)) (history s))
    /\ (forall ls1 s1 k, run ls1 initial = Some s1 -> (inFlight k s1 <= 1)%nat)
    /\ (forall v, val cl = Some v ->
          (exists f, v = serverStats b a f)
          /\ exists s'', step (Done (statsKey a)) s' = Some s''
               /\ forall id, In id ids ->
                    exists c, conns s'' !! id = Some c /\ pc c = Returned v)
    /\ (forall f, val cl = None ->
          exists s1 s2,
            step (Run (statsKey a) f) s' = Some s1
            /\ step (Done (statsKey a)) s1 = Some s2
            /\ forall id, In id ids ->
                 exists c, conns s2 !! id = Some c
                           /\ pc c = Returned (serverStats b a f)).
Proof.
  intros Hreach Hfree Hrun Hno Hids Hne.
  pose proof (wf_run ls0 initial s wf_initial Hreach) as Hwf.
  pose proof (wf_run ls s s' Hwf Hrun) as Hwf'.
  destruct ids as [| id0 rest]; [congruence |].
  destruct (Hids id0 (or_introl eq_refl)) as [Hcall0 Hm0].
  destruct (run_Call_waits ls s s' id0 a Hrun Hno Hcall0 Hm0) as (cl & Hk & _).
  assert (Hall : forall id, In id (id0 :: rest) -> id ∈ waiting cl).
  { intros id Hin. destruct (Hids id Hin) as [Hcall Hm].
    destruct (run_Call_waits ls s s' id a Hrun Hno Hcall Hm) as (cl' & Hk' & Hin').
    congruence. }
  destruct (wf_calls Filter Join Marshal s' Hwf' _ cl Hk) as (a0 & b & Ha0 & Hfn).
  apply statsKey_inj in Ha0. subst a0.
  assert (Hkeys : statsKey (negb a) <> statsKey a).
  { intros H. apply statsKey_inj in H. destruct a; discriminate. }
  exists cl, b. split; [exact Hk |].
  split; [exact Hfn |].
  split; [intros id Hin; apply list_elem_of_In, Hall, Hin |].
  split.
  { intros id Hin. apply list_elem_of_In in Hin.
    destruct (wf_waiting s' Hwf' _ cl id Hk Hin) as (c & Hc & _ & Hkey).
    rewrite Hc. cbn. f_equal. apply statsKey_inj, Hkey. }
  split; [exact Hkeys |].
  split.
  { intros id c Hid Hpc Hm.
    destruct (Call_other_key s' id c (statsKey a) cl Hid Hpc) as (s'' & Hstep & Hkeep);
      [rewrite Hm; exact Hkeys | exact Hk |].
    destruct (step_Call_waits s' s'' id (negb a) Hstep) as (cl' & Hk' & Hin');
      [rewrite Hid; cbn; f_equal; exact Hm |].
    destruct (wf_calls Filter Join Marshal s'' (wf_step s' s'' _ Hwf' Hstep) _ cl' Hk')
      as (a1 & b' & Ha1 & Hfn').
    apply statsKey_inj in Ha1. subst a1.
    exists s'', cl', b'. repeat split; try assumption.
    apply list_elem_of_In. exact Hin'. }
  split.
  { rewrite (wf_history s' Hwf'), (wf_history s Hwf), Hk, Hfree.
    rewrite (run_finished ls s s' _ Hrun Hno). lia. }
  split; [intros ls1 s1 k Hr1; apply wf_inFlight, (wf_run ls1 initial s1 wf_initial Hr1) |].
  split.
  - intros v Hval. split.
    { destruct (wf_vals Filter Join Marshal s' Hwf' _ cl v Hk Hval) as [f ->].
      exists f. rewrite Hfn. reflexivity. }
    rewrite (Done_step s' _ cl v Hk Hval).
    eexists. split; [reflexivity |].
    intros id Hin. cbn [conns]. apply (resume_waiter s' _ cl v id Hwf' Hk (Hall id Hin)).
  - intros f Hval. rewrite (Run_step s' _ cl f Hk Hval).
    eexists. eexists. split; [reflexivity |].
    erewrite Done_step; [| cbn [requestGroup]; apply lookup_insert_eq | reflexivity].
    split; [reflexivity |].
    intros id Hin. cbn [conns waiting]. rewrite <- Hfn.
    apply (resume_waiter s' _ cl (fn cl f) id Hwf' Hk (Hall id Hin)).
Qed.

End Broadcasting.

(** *** The theorems on the broadcaster at a concrete fleet *)

Section BroadcastExamples.
Import WS Samples.

(** The claim C1 as the specification words it fails on the first
    snapshot of a guest: it carries the public note of the listed host. *)
Lemma notes_ignore_privilege :
  ~ @notesFollowPrivilege string unit string Filter Join.
Proof.
  intros H. specialize (H 0%nat false fleet). vm_compute in H. discriminate.
Qed.

Lemma notes_follow_first_request_witness :
  map ss_PublicNote (Servers (snapshot Filter Join true false fleet)) = ["rack 12"]
  /\ map ss_PublicNote (Servers (snapshot Filter Join false true fleet)) = [""; ""].
Proof.
  destruct (notes_follow_first_request Filter Join Marshal oneRound (afterRun oneRound)
              eq_refl) as (Hnotes & _).
  rewrite !Hnotes. split; reflexivity.
Defined.

Lemma snapshot_coalescing_witness :
  exists cl,
    requestGroup (afterRun (threeViewers ++ guestsAsk)) !! statsKey false = Some cl
    /\ In "c1" (waiting cl) /\ In "c2" (waiting cl) /\ ~ In "c3" (waiting cl)
    /\ (exists b, fn cl = WS.serverStats Filter Join Marshal b false)
    /\ tally (isStart (statsKey false)) (history (afterRun (threeViewers ++ guestsAsk)))
       = 1%nat.
Proof.
  destruct (snapshot_coalescing Filter Join Marshal threeViewers guestsAsk
              (afterRun threeViewers) (afterRun (threeViewers ++ guestsAsk))
              false ["c1"; "c2"])
    as (cl & b & Hk & Hfn & Hall & Hclass & _ & _ & Hone & _).
  - reflexivity.
  - reflexivity.
  - reflexivity.
  - intros [H | [H | [H | []]]]; discriminate.
  - intros id [<- | [<- | []]]; (split; [cbn; auto | reflexivity]).
  - discriminate.
  - exists cl. split; [exact Hk |].
    split; [apply Hall; cbn; auto |].
    split; [apply Hall; cbn; auto |].
    split; [intros H; apply Hclass in H; vm_compute in H; discriminate |].
    split; [exists b; exact Hfn |].
    rewrite Hone. reflexivity.
Defined.

End BroadcastExamples.

(** ** More on the fallback cache *)

Section CacheMaintenance.
Import GoTime GoStrings IPAPI Samples.

Lemma expiredAt_spec now e : expiredAt now e = (cacheExpiry <? now - timestamp e).
Proof. unfold expiredAt. apply Sub_ltb_above, expiry_bounds. Qed.

Lemma getCachedResult_spec ip st :
  getCachedResult ip st
  = match ipCache st !! ip with
    | Some e => if expiredAt (clock st) e then ("", "", false)
                else (countryCode e, asn e, true)
    | None => ("", "", false)
    end.
Proof. reflexivity. Qed.

Lemma setCachedResult_hit ip cc org d st :
  0 <= d <= cacheExpiry ->
  getCachedResult ip (advance d (setCachedResult ip cc org st)) = (cc, org, true).
Proof.
  intros Hd. rewrite getCachedResult_spec. cbn [advance setCachedResult ipCache clock].
  rewrite lookup_insert_eq, expiredAt_spec. cbn [timestamp countryCode asn].
  destruct (Z.ltb_spec cacheExpiry (clock st + d - clock st)); [lia | reflexivity].
Qed.

(** X1: an answer stored by [setCachedResult] is what [getCachedResult]
    returns for the same address during the next 24 hours, and storing
    it changes the answer for no other address. *)
Theorem cache_round_trip (ip cc org : string) (d : Z) (st : State) :
  0 <= d <= cacheExpiry ->
  getCachedResult ip (advance d (setCachedResult ip cc org st)) = (cc, org, true)
  /\ (forall ip', ip' <> ip ->
        getCachedResult ip' (advance d (setCachedResult ip cc org st))
        = getCachedResult ip' (advance d st)).
Proof.
  intros Hd. split; [apply setCachedResult_hit; exact Hd |].
  intros ip' Hne. rewrite !getCachedResult_spec.
  cbn [advance setCachedResult ipCache clock].
  rewrite lookup_insert_ne by congruence. reflexivity.
Qed.

Lemma cache_round_trip_witness :
  getCachedResult "1.1.1.1"
    (advance Hour (setCachedResult "1.1.1.1" "AU" "Cloudflare, Inc." (boot 0)))
  = ("AU", "Cloudflare, Inc.", true).
Proof.
  apply (cache_round_trip "1.1.1.1" "AU" "Cloudflare, Inc." Hour (boot 0)).
  split; vm_compute; discriminate.
Defined.

Lemma expiredAt_later now d e :
  0 <= d -> expiredAt now e = true -> expiredAt (now + d) e = true.
Proof.
  rewrite !expiredAt_spec. intros Hd H. apply Z.ltb_lt in H. apply Z.ltb_lt. lia.
Qed.

(** X2: [ClearCache] cannot be observed through the cache: at the time
    of the call and at any later time, [getCachedResult] answers for
    every address as it would have without the call. It deletes only
    entries that a lookup already treats as absent. *)
Theorem ClearCache_unobservable (ip : string) (d : Z) (st : State) :
  0 <= d ->
  getCachedResult ip (advance d (ClearCache st)) = getCachedResult ip (advance d st).
Proof.
  intros Hd. rewrite !getCachedResult_spec. cbn [advance ClearCache ipCache clock].
  destruct (ipCache st !! ip) as [e |] eqn:Hin.
  - destruct (expiredAt (clock st) e) eqn:Hexp.
    + rewrite (expiredAt_later _ d e Hd Hexp).
      assert (Hnone : filter (fun kv : string * cacheEntry =>
                                negb (expiredAt (clock st) (snd kv)))
                             (ipCache st) !! ip = None).
      { apply map_lookup_filter_None. right. intros x Hx. cbn.
        rewrite Hin in Hx. injection Hx as <-. rewrite Hexp. cbn. tauto. }
      rewrite Hnone. reflexivity.
    + assert (Hsome : filter (fun kv : string * cacheEntry =>
                                negb (expiredAt (clock st) (snd kv)))
                             (ipCache st) !! ip = Some e).
      { apply map_lookup_filter_Some. split; [exact Hin |]. cbn. rewrite Hexp. exact I. }
      rewrite Hsome. reflexivity.
  - assert (Hnone : filter (fun kv : string * cacheEntry =>
                              negb (expiredAt (clock st) (snd kv)))
                           (ipCache st) !! ip = None).
    { apply map_lookup_filter_None. left. exact Hin. }
    rewrite Hnone. reflexivity.
Qed.

Lemma ClearCache_unobservable_witness :
  getCachedResult "8.8.8.8" (advance Second (ClearCache (sampleState (25 * Hour))))
  = getCachedResult "8.8.8.8" (advance Second (sampleState (25 * Hour))).
Proof.
  apply (ClearCache_unobservable "8.8.8.8" Second (sampleState (25 * Hour))).
  vm_compute. discriminate.
Defined.

(** X3: right after [ClearCache], [GetCacheStats] counts no entry out
    of date, and the total has gone down by the number of entries that
    were out of date before, which never exceeds the total. *)
Theorem ClearCache_stats (st : State) :
  GetCacheStats (ClearCache st)
  = ((fst (GetCacheStats st) - snd (GetCacheStats st))%nat, 0%nat)
  /\ (snd (GetCacheStats st) <= fst (GetCacheStats st))%nat.
Proof.
  unfold GetCacheStats, ClearCache. cbn [fst snd ipCache clock].
  set (P := fun kv : string * cacheEntry => Is_true (expiredAt (clock st) (snd kv))).
  set (Q := fun kv : string * cacheEntry => Is_true (negb (expiredAt (clock st) (snd kv)))).
  assert (HQ : filter Q (ipCache st) = filter (fun kv => ~ P kv) (ipCache st)).
  { apply map_filter_ext. intros i x _. unfold P, Q. cbn.
    destruct (expiredAt (clock st) x); cbn; tauto. }
  assert (Hsize : size (ipCache st)
                  = (size (filter P (ipCache st)) + size (filter Q (ipCache st)))%nat).
  { rewrite HQ, <- map_size_disj_union by apply map_disjoint_filter_complement.
    rewrite map_filter_union_complement. reflexivity. }
  assert (Hnone : filter P (filter Q (ipCache st)) = ∅).
  { apply map_empty. intros i. apply map_lookup_filter_None. right.
    intros x Hx. apply map_lookup_filter_Some in Hx as [_ Hq].
    unfold P, Q in *. cbn in *. destruct (expiredAt (clock st) x); cbn in *; tauto. }
  fold P Q. rewrite Hnone, map_size_empty. split; [f_equal; lia | lia].
Qed.

End CacheMaintenance.

Section QueryOutcomes.
Import GoTime GoStrings IPAPI Samples.

Lemma checkRateLimit_clock env st :
  0 <= lag env -> clock st <= clock (checkRateLimit env st).
Proof.
  intros Hlag. unfold checkRateLimit, Sleep, advance. cbn.
  destruct (_ <? minRequestInterval); cbn; [| lia].
  destruct (Z.ltb_spec 0 (wrap64 (minRequestInterval - Since st (lastRequestTime st))));
    cbn; lia.
Qed.

(** What a query that misses the cache returns, by the answer of the
    service. *)
Lemma queryIPAPI_miss env ip st :
  getCachedResult ip st = ("", "", false) ->
  let url := String.append apiBaseURL ip in
  let st2 := snd (Get env url (checkRateLimit env st)) in
  queryIPAPI env (Some ip) st
  = match httpGet env url with
    | GetFailed e => (inl (ErrRequestFailed e), st2)
    | GetDone code body =>
        if negb (code =? StatusOK) then (inl (ErrStatusCode code), st2)
        else match body with
             | inl e => (inl (ErrDecode e), st2)
             | inr result =>
                 if negb (String.eqb (Status result) "success")
                 then (inl (ErrStatus (Status result)), st2)
                 else (inr result,
                       setCachedResult ip (CountryCode result) (orgOf result) st2)
             end
    end.
Proof.
  intros Hmiss. cbn zeta. unfold queryIPAPI. rewrite Hmiss. unfold Get. cbn beta iota.
  cbn [snd]. reflexivity.
Qed.

Lemma getCachedResult_cases ip st :
  (exists cc org, getCachedResult ip st = (cc, org, true))
  \/ getCachedResult ip st = ("", "", false).
Proof.
  unfold getCachedResult. destruct (ipCache st !! ip) as [e |]; [| right; reflexivity].
  destruct (_ <? _); [right; reflexivity | left; eauto].
Qed.

(** X4: a query that returns an error leaves the cache as it was:
    failures of the transport, of the HTTP status, of the decoder and of
    the status field are never stored, so that the next query for the
    address goes to the service again. A nil address is refused before
    anything is touched. *)
Theorem failures_not_cached (env : Env) (ip : option string) (st : State) (e : Error) :
  fst (queryIPAPI env ip st) = inl e ->
  ipCache (snd (queryIPAPI env ip st)) = ipCache st
  /\ (ip = None -> queryIPAPI env ip st = (inl ErrInvalidIP, st)).
Proof.
  intros Hfail.
  assert (Hframe : ipCache (snd (queryIPAPI env ip st)) = ipCache st).
  { destruct ip as [ipStr |]; [| reflexivity].
    destruct (getCachedResult_cases ipStr st) as [(cc & org & Hhit) | Hmiss].
    - unfold queryIPAPI in *. rewrite Hhit in *. discriminate.
    - rewrite (queryIPAPI_miss env ipStr st Hmiss) in *.
      destruct (checkRateLimit_frame env st) as (Hc & _).
      unfold Get in *. cbn [snd] in *.
      destruct (httpGet env (String.append apiBaseURL ipStr)) as [err | code body];
        [exact Hc |].
      destruct (negb (code =? StatusOK)); [exact Hc |].
      destruct body as [err | result]; [exact Hc |].
      destruct (negb (String.eqb (Status result) "success")); [exact Hc | discriminate]. }
  split; [exact Hframe |]. intros ->. reflexivity.
Qed.

Lemma failures_not_cached_witness :
  ipCache (snd (queryIPAPI downEnv (Some "1.1.1.1") (sampleState 0)))
  = ipCache (sampleState 0).
Proof.
  apply (failures_not_cached downEnv (Some "1.1.1.1") (sampleState 0)
           (ErrRequestFailed "timeout")).
  vm_compute. reflexivity.
Defined.

(** X5: an answer fetched from the service for an address that was not
    cached is served from the cache during the next 24 hours, whatever
    the service would answer then: the second query returns the status
    "success", the country code of the first answer, its organisation
    in the field [AS] and the address itself in the field [Query],
    every other field being empty, and changes nothing, so that no
    request is sent. *)
Theorem fetched_then_cached (env env' : Env) (ip : string) (st : State)
        (result : APIResponse) (d : Z) :
  getCachedResult ip st = ("", "", false) ->
  fst (queryIPAPI env (Some ip) st) = inr result ->
  0 <= d <= cacheExpiry ->
  let st1 := advance d (snd (queryIPAPI env (Some ip) st)) in
  queryIPAPI env' (Some ip) st1
  = (inr (mkAPIResponse "success" "" (CountryCode result) "" "" "" "" "" "" ""
                        (orgOf result) ip),
     st1).
Proof.
  intros Hmiss Hok Hd. cbn zeta.
  rewrite (queryIPAPI_miss env ip st Hmiss) in *.
  destruct (httpGet env (String.append apiBaseURL ip)) as [err | code body];
    [discriminate |].
  destruct (negb (code =? StatusOK)); [discriminate |].
  destruct body as [err | r]; [discriminate |].
  destruct (negb (String.eqb (Status r) "success")); [discriminate |].
  cbn [fst snd] in *. injection Hok as ->.
  unfold queryIPAPI.
  rewrite (setCachedResult_hit ip (CountryCode result) (orgOf result) d
             (snd (Get env (String.append apiBaseURL ip) (checkRateLimit env st))) Hd).
  reflexivity.
Qed.

Lemma fetched_then_cached_witness :
  fst (queryIPAPI downEnv (Some "1.1.1.1")
         (advance Hour (snd (queryIPAPI sampleEnv (Some "1.1.1.1") (boot (5 * Second))))))
  = inr (mkAPIResponse "success" "" "US" "" "" "" "" "" "" "" "Google LLC" "1.1.1.1").
Proof.
  rewrite (fetched_then_cached sampleEnv downEnv "1.1.1.1" (boot (5 * Second))
             (mkAPIResponse "success" "United States" "US" "" "" "" "" "" ""
                            "Google Public DNS" "AS15169 Google LLC" "8.8.8.8")
             Hour).
  - reflexivity.
  - reflexivity.
  - vm_compute. reflexivity.
  - split; vm_compute; discriminate.
Defined.

End QueryOutcomes.

Section Wrappers.
Import GoTime GoStrings IPAPI Samples.
Variable unicodeLower : string -> string.

Lemma cutSpace_app a b :
  (forall x r, a <> String.append x (String " " r)) ->
  cutSpace (String.append a (String " " b)) = Some (a, b).
Proof.
  induction a as [| c a IH]; intros Hno.
  { cbn. reflexivity. }
  change (cutSpace (String c (String.append a (String " " b))) = Some (String c a, b)).
  cbn [cutSpace].
  destruct (isByte 32 c) eqn:Hc.
  - exfalso. apply (Hno "" a). cbn. f_equal.
    unfold isByte, byteVal in Hc. apply N.eqb_eq in Hc.
    rewrite <- (ascii_N_embedding c), Hc. reflexivity.
  - rewrite IH; [reflexivity |].
    intros x r ->. apply (Hno (String c x) r). reflexivity.
Qed.

Lemma orgOf_cached cc org ip :
  orgOf (mkAPIResponse "success" "" cc "" "" "" "" "" "" "" org ip) = cachedOrg org.
Proof.
  unfold orgOf, cachedOrg, SplitN2. cbn [AS Org].
  destruct org as [| c r]; [reflexivity |]. cbn [String.eqb negb].
  destruct (cutSpace (String c r)) as [[h t] |]; reflexivity.
Qed.

(** X6: for an address whose entry is fresh, [LookupBoth] and
    [LookupASN] return the cached organisation cut at its first space
    once more: the text after the first space, or the whole text when it
    holds no space. An organisation stored as "Google LLC" comes back as
    "LLC". [LookupBoth] returns the cached country code in lower case. *)
Theorem cached_organisation_cut (env : Env) (ip : string) (e : cacheEntry) (st : State) :
  ipCache st !! ip = Some e ->
  clock st - timestamp e <= cacheExpiry ->
  LookupBoth unicodeLower env (Some ip) st
  = (inr (if String.eqb (countryCode e) "" then ""
          else ToLower unicodeLower (countryCode e),
          cachedOrg (asn e)),
     st)
  /\ LookupASN env (Some ip) st
     = (if String.eqb (asn e) "" then inl (ErrASNNotFound ip) else inr (cachedOrg (asn e)),
        st)
  /\ (forall a b, (forall x r, a <> String.append x (String " " r)) ->
        asn e = String.append a (String " " b) -> cachedOrg (asn e) = b).
Proof.
  intros Hin Hage.
  assert (Hq : queryIPAPI env (Some ip) st
               = (inr (mkAPIResponse "success" "" (countryCode e) "" "" "" "" "" "" ""
                                     (asn e) ip), st)).
  { unfold queryIPAPI. rewrite (getCachedResult_fresh ip e st Hin Hage). reflexivity. }
  split; [| split].
  - unfold LookupBoth. rewrite Hq, orgOf_cached. cbn [CountryCode].
    destruct (String.eqb (countryCode e) ""); reflexivity.
  - unfold LookupASN. rewrite Hq. cbn [AS Org default]. unfold cachedOrg, SplitN2.
    destruct (String.eqb (asn e) "") eqn:He; cbn [negb]; [reflexivity |].
    destruct (cutSpace (asn e)) as [[h t] |]; reflexivity.
  - intros a b Hno ->. unfold cachedOrg. rewrite (cutSpace_app a b Hno). reflexivity.
Qed.

(** X7: the three wrappers run the same query and leave the same
    state. Where [Lookup] returns a country code or [LookupASN] an
    organisation, [LookupBoth] returns the same value. Where the answer
    has no country code, or neither AS nor organisation, [Lookup] or
    [LookupASN] fail, while [LookupBoth] succeeds with an empty
    field. *)
Theorem LookupBoth_agrees (env : Env) (ip : option string) (st : State) :
  snd (Lookup unicodeLower env ip st) = snd (LookupBoth unicodeLower env ip st)
  /\ snd (LookupASN env ip st) = snd (LookupBoth unicodeLower env ip st)
  /\ (forall c, fst (Lookup unicodeLower env ip st) = inr c ->
        exists o, fst (LookupBoth unicodeLower env ip st) = inr (c, o))
  /\ (forall o, fst (LookupASN env ip st) = inr o ->
        exists c, fst (LookupBoth unicodeLower env ip st) = inr (c, o))
  /\ (forall result, fst (queryIPAPI env ip st) = inr result ->
        exists c o, fst (LookupBoth unicodeLower env ip st) = inr (c, o)
                    /\ (CountryCode result = "" -> c = ""
                        /\ fst (Lookup unicodeLower env ip st)
                           = inl (ErrCountryNotFound (default "" ip)))
                    /\ (AS result = "" -> Org result = "" -> o = ""
                        /\ fst (LookupASN env ip st)
                           = inl (ErrASNNotFound (default "" ip)))).
Proof.
  unfold Lookup, LookupBoth, LookupASN, orgOf.
  destruct (queryIPAPI env ip st) as [[e | result] st']; cbn [fst snd].
  { repeat split; intros; discriminate. }
  split; [destruct (negb (String.eqb (CountryCode result) "")); reflexivity |].
  split.
  { destruct (negb (String.eqb (AS result) ""));
      [destruct (SplitN2 (AS result)) as [| p [| q rest]]; reflexivity |].
    destruct (negb (String.eqb (Org result) "")); reflexivity. }
  split.
  { intros c Hc. destruct (negb (String.eqb (CountryCode result) "")); cbn [fst] in *;
      [injection Hc as <-; eauto | discriminate]. }
  split.
  { intros o Ho. eexists.
    destruct (negb (String.eqb (AS result) "")).
    - destruct (SplitN2 (AS result)) as [| p [| q rest]]; cbn [fst] in *;
        injection Ho as <-; reflexivity.
    - destruct (negb (String.eqb (Org result) "")); cbn [fst] in *;
        [injection Ho as <-; reflexivity | discriminate]. }
  intros r Hr. injection Hr as <-. do 2 eexists.
  split; [reflexivity |]. split.
  - intros ->. cbn. split; reflexivity.
  - intros -> ->. cbn. split; reflexivity.
Qed.

End Wrappers.

Section WrapperExamples.
Import GoTime GoStrings IPAPI Samples.

Lemma cached_organisation_cut_witness :
  LookupBoth (fun s => s) sampleEnv (Some "8.8.8.8") (sampleState Hour)
  = (inr ("us", "LLC"), sampleState Hour).
Proof.
  rewrite (proj1 (cached_organisation_cut (fun s => s) sampleEnv "8.8.8.8" sampleEntry
                    (sampleState Hour) eq_refl ltac:(vm_compute; discriminate))).
  reflexivity.
Defined.

End WrapperExamples.

(** ** More on agent authentication *)

Section Robustness.
Import GoStrings RPC.

Lemma total_ret {A} (a : A) : total (ret a).
Proof. intros w. discriminate. Qed.

Lemma total_fail {A} msg : total (@fail A msg).
Proof. intros w. discriminate. Qed.

Lemma total_bind {A B} (m : M A) (k : A -> M B) :
  total m -> (forall a, total (k a)) -> total (bind m k).
Proof.
  intros Hm Hk w. unfold bind. specialize (Hm w).
  destruct (m w) as [[a | e |] w']; cbn in *;
    [apply Hk | discriminate | congruence].
Qed.

Lemma total_mdValue md key : md !! key <> Some [] -> total (mdValue md key).
Proof.
  intros H w. unfold mdValue.
  destruct (md !! key) as [[| v vs] |]; [congruence | discriminate | discriminate].
Qed.

Lemma total_First name owner : total (First name owner).
Proof.
  intros w. unfold First, bind, send, get, ret. cbn.
  destruct (mjoin (head (faults (DB w)))); cbn; [discriminate |].
  destruct (find _ _); discriminate.
Qed.

Ltac total_step :=
  first
    [ apply total_ret | apply total_fail | apply total_First
    | apply total_mdValue; assumption
    | apply total_bind; [| intros ?]
    | match goal with
      | |- total (match ?x with _ => _ end) => destruct x
      | |- total (if ?x then _ else _) => destruct x
      end
    | intros ?; discriminate ].

Lemma total_resolveGroup md userId :
  md !! "server_group_name" <> Some [] -> total (resolveGroup md userId).
Proof.
  intros H. unfold resolveGroup.
  destruct (md !! "server_group_name") as [[| v vs] |]; [congruence | |].
  - unfold get. repeat total_step.
  - apply total_ret.
Qed.

Lemma total_Transaction_createRecords s userId gid :
  total (Transaction (createRecords s userId gid)).
Proof.
  intros w.
  destruct (Transaction_createRecords s userId gid w)
    as [(e & Htx & _) | (s' & Htx & _)]; rewrite Htx; discriminate.
Qed.

Lemma total_identify md userId uuid :
  md !! "server_name" <> Some [] ->
  md !! "server_group_name" <> Some [] ->
  total (identify md userId uuid).
Proof.
  intros Hname Hgroup.
  unfold identify, UUIDToID, provision, prepare, announce, logPrintf, Update,
    Generate, get, modify.
  repeat first
    [ apply total_Transaction_createRecords
    | apply total_resolveGroup; assumption
    | total_step ].
  all: intros w; cbn; try destruct (petnames w); discriminate.
Qed.

(** X8: [Check] takes the first value of a metadata key without testing
    that there is one. When each of the four keys it reads is absent or
    holds at least one value, it returns an identity or an error and
    does not panic. A [client_secret] key that holds no value makes it
    panic at once, before anything is changed. *)
Theorem Check_panics_only_on_empty_values (ctx : Ctx)
        (md : gmap string (list string)) (w : World) :
  metadata ctx = Some md ->
  (populated md -> fst (RPC.Check ctx w) <> Panic)
  /\ (md !! "client_secret" = Some [] -> RPC.Check ctx w = (Panic, w)).
Proof.
  intros Hmd. unfold Check. rewrite Hmd. split.
  - intros Hpop.
    assert (Hs : md !! "client_secret" <> Some []) by (apply Hpop; cbn; tauto).
    assert (Hu : md !! "client_uuid" <> Some []) by (apply Hpop; cbn; tauto).
    assert (Hn : md !! "server_name" <> Some []) by (apply Hpop; cbn; tauto).
    assert (Hg : md !! "server_group_name" <> Some []) by (apply Hpop; cbn; tauto).
    revert w. change (total
      (clientSecret <- mdValue md "client_secret" ;;
       if isEmpty clientSecret then fail msgAuthFailed
       else
         w <- get ;;
         match AgentSecretToUserId w !! clientSecret with
         | None => BlockIP (realIP ctx) ;;; fail msgAuthFailed
         | Some userId =>
             UnblockIP (realIP ctx) ;;;
             clientUUID <- mdValue md "client_uuid" ;;
             if badUUID clientUUID then fail msgBadUUID
             else identify md userId clientUUID
         end)).
    unfold get, BlockIP, UnblockIP, modify.
    repeat first [ apply total_identify; assumption | total_step ].
  - intros Hs. unfold bind, mdValue. rewrite Hs. reflexivity.
Qed.

End Robustness.

Section Footprint.
Import GoStrings RPC.

Lemma Transaction_createRecords_tables s userId gid w :
  let tx := Transaction (createRecords s userId gid) w in
  let t := tables (DB w) in
  let s' := mkServer (N.succ (last_server_id t)) (srv_UserID s)
                     (srv_UUID s) (srv_Name s) (srv_initialised s) in
  (exists e, fst tx = Val (inl e) /\ tables (DB (snd tx)) = t)
  \/ (fst tx = Val (inr s')
      /\ tables (DB (snd tx))
         = mkTables (server_groups t) (servers t ++ [s'])
                    (server_group_servers t ++ memberRows t userId gid s')
                    (N.succ (last_server_id t))
                    (if (0 <? gid)%N then N.succ (last_member_id t)
                     else last_member_id t)).
Proof.
  cbn zeta. unfold memberRows.
  unfold Transaction, createRecords, CreateServer, CreateMember.
  unfold bind, send, get, ret, setTables, modify. cbn.
  assert (Hleft : forall (x : string) (t1 t2 : Tables) (P : Prop),
             t1 = t2 -> (exists e, @Val (string + Server) (inl x) = Val (inl e) /\ t1 = t2) \/ P).
  { intros x t1 t2 P ->. left. exists x. split; reflexivity. }
  generalize (faults (DB w)). intros fs.
  repeat (cbn;
          try (apply Hleft; reflexivity);
          match goal with
          | |- context [head ?l] => is_var l; destruct l as [| [? |] ?]
          | |- context [(0 <? gid)%N] => destruct (0 <? gid)%N
          end).
  all: cbn; try (apply Hleft; reflexivity).
  all: right; split; rewrite ?app_nil_r; reflexivity.
Qed.

Lemma Transaction_createRecords_rest s userId gid w :
  let tx := Transaction (createRecords s userId gid) w in
  AgentSecretToUserId (snd tx) = AgentSecretToUserId w
  /\ UserInfoMap (snd tx) = UserInfoMap w
  /\ ServerShared (snd tx) = ServerShared w
  /\ blocklist (snd tx) = blocklist w
  /\ petnames (snd tx) = petnames w
  /\ logged (snd tx) = logged w.
Proof.
  cbn zeta.
  repeat split;
    (apply keeps_Transaction; [intros; reflexivity |];
     apply keeps_createRecords; intros; reflexivity).
Qed.

Lemma announce_world md userId uuid name gid s w :
  ((0 < gid)%N -> exists v vs, md !! "server_group_name" = Some (v :: vs)) ->
  exists line,
    announce md userId uuid name gid s w
    = (Val (srv_ID s),
       setServerShared
         (mkServerClass (<[uuid := srv_ID s]> (uuidToID (ServerShared w)))
                        (<[srv_ID s := InitServer s]> (list_ (ServerShared w))))
         (setLogged (line :: logged w) w))
    /\ log_UUID line = uuid /\ log_Name line = name /\ log_UserID line = userId.
Proof.
  intros Hasked. unfold announce, logPrintf, Update, bind, modify, ret.
  destruct (N.ltb_spec 0 gid) as [Hpos | Hzero].
  - destruct (Hasked Hpos) as (v & vs & Hmd). unfold mdValue. rewrite Hmd. cbn.
    eexists. split; [reflexivity |]. repeat split.
  - cbn. eexists. split; [reflexivity |]. repeat split.
Qed.

Lemma prepare_world md userId w :
  let out := prepare md userId w in
  AgentSecretToUserId (snd out) = AgentSecretToUserId w
  /\ UserInfoMap (snd out) = UserInfoMap w
  /\ ServerShared (snd out) = ServerShared w
  /\ blocklist (snd out) = blocklist w
  /\ logged (snd out) = logged w
  /\ tables (DB (snd out)) = tables (DB w).
Proof.
  cbn zeta.
  repeat split;
    try (apply keeps_prepare; intros; reflexivity).
  apply tables_prepare.
Qed.

Lemma bind_eq {A B} (m : M A) (k : A -> M B) w :
  bind m k w
  = match m w with
    | (Val a, w') => k a w'
    | (Failed e, w') => (Failed e, w')
    | (Panic, w') => (Panic, w')
    end.
Proof. reflexivity. Qed.

(** The two ways a first contact ends: the tables and the inventory are
    as before, or one record has been created and registered. *)
Lemma provision_cases md userId uuid w :
  let out := provision md userId uuid w in
  let t := tables (DB w) in
  (tables (DB (snd out)) = t
   /\ ServerShared (snd out) = ServerShared w
   /\ logged (snd out) = logged w
   /\ forall id, fst out <> Val id)
  \/ (exists name gid w1 line,
        let s' := mkServer (N.succ (last_server_id t)) userId uuid name false in
        prepare md userId w = (Val (name, gid), w1)
        /\ fst out = Val (srv_ID s')
        /\ tables (DB (snd out))
           = mkTables (server_groups t) (servers t ++ [s'])
                      (server_group_servers t ++ memberRows t userId gid s')
                      (N.succ (last_server_id t))
                      (if (0 <? gid)%N then N.succ (last_member_id t)
                       else last_member_id t)
        /\ ServerShared (snd out)
           = mkServerClass (<[uuid := srv_ID s']> (uuidToID (ServerShared w)))
                           (<[srv_ID s' := InitServer s']> (list_ (ServerShared w)))
        /\ petnames (snd out) = petnames w1
        /\ logged (snd out) = line :: logged w
        /\ log_UUID line = uuid /\ log_Name line = name /\ log_UserID line = userId).
Proof.
  cbn zeta. unfold provision. rewrite bind_eq.
  destruct (prepare_world md userId w) as (_ & _ & Hss1 & _ & Hlog1 & Ht1).
  destruct (prepare md userId w) as [[[name gid] | e |] w1] eqn:Hprep;
    cbn [fst snd] in *.
  2, 3: left; split; [| split; [| split]]; [assumption .. | intros id; discriminate].
  rewrite bind_eq.
  destruct (Transaction_createRecords_rest (mkServer 0 userId uuid name false)
              userId gid w1) as (_ & _ & Hss2 & _ & Hpet2 & Hlog2).
  destruct (Transaction_createRecords_tables (mkServer 0 userId uuid name false)
              userId gid w1) as [(e & Htx & Htab) | (Htx & Htab)].
  - left.
    destruct (Transaction _ w1) as [r w2]. cbn [fst snd] in *. subst r.
    cbn. split; [| split; [| split]]; [congruence .. | intros id; discriminate].
  - right. exists name, gid, w1.
    destruct (Transaction _ w1) as [r w2]. cbn [fst snd] in *. subst r.
    cbn [srv_UserID srv_UUID srv_Name srv_initialised] in *.
    destruct (prepare_inv md userId name gid w w1 Hprep) as [w' Hres].
    rewrite Ht1 in *.
    destruct (announce_world md userId uuid name gid
                (mkServer (N.succ (last_server_id (tables (DB w)))) userId uuid name false)
                w2 (resolveGroup_asked md userId gid w' w1 Hres))
      as (line & Hann & Hl1 & Hl2 & Hl3).
    exists line. rewrite Hann. cbn [fst snd].
    split; [reflexivity |]. split; [reflexivity |].
    split; [exact Htab |].
    split; [cbn; rewrite Hss2, Hss1; reflexivity |].
    split; [exact Hpet2 |].
    split; [cbn; rewrite Hlog2, Hlog1; reflexivity |].
    repeat split; assumption.
Qed.

End Footprint.

Section Outcomes.
Import GoStrings RPC.

(** Where a call ends: refused before the block list is touched, refused
    and blocked, panicking or refused on its UUID after unblocking, or
    let through to the Identity Cache lookup. *)
Lemma Check_shape ctx w :
  (exists r w', RPC.Check ctx w = (r, w')
                /\ (forall id, r <> Val id)
                /\ (w' = w \/ w' = blocked (realIP ctx) w
                    \/ w' = unblocked (realIP ctx) w))
  \/ exists md secret userId uuid,
       metadata ctx = Some md
       /\ carries md "client_secret" secret /\ secret <> ""
       /\ AgentSecretToUserId w !! secret = Some userId
       /\ carries md "client_uuid" uuid
       /\ (1 <= String.length uuid <= 64)%nat
       /\ RPC.Check ctx w = identify md userId uuid (unblocked (realIP ctx) w).
Proof.
  assert (Hrefused : forall (r : Res N) w',
             RPC.Check ctx w = (r, w') -> (forall id, r <> Val id) ->
             (w' = w \/ w' = blocked (realIP ctx) w \/ w' = unblocked (realIP ctx) w) ->
             exists r w', RPC.Check ctx w = (r, w')
                          /\ (forall id, r <> Val id)
                          /\ (w' = w \/ w' = blocked (realIP ctx) w
                              \/ w' = unblocked (realIP ctx) w)).
  { intros r w' H1 H2 H3. exists r, w'. auto. }
  destruct (metadata ctx) as [md |] eqn:Hmd.
  2: { left. eapply Hrefused; [unfold Check; rewrite Hmd; reflexivity | | auto].
       intros id; discriminate. }
  destruct (mdValue_cases md "client_secret") as [[secret Hsec] | Hpanic].
  2: { left. eapply Hrefused;
         [unfold Check; rewrite Hmd, bind_eq, Hpanic; reflexivity | | auto].
       intros id; discriminate. }
  destruct (String.eqb_spec secret "") as [-> | Hne].
  { left. eapply Hrefused; [apply (Check_no_secret ctx md w Hmd Hsec) | | auto].
    intros id; discriminate. }
  destruct (AgentSecretToUserId w !! secret) as [userId |] eqn:Hsome.
  2: { left. eapply Hrefused;
         [apply (Check_unknown_secret ctx md w secret Hmd Hsec Hne Hsome) | | auto].
       intros id; discriminate. }
  destruct (mdValue_cases md "client_uuid") as [[uuid Huuid] | Hpanic].
  2: { left. eapply Hrefused;
         [apply (Check_uuid_panics ctx md w secret userId Hmd Hsec Hne Hsome Hpanic)
         | | auto].
       intros id; discriminate. }
  pose proof (Check_authenticated ctx md w secret userId uuid Hmd Hsec Hne Hsome Huuid)
    as Hout.
  destruct (badUUID uuid) eqn:Hbad.
  { left. eapply Hrefused; [exact Hout | | auto]. intros id; discriminate. }
  right. exists md, secret, userId, uuid.
  repeat split; try assumption.
  - unfold badUUID, isEmpty in Hbad. apply orb_false_iff in Hbad as [He _].
    destruct uuid; [discriminate | cbn; lia].
  - unfold badUUID in Hbad. apply orb_false_iff in Hbad as [_ Hl].
    apply Nat.ltb_ge in Hl. exact Hl.
Qed.

Lemma identify_cases md userId uuid w :
  (exists id, uuidToID (ServerShared w) !! uuid = Some id
              /\ identify md userId uuid w = (Val id, w))
  \/ (uuidToID (ServerShared w) !! uuid = None
      /\ identify md userId uuid w = provision md userId uuid w).
Proof.
  destruct (uuidToID (ServerShared w) !! uuid) as [id |] eqn:H.
  - left. exists id. split; [reflexivity |].
    unfold identify, UUIDToID, bind, get, ret. cbn. rewrite H. reflexivity.
  - right. split; [reflexivity | apply identify_unmapped; exact H].
Qed.

Lemma keeps_announce {X} (f : World -> X) md userId uuid name gid s :
  (forall ss w, f (setServerShared ss w) = f w) ->
  (forall l w, f (setLogged l w) = f w) ->
  keeps f (announce md userId uuid name gid s).
Proof.
  intros Hss Hlog w. unfold announce, logPrintf, Update, bind, modify, ret, mdValue.
  destruct (0 <? gid)%N; [destruct (md !! "server_group_name") as [[| v vs] |] |];
    cbn; rewrite ?Hss, ?Hlog; reflexivity.
Qed.

Lemma keeps_identify {X} (f : World -> X) md userId uuid :
  (forall db w, f (setDB db w) = f w) ->
  (forall l w, f (setPetnames l w) = f w) ->
  (forall ss w, f (setServerShared ss w) = f w) ->
  (forall l w, f (setLogged l w) = f w) ->
  keeps f (identify md userId uuid).
Proof.
  intros Hdb Hpet Hss Hlog. unfold identify, UUIDToID, provision.
  apply keeps_bind; [apply keeps_bind; [apply keeps_get | intros; apply keeps_ret] |].
  intros [id |]; [apply keeps_ret |].
  apply keeps_bind; [apply keeps_prepare; assumption |]. intros p.
  apply keeps_bind;
    [apply keeps_Transaction; [assumption | apply keeps_createRecords; assumption] |].
  intros [e | s']; [apply keeps_fail | apply keeps_announce; assumption].
Qed.

Lemma keeps_Check {X} (f : World -> X) ctx :
  (forall db w, f (setDB db w) = f w) ->
  (forall l w, f (setPetnames l w) = f w) ->
  (forall ss w, f (setServerShared ss w) = f w) ->
  (forall l w, f (setLogged l w) = f w) ->
  (forall b w, f (setBlocklist b w) = f w) ->
  keeps f (RPC.Check ctx).
Proof.
  intros Hdb Hpet Hss Hlog Hb w.
  destruct (Check_shape ctx w)
    as [(r & w' & -> & _ & [-> | [-> | ->]])
       | (md & secret & userId & uuid & _ & _ & _ & _ & _ & _ & ->)];
    try reflexivity; try apply Hb.
  rewrite (keeps_identify f md userId uuid Hdb Hpet Hss Hlog). apply Hb.
Qed.

(** X9: [Check] changes the block status of the address of the caller
    only: whatever the outcome of the call, any other address is on the
    block list afterwards exactly when it was before. *)
Theorem Check_blocks_caller_only (ctx : Ctx) (w : World) (ip : string) :
  ip <> realIP ctx ->
  ip ∈ blocklist (snd (RPC.Check ctx w)) <-> ip ∈ blocklist w.
Proof.
  intros Hother.
  assert (Hb : blocklist (snd (RPC.Check ctx w)) = blocklist w
               \/ blocklist (snd (RPC.Check ctx w)) = {[realIP ctx]} ∪ blocklist w
               \/ blocklist (snd (RPC.Check ctx w)) = blocklist w ∖ {[realIP ctx]}).
  { destruct (Check_shape ctx w)
      as [(r & w' & -> & _ & [-> | [-> | ->]])
         | (md & secret & userId & uuid & _ & _ & _ & _ & _ & _ & ->)].
    - left. reflexivity.
    - right. left. reflexivity.
    - right. right. reflexivity.
    - right. right. rewrite (blocklist_identify md userId uuid). reflexivity. }
  destruct Hb as [-> | [-> | ->]]; [reflexivity | |]; set_solver.
Qed.

End Outcomes.

Section Registrations.
Import GoStrings RPC.

(** X10: whatever its outcome, [Check] leaves the map from secrets to
    accounts, the roles of the accounts and the server groups as they
    were. Either it also leaves the tables and the inventory as they
    were, or it returns the identity of one new row appended to the
    server table, together with at most one membership row, which points
    to that server. No existing row is changed or deleted. *)
Theorem Check_footprint (ctx : Ctx) (w : World) :
  let out := RPC.Check ctx w in
  AgentSecretToUserId (snd out) = AgentSecretToUserId w
  /\ UserInfoMap (snd out) = UserInfoMap w
  /\ server_groups (dbTables (snd out)) = server_groups (dbTables w)
  /\ ((dbTables (snd out) = dbTables w /\ ServerShared (snd out) = ServerShared w)
      \/ (exists s' rows,
            fst out = Val (srv_ID s')
            /\ servers (dbTables (snd out)) = (servers (dbTables w) ++ [s'])%list
            /\ server_group_servers (dbTables (snd out))
               = (server_group_servers (dbTables w) ++ rows)%list
            /\ (length rows <= 1)%nat
            /\ (forall m, In m rows -> sgs_ServerId m = srv_ID s'))).
Proof.
  cbn zeta.
  split; [apply (keeps_Check AgentSecretToUserId); intros; reflexivity |].
  split; [apply (keeps_Check UserInfoMap); intros; reflexivity |].
  assert (Hmain : (dbTables (snd (RPC.Check ctx w)) = dbTables w
                   /\ ServerShared (snd (RPC.Check ctx w)) = ServerShared w)
      \/ (exists s' rows,
            fst (RPC.Check ctx w) = Val (srv_ID s')
            /\ dbTables (snd (RPC.Check ctx w))
               = mkTables (server_groups (dbTables w))
                          (servers (dbTables w) ++ [s'])
                          (server_group_servers (dbTables w) ++ rows)
                          (last_server_id (dbTables (snd (RPC.Check ctx w))))
                          (last_member_id (dbTables (snd (RPC.Check ctx w))))
            /\ (length rows <= 1)%nat
            /\ (forall m, In m rows -> sgs_ServerId m = srv_ID s'))).
  { destruct (Check_shape ctx w)
      as [(r & w' & -> & _ & [-> | [-> | ->]])
         | (md & secret & userId & uuid & _ & _ & _ & _ & _ & _ & ->)];
      try (left; split; reflexivity).
    destruct (identify_cases md userId uuid (unblocked (realIP ctx) w))
      as [(id & _ & ->) | (_ & ->)]; [left; split; reflexivity |].
    destruct (provision_cases md userId uuid (unblocked (realIP ctx) w))
      as [(Ht & Hss & _) | (name & gid & w1 & line & _ & Hval & Ht & _)].
    - left. split; assumption.
    - right. eexists. exists (memberRows (tables (DB w)) userId gid
        (mkServer (N.succ (last_server_id (tables (DB w)))) userId uuid name false)).
      split; [exact Hval |]. unfold dbTables. rewrite Ht. cbn.
      split; [reflexivity |]. unfold memberRows.
      destruct (0 <? gid)%N; cbn; (split; [lia |]).
      + intros m [<- | []]. reflexivity.
      + intros m []. }
  destruct Hmain as [[Ht Hss] | (s' & rows & Hval & Ht & Hlen & Hrows)].
  - split; [rewrite Ht; reflexivity |]. left. split; assumption.
  - split; [rewrite Ht; reflexivity |]. right. exists s', rows.
    rewrite Ht. cbn. repeat split; assumption.
Qed.

Lemma unblocked_twice ip w w' :
  blocklist w' = blocklist w ∖ {[ip]} -> unblocked ip w' = w'.
Proof.
  intros H. destruct w'. unfold unblocked, setBlocklist. cbn in *. f_equal.
  rewrite H. set_solver.
Qed.

(** What a successful call leaves behind. *)
Lemma Check_success ctx w id :
  fst (RPC.Check ctx w) = Val id ->
  exists md secret userId uuid,
    metadata ctx = Some md
    /\ carries md "client_secret" secret /\ secret <> ""
    /\ AgentSecretToUserId w !! secret = Some userId
    /\ carries md "client_uuid" uuid
    /\ (1 <= String.length uuid <= 64)%nat
    /\ uuidToID (ServerShared (snd (RPC.Check ctx w))) !! uuid = Some id
    /\ blocklist (snd (RPC.Check ctx w)) = blocklist w ∖ {[realIP ctx]}
    /\ (forall uuid', uuid' <> uuid ->
          uuidToID (ServerShared (snd (RPC.Check ctx w))) !! uuid'
          = uuidToID (ServerShared w) !! uuid')
    /\ ((uuidToID (ServerShared w) !! uuid = Some id
         /\ snd (RPC.Check ctx w) = unblocked (realIP ctx) w)
        \/ (uuidToID (ServerShared w) !! uuid = None
            /\ id = N.succ (last_server_id (dbTables w))
            /\ last_server_id (dbTables (snd (RPC.Check ctx w))) = id)).
Proof.
  intros Hval.
  destruct (Check_shape ctx w)
    as [(r & w' & Hout & Hno & _)
       | (md & secret & userId & uuid & Hmd & Hsec & Hne & Hsome & Huuid & Hlen & Hout)].
  { rewrite Hout in Hval. cbn in Hval. destruct (Hno id Hval). }
  exists md, secret, userId, uuid.
  do 6 (split; [assumption |]).
  rewrite Hout in *. rewrite (blocklist_identify md userId uuid).
  destruct (identify_cases md userId uuid (unblocked (realIP ctx) w))
    as [(id' & Hmapped & Heq) | (Hfresh & Heq)]; rewrite Heq in *.
  - cbn in Hval. injection Hval as ->. cbn [snd].
    split; [exact Hmapped |]. split; [reflexivity |].
    split; [reflexivity |]. left. split; [exact Hmapped | reflexivity].
  - destruct (provision_cases md userId uuid (unblocked (realIP ctx) w))
      as [(_ & _ & _ & Hno) | (name & gid & w1 & line & _ & Hv & Ht & Hss & _)].
    { destruct (Hno id Hval). }
    rewrite Hv in Hval. cbn in Hval. injection Hval as <-.
    rewrite Hss. cbn.
    split; [apply lookup_insert_eq |]. split; [reflexivity |].
    split; [intros uuid' Hother; apply lookup_insert_ne; congruence |].
    right. split; [exact Hfresh |]. split; [reflexivity |].
    unfold dbTables. rewrite Ht. reflexivity.
Qed.

(** X11: a call that [Check] accepts can be repeated. Made again in the
    world that the first call left, the same call returns the same
    identity and changes nothing: a first contact registers one record,
    and every later contact finds it. *)
Theorem Check_repeated (ctx : Ctx) (w : World) (id : N) :
  fst (RPC.Check ctx w) = Val id ->
  RPC.Check ctx (snd (RPC.Check ctx w)) = (Val id, snd (RPC.Check ctx w)).
Proof.
  intros Hval.
  destruct (Check_success ctx w id Hval)
    as (md & secret & userId & uuid & Hmd & Hsec & Hne & Hsome & Huuid & Hlen
        & Hmapped & Hblock & _).
  set (w' := snd (RPC.Check ctx w)) in *.
  assert (Hsome' : AgentSecretToUserId w' !! secret = Some userId).
  { unfold w'. rewrite (keeps_Check AgentSecretToUserId ctx) by (intros; reflexivity).
    exact Hsome. }
  rewrite (Check_authenticated ctx md w' secret userId uuid Hmd Hsec Hne Hsome' Huuid).
  rewrite (badUUID_false uuid Hlen).
  rewrite (unblocked_twice (realIP ctx) w w' Hblock).
  destruct (identify_cases md userId uuid w') as [(id' & Hm & ->) | (Hfresh & _)];
    congruence.
Qed.

Lemma Check_coherent ctx w : coherent w -> coherent (snd (RPC.Check ctx w)).
Proof.
  intros [Hissued Hdistinct].
  destruct (Check_shape ctx w)
    as [(r & w' & -> & _ & [-> | [-> | ->]])
       | (md & secret & userId & uuid & _ & _ & _ & _ & _ & _ & ->)];
    try (split; assumption).
  destruct (identify_cases md userId uuid (unblocked (realIP ctx) w))
    as [(id & _ & ->) | (Hfresh & ->)]; [split; assumption |].
  destruct (provision_cases md userId uuid (unblocked (realIP ctx) w))
    as [(Ht & Hss & _) | (name & gid & w1 & line & _ & _ & Ht & Hss & _)].
  - split; unfold dbTables; rewrite ?Ht, Hss; assumption.
  - cbn [srv_ID] in *. split; unfold dbTables; rewrite ?Ht, Hss; cbn.
    + intros u i Hu. destruct (decide (u = uuid)) as [-> | Hother].
      * rewrite lookup_insert_eq in Hu. injection Hu as <-. lia.
      * rewrite lookup_insert_ne in Hu by congruence.
        specialize (Hissued u i Hu). unfold dbTables in Hissued. cbn in Hissued. lia.
    + intros u u' i Hu Hu'.
      assert (Hold : forall x j, uuidToID (ServerShared w) !! x = Some j ->
                                 j <> N.succ (last_server_id (tables (DB w)))).
      { intros x j Hx. specialize (Hissued x j Hx). unfold dbTables in Hissued. lia. }
      destruct (decide (u = uuid)) as [-> | Hother];
        destruct (decide (u' = uuid)) as [-> | Hother']; [reflexivity | | |].
      * rewrite lookup_insert_eq in Hu. injection Hu as <-.
        rewrite lookup_insert_ne in Hu' by congruence.
        destruct (Hold u' _ Hu' eq_refl).
      * rewrite lookup_insert_eq in Hu'. injection Hu' as <-.
        rewrite lookup_insert_ne in Hu by congruence.
        destruct (Hold u _ Hu eq_refl).
      * rewrite lookup_insert_ne in Hu, Hu' by congruence.
        exact (Hdistinct u u' i Hu Hu').
Qed.

(** X12: [Check] keeps the Identity Cache coherent with the server
    table. If every mapped identity had been issued by the counter of
    the table and no two UUIDs shared an identity before the call, the
    same holds after it; and an identity that the call returns has been
    issued and is the one of a mapped UUID. *)
Theorem Check_keeps_coherent (ctx : Ctx) (w : World) :
  coherent w ->
  coherent (snd (RPC.Check ctx w))
  /\ (forall id, fst (RPC.Check ctx w) = Val id ->
        (id <= last_server_id (dbTables (snd (RPC.Check ctx w))))%N
        /\ exists uuid, uuidToID (ServerShared (snd (RPC.Check ctx w))) !! uuid = Some id).
Proof.
  intros Hco. split; [apply Check_coherent; exact Hco |].
  intros id Hval.
  destruct (Check_success ctx w id Hval)
    as (md & secret & userId & uuid & _ & _ & _ & _ & _ & _ & Hmapped & _).
  split; [| exists uuid; exact Hmapped].
  apply (issued _ (Check_coherent ctx w Hco) uuid). exact Hmapped.
Qed.

(** X13: two agents that present different UUIDs, once trimmed, are
    given different identities: if [Check] accepts a call and then, in
    the world it left, a call with another UUID, the two identities
    differ, provided the Identity Cache was coherent to begin with. *)
Theorem distinct_agents_distinct_identities (ctx1 ctx2 : Ctx)
        (md1 md2 : gmap string (list string)) (uuid1 uuid2 : string)
        (id1 id2 : N) (w : World) :
  coherent w ->
  metadata ctx1 = Some md1 -> carries md1 "client_uuid" uuid1 ->
  metadata ctx2 = Some md2 -> carries md2 "client_uuid" uuid2 ->
  uuid1 <> uuid2 ->
  fst (RPC.Check ctx1 w) = Val id1 ->
  fst (RPC.Check ctx2 (snd (RPC.Check ctx1 w))) = Val id2 ->
  id1 <> id2.
Proof.
  intros Hco Hmd1 Hu1 Hmd2 Hu2 Hne Hv1 Hv2 Heq. subst id2.
  set (w1 := snd (RPC.Check ctx1 w)) in *.
  destruct (Check_success ctx1 w id1 Hv1)
    as (m1 & _ & _ & u1 & Hm1 & _ & _ & _ & Hc1 & _ & Hmap1 & _).
  destruct (Check_success ctx2 w1 id1 Hv2)
    as (m2 & _ & _ & u2 & Hm2 & _ & _ & _ & Hc2 & _ & Hmap2 & _ & Hothers & _).
  assert (m1 = md1) by congruence. assert (m2 = md2) by congruence. subst m1 m2.
  assert (u1 = uuid1).
  { pose proof (Hc1 w) as Ha. pose proof (Hu1 w) as Hb. congruence. }
  assert (u2 = uuid2).
  { pose proof (Hc2 w) as Ha. pose proof (Hu2 w) as Hb. congruence. }
  subst u1 u2. fold w1 in Hmap1.
  pose proof (Check_coherent ctx2 w1 (Check_coherent ctx1 w Hco)) as Hco2.
  apply Hne. apply (distinct _ Hco2 uuid1 uuid2 id1); [| exact Hmap2].
  rewrite Hothers by exact Hne. exact Hmap1.
Qed.

End Registrations.

Section NewRecords.
Import GoStrings RPC.

Lemma prepare_name md userId given w name gid w1 :
  carries md "server_name" given ->
  prepare md userId w = (Val (name, gid), w1) ->
  name = chosenName given w
  /\ petnames w1 = if isEmpty given then tl (petnames w) else petnames w.
Proof.
  intros Hgiven. unfold prepare, chosenName. rewrite bind_eq, (Hgiven w), bind_eq.
  assert (Hgen : (if isEmpty given then Generate else ret given) w
                 = (Val (if isEmpty given then hd "" (petnames w) else given),
                    setPetnames (if isEmpty given then tl (petnames w) else petnames w) w)).
  { destruct (isEmpty given); unfold Generate, ret.
    - destruct (petnames w) eqn:Hp; [| reflexivity].
      destruct w; cbn in *; subst; reflexivity.
    - destruct w; reflexivity. }
  rewrite Hgen, bind_eq.
  pose proof (keeps_resolveGroup petnames md userId (fun _ _ => eq_refl)
                (setPetnames (if isEmpty given then tl (petnames w) else petnames w) w))
    as Hpet.
  destruct (resolveGroup md userId _) as [[g | e |] w2]; try discriminate.
  unfold ret. intros H. injection H as <- <- <-. split; [reflexivity | exact Hpet].
Qed.

(** X14: the record that a successful first contact creates. Its
    identity is the next one of the server table, its owner the account
    of the secret, its UUID the trimmed one; its name is the trimmed
    [server_name] when that is not empty, and the next generated name
    otherwise, the generator being consumed in that case only. The row
    is the last of the server table, the inventory holds it with its
    state initialised, and one line is logged for it. *)
Theorem provisioned_record (ctx : Ctx) (md : gmap string (list string))
        (secret uuid given : string) (userId id : N) (w : World) :
  metadata ctx = Some md ->
  carries md "client_secret" secret ->
  secret <> "" ->
  AgentSecretToUserId w !! secret = Some userId ->
  carries md "client_uuid" uuid ->
  uuidToID (ServerShared w) !! uuid = None ->
  carries md "server_name" given ->
  fst (RPC.Check ctx w) = Val id ->
  let w' := snd (RPC.Check ctx w) in
  let name := chosenName given w in
  id = N.succ (last_server_id (dbTables w))
  /\ servers (dbTables w')
     = (servers (dbTables w) ++ [mkServer id userId uuid name false])%list
  /\ list_ (ServerShared w') !! id = Some (mkServer id userId uuid name true)
  /\ petnames w' = (if isEmpty given then tl (petnames w) else petnames w)
  /\ exists line, logged w' = line :: logged w
                  /\ log_UUID line = uuid /\ log_Name line = name
                  /\ log_UserID line = userId.
Proof.
  intros Hmd Hsec Hne Hsome Huuid Hfresh Hgiven Hval. cbn zeta.
  rewrite (Check_authenticated ctx md w secret userId uuid Hmd Hsec Hne Hsome Huuid)
    in *.
  destruct (badUUID uuid); [discriminate |].
  rewrite identify_unmapped in * by exact Hfresh.
  destruct (provision_cases md userId uuid (unblocked (realIP ctx) w))
    as [(_ & _ & _ & Hno)
       | (name & gid & w1 & line & Hprep & Hv & Ht & Hss & Hpet & Hlog & Hl1 & Hl2 & Hl3)].
  { destruct (Hno id Hval). }
  rewrite Hv in Hval. cbn in Hval. injection Hval as <-.
  destruct (prepare_name md userId given _ name gid w1 Hgiven Hprep) as [-> Hpet1].
  unfold dbTables. rewrite Ht, Hss, Hpet, Hpet1, Hlog. cbn.
  split; [reflexivity |]. split; [reflexivity |].
  split; [apply lookup_insert_eq |]. split; [reflexivity |].
  exists line. repeat split; assumption.
Qed.

End NewRecords.

(** *** The theorems above at concrete calls *)

Section RegistrationExamples.
Import GoStrings RPC Samples.

Lemma fleetWorld_coherent : coherent (fleetWorld []).
Proof.
  split.
  - intros uuid id H. cbn in H. apply lookup_singleton_Some in H as [_ <-].
    vm_compute. discriminate.
  - intros uuid uuid' id H H'. cbn in H, H'.
    apply lookup_singleton_Some in H as [<- _].
    apply lookup_singleton_Some in H' as [<- _]. reflexivity.
Qed.

Lemma Check_panics_only_on_empty_values_witness :
  RPC.Check emptySecret (fleetWorld []) = (Panic, fleetWorld []).
Proof.
  apply (Check_panics_only_on_empty_values emptySecret {[ "client_secret" := [] ]}
           (fleetWorld []) eq_refl).
  reflexivity.
Defined.

Lemma Check_blocks_caller_only_witness :
  "203.0.113.9" ∈ blocklist (snd (RPC.Check wrongSecret (fleetWorld [])))
  <-> "203.0.113.9" ∈ blocklist (fleetWorld []).
Proof.
  apply (Check_blocks_caller_only wrongSecret (fleetWorld []) "203.0.113.9").
  vm_compute. discriminate.
Defined.

Lemma Check_repeated_witness :
  RPC.Check newAgent registered = (Val 8%N, registered).
Proof.
  apply (Check_repeated newAgent (fleetWorld []) 8).
  vm_compute. reflexivity.
Defined.

Lemma Check_keeps_coherent_witness : coherent registered.
Proof.
  apply (Check_keeps_coherent newAgent (fleetWorld []) fleetWorld_coherent).
Defined.

Lemma distinct_agents_distinct_identities_witness :
  fst (RPC.Check newAgent (fleetWorld [])) = Val 8%N
  /\ fst (RPC.Check otherAgent registered) = Val 9%N
  /\ 8%N <> 9%N.
Proof.
  assert (H1 : fst (RPC.Check newAgent (fleetWorld [])) = Val 8%N)
    by (vm_compute; reflexivity).
  assert (H2 : fst (RPC.Check otherAgent registered) = Val 9%N)
    by (vm_compute; reflexivity).
  split; [exact H1 |]. split; [exact H2 |].
  apply (distinct_agents_distinct_identities newAgent otherAgent
           newAgentMD (agentMD "s3cret" "other-agent" "") "new-agent" "other-agent"
           8 9 (fleetWorld []) fleetWorld_coherent eq_refl
           ltac:(intros w; vm_compute; reflexivity) eq_refl
           ltac:(intros w; vm_compute; reflexivity)
           ltac:(discriminate) H1 H2).
Defined.

Lemma provisioned_record_witness :
  list_ (ServerShared registered) !! 8%N
  = Some (mkServer 8 42 "new-agent" "brave-otter" true)
  /\ petnames registered = [].
Proof.
  destruct (provisioned_record newAgent newAgentMD "s3cret" "new-agent" "" 42 8
              (fleetWorld []) eq_refl
              ltac:(intros w; vm_compute; reflexivity)
              ltac:(discriminate) eq_refl
              ltac:(intros w; vm_compute; reflexivity)
              eq_refl
              ltac:(intros w; vm_compute; reflexivity)
              ltac:(vm_compute; reflexivity))
    as (_ & _ & Hlist & Hpet & _).
  split; [exact Hlist | exact Hpet].
Defined.

End RegistrationExamples.

(** ** More on the broadcaster *)

Section Streams.
Import GoTime WS.
Context {Host HostState Addrs Bytes : Type}.
Variable Filter : Host -> Host.
Variable Join : Addrs -> string.
Variable Marshal : @StreamServerData Host HostState -> string + Bytes.

Abbreviation System := (@System Host HostState Addrs Bytes).
Abbreviation step := (step Filter Join Marshal).
Abbreviation run := (run Filter Join Marshal).
Abbreviation snapshot := (snapshot Filter Join).
Abbreviation wf := (wf Filter Join Marshal).

Lemma snapshot_hosts b a (f : @Fleet Host HostState Addrs) :
  map ss_ID (Servers (snapshot b a f)) = map ID (serverList a f)
  /\ map ss_Host (Servers (snapshot b a f))
     = map (fun server => if a then Host_ server else Filter (Host_ server))
           (serverList a f).
Proof.
  unfold WS.snapshot. cbn [Servers]. rewrite !map_map.
  split; apply map_ext; intros server; unfold streamServer;
    destruct (GeoIP_ server); destruct a; reflexivity.
Qed.

(** X15: every snapshot frame written to a connection encodes a value
    that [getServerStat] computed for the privilege class of that
    connection. For a guest, its servers are those of the guest list, in
    order, and every host description has gone through [Filter]; for a
    member, they are those of the full list with their hosts as they
    are. Its time is the Unix time of the computation in milliseconds
    and its count the number of online users then. *)
Theorem guest_frames_filtered (ls : list Label) (s : System) (id : string)
        (c : @Conn Bytes) (payload : Bytes) :
  run ls initial = Some s ->
  conns s !! id = Some c ->
  In (TextMessage payload) (sent c) ->
  exists (d : @StreamServerData Host HostState) (f : @Fleet Host HostState Addrs),
    Marshal d = inr payload
    /\ Now d = wrap64 (unixNow f * 1000)
    /\ Online d = onlineUsers f
    /\ (isMember c = false ->
        map ss_ID (Servers d) = map ID (sortedListForGuest f)
        /\ map ss_Host (Servers d)
           = map (fun server => Filter (Host_ server)) (sortedListForGuest f))
    /\ (isMember c = true ->
        map ss_ID (Servers d) = map ID (sortedList f)
        /\ map ss_Host (Servers d) = map Host_ (sortedList f)).
Proof.
  intros Hrun Hid Hin.
  pose proof (wf_run Filter Join Marshal ls initial s
                (wf_initial Filter Join Marshal) Hrun) as Hwf.
  destruct (wf_frames Filter Join Marshal s Hwf id c payload Hid) as (b & f & Hm).
  { apply list_elem_of_In. exact Hin. }
  exists (snapshot b (isMember c) f), f.
  split; [exact Hm |]. split; [reflexivity |]. split; [reflexivity |].
  destruct (snapshot_hosts b (isMember c) f) as [Hids Hhosts].
  split; intros Hclass; rewrite Hclass in *; split; assumption.
Qed.

Lemma pings_app (l1 l2 : list (@Frame Bytes)) :
  pings (l1 ++ l2) = (pings l1 + pings l2)%nat.
Proof.
  induction l1 as [| [p |] l1 IH]; cbn; [reflexivity | exact IH | rewrite IH; reflexivity].
Qed.

Lemma keptAlive_setPC p (c : @Conn Bytes) :
  keptAlive c -> pc c <> Closed -> keptAlive (setPC p c).
Proof.
  unfold keptAlive. cbn. intros (Hle & Hge & Heq) Hopen.
  specialize (Heq Hopen). repeat split; try lia; intros _; exact Heq.
Qed.

Lemma keptAlive_afterStat v t p (c : @Conn Bytes) :
  keptAlive c -> pc c <> Closed -> keptAlive (afterStat v t p c).
Proof.
  intros Hk Hopen. destruct v as [e | stat]; cbn [afterStat];
    [apply keptAlive_setPC; assumption |].
  destruct (negb t); [apply keptAlive_setPC; assumption |].
  destruct Hk as (Hle & Hge & Heq). specialize (Heq Hopen).
  cbn zeta.
  destruct (Nat.eqb_spec (S (count c) mod 4) 0) as [Hz | Hnz];
    [destruct (negb p) |]; unfold keptAlive; cbn [count sent pc];
    rewrite ?pings_app; cbn [pings];
    pose proof (Nat.div_mod_eq (count c) 4) as H1;
    pose proof (Nat.div_mod_eq (S (count c)) 4) as H2;
    pose proof (Nat.mod_upper_bound (count c) 4 ltac:(lia)) as H3;
    pose proof (Nat.mod_upper_bound (S (count c)) 4 ltac:(lia)) as H4;
    repeat split; try congruence; try lia; intros _; lia.
Qed.

Lemma keptAlive_step l s s' :
  wf s ->
  (forall id c, conns s !! id = Some c -> keptAlive c) ->
  step l s = Some s' ->
  forall id c, conns s' !! id = Some c -> keptAlive c.
Proof.
  intros Hwf Hinv Hstep id c Hid.
  destruct l as [id' member | id' | key f | key | id' t p]; cbn in Hstep.
  - destruct (conns s !! id') eqn:Hfresh; [discriminate |].
    injection Hstep as <-. cbn in Hid. rewrite lookup_insert in Hid.
    destruct (decide (id' = id)) as [-> | Hne]; [| eauto].
    injection Hid as <-. unfold keptAlive. cbn. repeat split; lia.
  - destruct (conns s !! id') as [c0 |] eqn:Hid0; [| discriminate].
    destruct (pc c0) eqn:Hpc; try discriminate.
    assert (Hc : conns s' !! id = Some c ->
                 conns s' = <[id' := setPC (InDo (statsKey (isMember c0))) c0]> (conns s) ->
                 keptAlive c).
    { intros H Heq. rewrite Heq, lookup_insert in H.
      destruct (decide (id' = id)) as [-> | Hne]; [| eauto].
      injection H as <-. apply keptAlive_setPC; [eauto | congruence]. }
    destruct (requestGroup s !! statsKey (isMember c0));
      injection Hstep as <-; apply Hc; [exact Hid | reflexivity | exact Hid | reflexivity].
  - destruct (requestGroup s !! key) as [cl |]; [| discriminate].
    destruct (val cl); [discriminate |].
    injection Hstep as <-. eauto.
  - destruct (requestGroup s !! key) as [cl |] eqn:Hk; [| discriminate].
    destruct (val cl) as [v |]; [| discriminate].
    injection Hstep as <-. cbn in Hid. rewrite resume_lookup in Hid.
    destruct (decide (id ∈ waiting cl)) as [Hin | Hnin]; [| eauto].
    destruct (wf_waiting Filter Join Marshal s Hwf key cl id Hk Hin) as (c0 & Hc0 & Hpc & _).
    rewrite Hc0 in Hid. cbn in Hid. injection Hid as <-.
    apply keptAlive_setPC; [eauto | congruence].
  - destruct (conns s !! id') as [c0 |] eqn:Hid0; [| discriminate].
    destruct (pc c0) eqn:Hpc; try discriminate.
    injection Hstep as <-. cbn in Hid. rewrite lookup_insert in Hid.
    destruct (decide (id' = id)) as [-> | Hne]; [| eauto].
    injection Hid as <-. apply keptAlive_afterStat; [eauto | congruence].
Qed.

Lemma keptAlive_run ls : forall s s',
  wf s ->
  (forall id c, conns s !! id = Some c -> keptAlive c) ->
  run ls s = Some s' ->
  forall id c, conns s' !! id = Some c -> keptAlive c.
Proof.
  induction ls as [| l ls IH]; cbn; intros s s' Hwf Hinv Hrun.
  - injection Hrun as <-. exact Hinv.
  - destruct (WS.step Filter Join Marshal l s) as [s1 |] eqn:Hstep; [| discriminate].
    apply (IH s1 s'); [| | exact Hrun].
    + apply (wf_step Filter Join Marshal s s1 l Hwf Hstep).
    + apply (keptAlive_step l s s1 Hwf Hinv Hstep).
Qed.

(** X16: in every reachable state the counter of a connection is the
    number of snapshots written to it, and while its loop runs the pings
    written to it number a quarter of the snapshots, rounded down: one
    ping has followed every fourth snapshot. A connection whose loop has
    ended may lack the last ping only. *)
Theorem keepalive_every_fourth (ls : list Label) (s : System) (id : string)
        (c : @Conn Bytes) :
  run ls initial = Some s ->
  conns s !! id = Some c ->
  count c = texts (sent c)
  /\ (pc c <> Closed -> pings (sent c) = (texts (sent c) / 4)%nat)
  /\ (pings (sent c) <= texts (sent c) / 4 <= S (pings (sent c)))%nat.
Proof.
  intros Hrun Hid.
  pose proof (wf_run Filter Join Marshal ls initial s
                (wf_initial Filter Join Marshal) Hrun) as Hwf.
  pose proof (wf_count Filter Join Marshal s Hwf id c Hid) as Hcount.
  assert (Hk : keptAlive c).
  { apply (keptAlive_run ls initial s (wf_initial Filter Join Marshal)) with id;
      [| exact Hrun | exact Hid].
    intros id0 c0 H0. unfold initial in H0. cbn in H0.
    rewrite lookup_empty in H0. discriminate. }
  destruct Hk as (Hle & Hge & Heq). rewrite <- Hcount.
  split; [reflexivity |]. split; [exact Heq | lia].
Qed.

(** X17: a connection whose loop has ended on a failed write stays as
    it is: whatever the other connections and the computations do
    afterwards, nothing more is written to it, and neither a request
    for a snapshot nor a write is possible for it. *)
Theorem closed_is_final (ls ls' : list Label) (s s' : System) (id : string)
        (c : @Conn Bytes) :
  run ls initial = Some s ->
  conns s !! id = Some c ->
  pc c = Closed ->
  run ls' s = Some s' ->
  conns s' !! id = Some c
  /\ step (Call id) s' = None
  /\ (forall t p, step (Send id t p) s' = None).
Proof.
  intros Hrun Hid Hpc Hrun'.
  pose proof (wf_run Filter Join Marshal ls initial s
                (wf_initial Filter Join Marshal) Hrun) as Hwf.
  assert (Hkeep : conns s' !! id = Some c).
  { clear Hrun. revert s Hwf Hid Hrun'.
    induction ls' as [| l ls' IH]; cbn; intros s Hwf Hid Hrun'.
    - injection Hrun' as <-. exact Hid.
    - destruct (WS.step Filter Join Marshal l s) as [s1 |] eqn:Hstep; [| discriminate].
      apply (IH s1); [apply (wf_step Filter Join Marshal s s1 l Hwf Hstep) | | exact Hrun'].
      destruct l as [id' member | id' | key f | key | id' t p]; cbn in Hstep.
      + destruct (conns s !! id') eqn:Hfresh; [discriminate |].
        injection Hstep as <-. cbn. rewrite lookup_insert_ne; [exact Hid |].
        intros ->. congruence.
      + destruct (conns s !! id') as [c0 |] eqn:Hid0; [| discriminate].
        destruct (pc c0) eqn:Hpc0; try discriminate.
        assert (Hne : id' <> id) by (intros ->; congruence).
        destruct (requestGroup s !! statsKey (isMember c0));
          injection Hstep as <-; cbn; rewrite lookup_insert_ne; assumption.
      + destruct (requestGroup s !! key) as [cl |]; [| discriminate].
        destruct (val cl); [discriminate |].
        injection Hstep as <-. exact Hid.
      + destruct (requestGroup s !! key) as [cl |] eqn:Hk; [| discriminate].
        destruct (val cl) as [v |]; [| discriminate].
        injection Hstep as <-. cbn. rewrite resume_lookup.
        destruct (decide (id ∈ waiting cl)) as [Hin | Hnin]; [| exact Hid].
        destruct (wf_waiting Filter Join Marshal s Hwf key cl id Hk Hin)
          as (c0 & Hc0 & Hpc0 & _).
        congruence.
      + destruct (conns s !! id') as [c0 |] eqn:Hid0; [| discriminate].
        destruct (pc c0) eqn:Hpc0; try discriminate.
        injection Hstep as <-. cbn. rewrite lookup_insert_ne; [exact Hid |].
        intros ->. congruence. }
  split; [exact Hkeep |]. cbn. rewrite Hkeep, Hpc. repeat split.
Qed.

End Streams.

(** *** The theorems above at a concrete fleet *)

Section StreamExamples.
Import GoTime WS Samples.

Lemma guest_frames_filtered_witness :
  exists (d : @StreamServerData string unit) (f : @Fleet string unit string),
    Marshal d = inr (WS.snapshot Filter Join true false fleet)
    /\ Now d = wrap64 (unixNow f * 1000)
    /\ Online d = onlineUsers f
    /\ (isMember (viewer (afterRun oneRound)) = false ->
        map ss_ID (Servers d) = map ID (sortedListForGuest f)
        /\ map ss_Host (Servers d)
           = map (fun server : @WS.Server string unit string => Filter (Host_ server))
                 (sortedListForGuest f))
    /\ (isMember (viewer (afterRun oneRound)) = true ->
        map ss_ID (Servers d) = map ID (sortedList f)
        /\ map ss_Host (Servers d) = map Host_ (sortedList f)).
Proof.
  apply (guest_frames_filtered Filter Join Marshal oneRound (afterRun oneRound) "c1"
           (viewer (afterRun oneRound)) (WS.snapshot Filter Join true false fleet)).
  - reflexivity.
  - reflexivity.
  - vm_compute. left. reflexivity.
Defined.

Lemma keepalive_every_fourth_witness :
  count (viewer (afterRun fourFrames)) = 4%nat
  /\ pings (sent (viewer (afterRun fourFrames))) = 1%nat.
Proof.
  destruct (keepalive_every_fourth Filter Join Marshal fourFrames (afterRun fourFrames)
              "c1" (viewer (afterRun fourFrames)) eq_refl eq_refl)
    as (Hcount & Hpings & _).
  split.
  - rewrite Hcount. vm_compute. reflexivity.
  - rewrite Hpings; [vm_compute; reflexivity | vm_compute; discriminate].
Defined.

Lemma closed_is_final_witness :
  conns (afterRun (droppedViewer ++ laterSteps)) !! "c1"
  = Some (viewer (afterRun droppedViewer))
  /\ WS.step Filter Join Marshal (Call "c1") (afterRun (droppedViewer ++ laterSteps))
     = None.
Proof.
  destruct (closed_is_final Filter Join Marshal droppedViewer laterSteps
              (afterRun droppedViewer) (afterRun (droppedViewer ++ laterSteps))
              "c1" (viewer (afterRun droppedViewer))
              eq_refl eq_refl eq_refl eq_refl)
    as (Hkeep & Hcall & _).
  split; [exact Hkeep | exact Hcall].
Defined.

End StreamExamples.

(** ** The origin check *)

Section OriginCheck.
Import GoStrings Origin.

Lemma sliceFrom_length n : forall s s',
  sliceFrom n s = Some s' -> (String.length s' + n = String.length s)%nat.
Proof.
  induction n as [| n IH]; intros s s' H.
  - destruct s; injection H as <-; cbn; lia.
  - destruct s as [| c r]; [discriminate |]. cbn in H.
    specialize (IH r s' H). cbn. lia.
Qed.

Lemma sliceFrom_defined n : forall s,
  (n <= String.length s)%nat -> exists s', sliceFrom n s = Some s'.
Proof.
  induction n as [| n IH]; intros s H.
  - exists s. destruct s; reflexivity.
  - destruct s as [| c r]; [cbn in H; lia |]. cbn. apply IH. cbn in H. lia.
Qed.

(** The size that [DecodeRuneInString] returns for a string that is not
    empty is at least one and within the string. *)
Lemma DecodeRuneInString_size c r :
  (1 <= snd (DecodeRuneInString (String c r)) <= String.length (String c r))%nat.
Proof.
  unfold DecodeRuneInString.
  repeat match goal with
         | |- context [if ?b then _ else _] => destruct b
         | |- context [match ?s with EmptyString => _ | String _ _ => _ end] =>
             is_var s; destruct s
         end; cbn [snd String.length]; lia.
Qed.

Lemma foldLoop_step fuel c r d u :
  exists s' t',
    sliceFrom (snd (DecodeRuneInString (String c r))) (String c r) = Some s'
    /\ sliceFrom (snd (DecodeRuneInString (String d u))) (String d u) = Some t'
    /\ (String.length s' < String.length (String c r))%nat
    /\ (String.length t' < String.length (String d u))%nat
    /\ foldLoop (S fuel) (String c r) (String d u)
       = if (fst (DecodeRuneInString (String c r))
             =? fst (DecodeRuneInString (String d u)))
            || (foldRune (fst (DecodeRuneInString (String c r)))
                =? foldRune (fst (DecodeRuneInString (String d u))))
         then foldLoop fuel s' t'
         else Returns false.
Proof.
  pose proof (DecodeRuneInString_size c r) as Hs.
  pose proof (DecodeRuneInString_size d u) as Ht.
  destruct (sliceFrom_defined _ (String c r) (proj2 Hs)) as [s' Hs'].
  destruct (sliceFrom_defined _ (String d u) (proj2 Ht)) as [t' Ht'].
  exists s', t'. split; [exact Hs' |]. split; [exact Ht' |].
  pose proof (sliceFrom_length _ _ _ Hs') as Hl.
  pose proof (sliceFrom_length _ _ _ Ht') as Hl'.
  split; [lia |]. split; [lia |].
  cbn [foldLoop nonEmpty String.eqb negb andb].
  destruct (DecodeRuneInString (String c r)) as [sr n].
  destruct (DecodeRuneInString (String d u)) as [tr m].
  cbn [fst snd] in *. rewrite Hs', Ht'.
  destruct (sr =? tr); [reflexivity |]. cbn [orb].
  destruct (foldRune sr =? foldRune tr); reflexivity.
Qed.

Lemma foldLoop_empty fuel s t :
  s = "" \/ t = "" -> foldLoop fuel s t = Returns (String.eqb s t).
Proof.
  intros H. destruct fuel; cbn;
    destruct H as [-> | ->]; cbn; [| destruct s | | destruct s]; reflexivity.
Qed.

Lemma foldLoop_returns fuel : forall s t,
  (Nat.min (String.length s) (String.length t) <= fuel)%nat ->
  exists b, foldLoop fuel s t = Returns b.
Proof.
  induction fuel as [| fuel IH]; intros s t Hfuel.
  - destruct s as [| c r]; [rewrite foldLoop_empty by auto; eauto |].
    destruct t as [| d u]; [rewrite foldLoop_empty by auto; eauto |].
    cbn in Hfuel. lia.
  - destruct s as [| c r]; [rewrite foldLoop_empty by auto; eauto |].
    destruct t as [| d u]; [rewrite foldLoop_empty by auto; eauto |].
    destruct (foldLoop_step fuel c r d u) as (s' & t' & _ & _ & Hl & Hl' & ->).
    destruct (_ || _); [| eauto].
    apply IH. cbn in *. lia.
Qed.

Lemma foldLoop_fuel f1 : forall f2 s t,
  (Nat.min (String.length s) (String.length t) <= f1)%nat ->
  (Nat.min (String.length s) (String.length t) <= f2)%nat ->
  foldLoop f1 s t = foldLoop f2 s t.
Proof.
  induction f1 as [| f1 IH]; intros f2 s t H1 H2.
  - destruct s as [| c r]; [rewrite !foldLoop_empty by auto; reflexivity |].
    destruct t as [| d u]; [rewrite !foldLoop_empty by auto; reflexivity |].
    cbn in H1. lia.
  - destruct s as [| c r]; [rewrite !foldLoop_empty by auto; reflexivity |].
    destruct t as [| d u]; [rewrite !foldLoop_empty by auto; reflexivity |].
    destruct f2 as [| f2]; [cbn in H2; lia |].
    destruct (foldLoop_step f1 c r d u) as (s' & t' & Hs & Ht & Hl & Hl' & ->).
    destruct (foldLoop_step f2 c r d u) as (s2 & t2 & Hs2 & Ht2 & _ & _ & ->).
    assert (s2 = s') by congruence. assert (t2 = t') by congruence. subst.
    destruct (_ || _); [| reflexivity].
    apply IH; cbn in *; lia.
Qed.

Lemma eqb_string_sym s t : String.eqb s t = String.eqb t s.
Proof.
  destruct (String.eqb_spec s t) as [-> | Hne].
  - symmetry. apply String.eqb_refl.
  - symmetry. apply String.eqb_neq. congruence.
Qed.

Lemma foldLoop_sym fuel : forall s t, foldLoop fuel s t = foldLoop fuel t s.
Proof.
  induction fuel as [| fuel IH]; intros s t.
  - cbn. rewrite andb_comm, eqb_string_sym. reflexivity.
  - destruct s as [| c r]; [rewrite !foldLoop_empty by auto; f_equal; apply eqb_string_sym |].
    destruct t as [| d u]; [rewrite !foldLoop_empty by auto; f_equal; apply eqb_string_sym |].
    destruct (foldLoop_step fuel c r d u) as (s' & t' & Hs & Ht & _ & _ & ->).
    destruct (foldLoop_step fuel d u c r) as (t2 & s2 & Ht2 & Hs2 & _ & _ & ->).
    assert (s2 = s') by congruence. assert (t2 = t') by congruence. subst.
    rewrite (Z.eqb_sym (fst (DecodeRuneInString (String d u)))).
    rewrite (Z.eqb_sym (foldRune (fst (DecodeRuneInString (String d u))))).
    rewrite IH. reflexivity.
Qed.

Lemma foldLoop_refl fuel : forall s,
  (String.length s <= fuel)%nat -> foldLoop fuel s s = Returns true.
Proof.
  induction fuel as [| fuel IH]; intros s Hfuel.
  - destruct s; [reflexivity | cbn in Hfuel; lia].
  - destruct s as [| c r]; [reflexivity |].
    destruct (foldLoop_step fuel c r c r) as (s' & t' & Hs & Ht & Hl & _ & ->).
    assert (t' = s') by congruence. subst.
    rewrite Z.eqb_refl. cbn [orb]. apply IH. cbn in *. lia.
Qed.

(** X18: [equalASCIIFold] returns for all byte strings, well-formed
    UTF-8 or not: its slices never go out of range and its loop ends.
    Its answer does not depend on the order of its arguments, every
    string equals itself, and only the empty string equals the empty
    string. *)
Theorem equalASCIIFold_returns (s t : string) :
  (exists b, equalASCIIFold s t = Returns b)
  /\ equalASCIIFold t s = equalASCIIFold s t
  /\ equalASCIIFold s s = Returns true
  /\ (equalASCIIFold s "" = Returns true <-> s = "").
Proof.
  unfold equalASCIIFold. split; [apply foldLoop_returns; lia |].
  split; [rewrite foldLoop_sym; apply foldLoop_fuel; lia |].
  split; [apply foldLoop_refl; lia |].
  rewrite foldLoop_empty by auto.
  destruct s; cbn; split; intros H; try reflexivity; discriminate.
Qed.

Lemma byteVal_inj a b : byteVal a = byteVal b -> a = b.
Proof.
  unfold byteVal. intros H.
  rewrite <- (ascii_N_embedding a), <- (ascii_N_embedding b), H. reflexivity.
Qed.

Lemma byteVal_lowerByte a :
  (byteVal a < 128)%N ->
  Z.of_N (byteVal (lowerByte a)) = foldRune (Z.of_N (byteVal a)).
Proof.
  intros Hlt. unfold lowerByte, isUpperByte, foldRune.
  destruct (N.leb_spec 65 (byteVal a)); destruct (N.leb_spec (byteVal a) 90);
    destruct (Z.leb_spec 65 (Z.of_N (byteVal a)));
    destruct (Z.leb_spec (Z.of_N (byteVal a)) 90); cbn [andb]; try lia.
  unfold byteVal at 1. rewrite N_ascii_embedding by lia. lia.
Qed.

Lemma DecodeRuneInString_ascii c r :
  (byteVal c < 128)%N ->
  DecodeRuneInString (String c r) = (Z.of_N (byteVal c), 1%nat).
Proof.
  intros Hlt. unfold DecodeRuneInString, first.
  apply N.ltb_lt in Hlt. rewrite Hlt. reflexivity.
Qed.

Lemma foldLoop_ascii fuel : forall s t,
  (Nat.min (String.length s) (String.length t) <= fuel)%nat ->
  isASCII s = true -> isASCII t = true ->
  foldLoop fuel s t
  = Returns (String.eqb (mapBytes lowerByte s) (mapBytes lowerByte t)).
Proof.
  induction fuel as [| fuel IH]; intros s t Hfuel Hs Ht.
  - destruct s as [| c r]; [rewrite foldLoop_empty by auto; destruct t; reflexivity |].
    destruct t as [| d u]; [rewrite foldLoop_empty by auto; reflexivity |].
    cbn in Hfuel. lia.
  - destruct s as [| c r]; [rewrite foldLoop_empty by auto; destruct t; reflexivity |].
    destruct t as [| d u]; [rewrite foldLoop_empty by auto; reflexivity |].
    cbn [isASCII] in Hs, Ht.
    apply andb_true_iff in Hs as [Hc Hr]. apply andb_true_iff in Ht as [Hd Hu].
    apply N.ltb_lt in Hc, Hd.
    destruct (foldLoop_step fuel c r d u) as (s' & t' & Hs' & Ht' & _ & _ & ->).
    rewrite (DecodeRuneInString_ascii c r Hc) in *.
    rewrite (DecodeRuneInString_ascii d u Hd) in *.
    cbn [fst snd sliceFrom] in *.
    injection Hs' as <-. injection Ht' as <-.
    cbn [mapBytes String.eqb].
    rewrite <- !byteVal_lowerByte by assumption.
    destruct (Ascii.eqb_spec (lowerByte c) (lowerByte d)) as [Heq | Hne].
    + rewrite Heq, Z.eqb_refl, orb_true_r. apply IH; [cbn in Hfuel; lia | |]; assumption.
    + assert (Hz : (Z.of_N (byteVal (lowerByte c)) =? Z.of_N (byteVal (lowerByte d))) = false).
      { apply Z.eqb_neq. intros H. apply Hne, byteVal_inj. lia. }
      rewrite Hz, orb_false_r.
      destruct (Z.eqb_spec (Z.of_N (byteVal c)) (Z.of_N (byteVal d))) as [H | _];
        [| reflexivity].
      exfalso. apply Hne. f_equal. apply byteVal_inj. lia.
Qed.

Variable Parse : string -> string + URL.

(** X19: [checkSameOrigin] accepts a request that carries no [Origin]
    header and refuses one whose first [Origin] value does not parse.
    When that value parses and both its host and the [Host] of the
    request are ASCII, the request is accepted exactly when the two
    hosts are equal once their upper-case letters are lowered. *)
Theorem checkSameOrigin_ascii_hosts (r : Request) :
  (Header_Origin r = [] -> checkSameOrigin Parse r = Returns true)
  /\ (forall origin0 rest e,
        Header_Origin r = origin0 :: rest -> Parse origin0 = inl e ->
        checkSameOrigin Parse r = Returns false)
  /\ (forall origin0 rest u,
        Header_Origin r = origin0 :: rest -> Parse origin0 = inr u ->
        isASCII (url_Host u) = true -> isASCII (Host r) = true ->
        checkSameOrigin Parse r
        = Returns (String.eqb (mapBytes lowerByte (url_Host u))
                              (mapBytes lowerByte (Host r)))).
Proof.
  unfold checkSameOrigin. split; [intros ->; reflexivity |]. split.
  - intros origin0 rest e -> ->. reflexivity.
  - intros origin0 rest u -> -> Hu Hr. apply foldLoop_ascii; [lia | |]; assumption.
Qed.

(** X20: outside ASCII the comparison is coarser than equality up to
    case: two bytes that start no UTF-8 encoding both decode to the
    replacement rune and are skipped as equal, so that two hosts that
    differ in such bytes only compare equal. *)
Theorem stray_bytes_compare_equal (a b : ascii) (s t : string) :
  strayByte a -> strayByte b ->
  equalASCIIFold (String a s) (String b t) = equalASCIIFold s t.
Proof.
  unfold strayByte. intros Ha Hb. unfold equalASCIIFold.
  destruct (foldLoop_step (String.length s) a s b t) as (s' & t' & Hs & Ht & _ & _ & Heq).
  cbn [String.length]. rewrite Heq. clear Heq.
  assert (Hda : DecodeRuneInString (String a s) = (RuneError, 1%nat))
    by (unfold DecodeRuneInString; rewrite Ha; reflexivity).
  assert (Hdb : DecodeRuneInString (String b t) = (RuneError, 1%nat))
    by (unfold DecodeRuneInString; rewrite Hb; reflexivity).
  rewrite Hda, Hdb in *. cbn [fst snd sliceFrom] in *.
  injection Hs as <-. injection Ht as <-. reflexivity.
Qed.

End OriginCheck.

Section OriginExamples.
Import GoStrings Origin.

Lemma stray_bytes_compare_equal_witness :
  equalASCIIFold (String (ascii_of_N 255) "example.org")
                 (String (ascii_of_N 254) "example.org")
  = Returns true.
Proof.
  rewrite (stray_bytes_compare_equal (ascii_of_N 255) (ascii_of_N 254)
             "example.org" "example.org");
    reflexivity.
Defined.

End OriginExamples.

(** ** The agent side *)

Section Runes.
Import GoStrings Origin.

Lemma lor_lower a b : 0 <= a -> 0 <= b -> a <= Z.lor a b /\ b <= Z.lor a b.
Proof.
  intros Ha Hb. pose proof (Z.add_lor_land a b) as Hadd.
  assert (Hl : 0 <= Z.land a b) by (apply Z.land_nonneg; auto).
  assert (Hla : Z.land a b <= a).
  { rewrite <- (Z2N.id a Ha), <- (Z2N.id b Hb), <- N2Z.inj_land.
    apply N2Z.inj_le, N.land_le_l. }
  assert (Hlb : Z.land a b <= b).
  { rewrite <- (Z2N.id a Ha), <- (Z2N.id b Hb), <- N2Z.inj_land.
    apply N2Z.inj_le, N.land_le_r. }
  lia.
Qed.

Lemma bits_nonneg m b : 0 <= bits m b.
Proof. unfold bits. lia. Qed.

Lemma bits_mod k m b : m = N.ones k -> bits m b = Z.of_N (b mod 2 ^ k).
Proof. intros ->. unfold bits. rewrite N.land_ones. reflexivity. Qed.

Lemma shiftl_bits m b k : 0 <= k -> Z.shiftl (bits m b) k = bits m b * 2 ^ k.
Proof. intros Hk. apply Z.shiftl_mul_pow2. exact Hk. Qed.

(** A lower bound for the runes assembled from several bytes. *)
Lemma lor_above (n a b : Z) :
  0 <= a -> 0 <= b -> (n <= a \/ n <= b) -> n <= Z.lor a b.
Proof.
  intros Ha Hb H. destruct (lor_lower a b Ha Hb). lia.
Qed.

(** [DecodeRuneInString] returns an ASCII byte as it is, with size one,
    and a rune of 128 at least in every other case. *)
Lemma DecodeRuneInString_cases c r :
  (byteVal c < 128)%N
  /\ DecodeRuneInString (String c r) = (Z.of_N (byteVal c), 1%nat)
  \/ 128 <= fst (DecodeRuneInString (String c r)).
Proof.
  destruct (N.ltb_spec (byteVal c) 128) as [Hlt | Hge].
  { left. split; [exact Hlt |]. unfold DecodeRuneInString, first.
    apply N.ltb_lt in Hlt. rewrite Hlt. reflexivity. }
  right. unfold DecodeRuneInString. cbv zeta. unfold first.
  pose proof (N.mod_lt (byteVal c) 32 ltac:(discriminate)) as Hm32.
  pose proof (N.div_mod' (byteVal c) 32) as Hd32.
  pose proof (N.mod_lt (byteVal c) 16 ltac:(discriminate)) as Hm16.
  pose proof (N.div_mod' (byteVal c) 16) as Hd16.
  pose proof (N.mod_lt (byteVal c) 8 ltac:(discriminate)) as Hm8.
  pose proof (N.div_mod' (byteVal c) 8) as Hd8.
  repeat match goal with
         | |- context [(byteVal c <? ?k)%N] => destruct (N.ltb_spec (byteVal c) k)
         | |- context [(byteVal c =? ?k)%N] => destruct (N.eqb_spec (byteVal c) k)
         end; try lia.
  all: repeat match goal with
         | |- context [N.to_nat (N.land ?x 7)] =>
             let v := eval vm_compute in (N.to_nat (N.land x 7)) in
             change (N.to_nat (N.land x 7)) with v
         | |- context [acceptRanges (N.shiftr ?x 4)] =>
             let v := eval vm_compute in (acceptRanges (N.shiftr x 4)) in
             change (acceptRanges (N.shiftr x 4)) with v
         | |- context [(240 <=? ?x)%N] =>
             let v := eval vm_compute in (240 <=? x)%N in
             change (240 <=? x)%N with v
         | |- context [N.testbit ?x 0] =>
             let v := eval vm_compute in (N.testbit x 0) in
             change (N.testbit x 0) with v
         end; cbn [fst snd Nat.leb]; cbv iota.
  all: try (unfold RuneError; lia).
  all: repeat match goal with
              | |- context [if ?b then _ else _] =>
                  let H := fresh "Hc" in destruct b eqn:H
              | |- context [match ?s with EmptyString => _ | String _ _ => _ end] =>
                  is_var s; destruct s
              end; cbn [fst]; try (unfold RuneError; lia).
  all: repeat match goal with
              | H : (_ || _)%bool = false |- _ => apply orb_false_iff in H as [? ?]
              | H : (_ <? _)%N = false |- _ => apply N.ltb_ge in H
              end.
  all: rewrite ?shiftl_bits by lia;
       rewrite ?(bits_mod 5 31), ?(bits_mod 4 15), ?(bits_mod 3 7), ?(bits_mod 6 63)
         by reflexivity.
  all: change (2 ^ 5)%N with 32%N in *; change (2 ^ 4)%N with 16%N in *;
       change (2 ^ 3)%N with 8%N in *; change (2 ^ 6)%N with 64%N in *.
  all: repeat match goal with
              | |- context [(byteVal ?a mod 64)%N] =>
                  lazymatch goal with
                  | _ : (byteVal a mod 64 < 64)%N |- _ => fail
                  | _ => pose proof (N.mod_lt (byteVal a) 64 ltac:(discriminate));
                         pose proof (N.div_mod' (byteVal a) 64)
                  end
              end.
  all: repeat match goal with
              | H : context [(?x mod ?k)%N] |- _ =>
                  let m := fresh "m" in set (m := (x mod k)%N) in *; clearbody m
              | H : context [(?x / ?k)%N] |- _ =>
                  let q := fresh "q" in set (q := (x / k)%N) in *; clearbody q
              end.
  all: repeat (apply lor_above;
               [repeat (apply Z.lor_nonneg; split); lia
               | lia
               | first [right; lia | left]]).
  all: try lia.
Qed.

End Runes.

Section Identifiers.
Import GoStrings Origin Agent.

Lemma isHostRune_byte c :
  (byteVal c < 128)%N -> isHostRune (Z.of_N (byteVal c)) = isHostByte c.
Proof.
  intros _. unfold isHostRune, isHostByte, isAlnum, inRange, isByte.
  repeat match goal with
         | |- context [(?a <=? ?b)%N] => destruct (N.leb_spec a b)
         | |- context [(?a =? ?b)%N] => destruct (N.eqb_spec a b)
         | |- context [(?a <=? ?b)%Z] => destruct (Z.leb_spec a b)
         | |- context [(?a =? ?b)%Z] => destruct (Z.eqb_spec a b)
         end; cbn; try reflexivity; lia.
Qed.

Lemma isHostRune_small r : isHostRune r = true -> r < 128.
Proof.
  unfold isHostRune. intros H.
  repeat match type of H with
         | context [(?a <=? ?b)%Z] => destruct (Z.leb_spec a b)
         | context [(?a =? ?b)%Z] => destruct (Z.eqb_spec a b)
         end; cbn in H; try discriminate; lia.
Qed.

Lemma allBytes_app p s t :
  allBytes p (String.append s t) = allBytes p s && allBytes p t.
Proof.
  induction s as [| a s IH]; simpl; [reflexivity |]. rewrite IH, andb_assoc. reflexivity.
Qed.

Lemma length_append s t :
  String.length (String.append s t) = (String.length s + String.length t)%nat.
Proof. induction s as [| a s IH]; simpl; [reflexivity | rewrite IH; reflexivity]. Qed.

Lemma sliceTo_defined n : forall s,
  (n <= String.length s)%nat ->
  exists p, sliceTo n s = Some p /\ String.length p = n.
Proof.
  induction n as [| n IH]; intros s H.
  - exists "". destruct s; split; reflexivity.
  - destruct s as [| a s]; [cbn in H; lia |].
    destruct (IH s) as (p & Hp & Hl); [cbn in H; lia |].
    exists (String a p). cbn. rewrite Hp, Hl. split; reflexivity.
Qed.

Lemma sliceTo_short n : forall s,
  (String.length s < n)%nat -> sliceTo n s = None.
Proof.
  induction n as [| n IH]; intros s H; [lia |].
  destruct s as [| a s]; [reflexivity |]. cbn. rewrite IH; [reflexivity |].
  cbn in H. lia.
Qed.

Lemma sliceTo_allBytes p n : forall s q,
  sliceTo n s = Some q -> allBytes p s = true -> allBytes p q = true.
Proof.
  induction n as [| n IH]; intros s q H Hs.
  - destruct s; injection H as <-; reflexivity.
  - destruct s as [| a s]; [discriminate |]. cbn in H.
    destruct (sliceTo n s) as [q' |] eqn:Hq; [| discriminate].
    injection H as <-. cbn in *. apply andb_true_iff in Hs as [Ha Hs].
    rewrite Ha. apply (IH s q' Hq Hs).
Qed.

(** One iteration of [replaceAll]: a byte of the class is copied, any
    other rune becomes a hyphen. *)
Lemma replaceAll_step fuel c r :
  exists (out : ascii) rest,
    replaceAll (S fuel) (String c r) = String out (replaceAll fuel rest)
    /\ isHostByte out = true
    /\ (String.length rest < String.length (String c r))%nat
    /\ (isHostByte c = true -> out = c /\ rest = r).
Proof.
  cbn [replaceAll].
  pose proof (DecodeRuneInString_size c r) as Hsize.
  destruct (sliceFrom_defined _ (String c r) (proj2 Hsize)) as [rest Hrest].
  pose proof (sliceFrom_length _ _ _ Hrest) as Hlen.
  destruct (sliceTo_defined _ (String c r) (proj2 Hsize)) as (this & Hthis & _).
  destruct (DecodeRuneInString_cases c r) as [[Hlt Hdec] | Hbig].
  - rewrite Hdec in *. cbn [fst snd sliceTo sliceFrom] in *.
    injection Hrest as <-. clear Hthis.
    rewrite (isHostRune_byte c Hlt).
    destruct (isHostByte c) eqn:Hc.
    + exists c, r. simpl. repeat split; auto.
    + exists "-"%char, r. simpl. repeat split; auto. discriminate.
  - destruct (DecodeRuneInString (String c r)) as [rn size] eqn:Hdec.
    cbn [fst snd] in *. rewrite Hrest, Hthis.
    assert (Hno : isHostRune rn = false).
    { destruct (isHostRune rn) eqn:H; [| reflexivity].
      apply isHostRune_small in H. lia. }
    rewrite Hno. exists "-"%char, rest. simpl.
    split; [reflexivity |]. split; [reflexivity |].
    split; [cbn [String.length] in *; lia |].
    intros Hc. exfalso.
    destruct (DecodeRuneInString_cases c r) as [[Hlt Hd] | _].
    + rewrite Hd in Hdec. injection Hdec as <- <-. lia.
    + assert (Hlt : (byteVal c < 128)%N).
      { unfold isHostByte, isAlnum, inRange, isByte in Hc.
        repeat match type of Hc with
               | context [(?a <=? ?b)%N] => destruct (N.leb_spec a b)
               | context [(?a =? ?b)%N] => destruct (N.eqb_spec a b)
               end; cbn in Hc; try discriminate; lia. }
      rewrite (DecodeRuneInString_ascii c r Hlt) in Hdec.
      injection Hdec as <- <-. lia.
Qed.

Lemma replaceAll_facts fuel : forall s,
  (String.length s <= fuel)%nat ->
  allBytes isHostByte (replaceAll fuel s) = true
  /\ (String.length (replaceAll fuel s) <= String.length s)%nat
  /\ (s <> "" -> replaceAll fuel s <> "")
  /\ (allBytes isHostByte s = true -> replaceAll fuel s = s).
Proof.
  induction fuel as [| fuel IH]; intros s Hfuel.
  - destruct s; [| cbn in Hfuel; lia]. cbn. repeat split; auto.
  - destruct s as [| c r]; [cbn; repeat split; auto |].
    destruct (replaceAll_step fuel c r) as (out & rest & -> & Hout & Hlen & Hkeep).
    destruct (IH rest) as (Hall & Hle & _ & Hid); [cbn in *; lia |].
    split; [cbn; rewrite Hout; exact Hall |].
    split; [cbn in *; lia |].
    split; [discriminate |].
    intros Hs. cbn in Hs. apply andb_true_iff in Hs as [Hc Hr].
    destruct (Hkeep Hc) as [-> ->]. rewrite (Hid Hr). reflexivity.
Qed.

Lemma allBytes_weaken (p q : ascii -> bool) s :
  (forall a, p a = true -> q a = true) -> allBytes p s = true -> allBytes q s = true.
Proof.
  intros Hpq. induction s as [| a s IH]; cbn; [reflexivity |].
  intros H. apply andb_true_iff in H as [Ha Hs]. rewrite (Hpq a Ha). auto.
Qed.

Lemma isHostByte_isIDByte a : isHostByte a = true -> isIDByte a = true.
Proof.
  unfold isHostByte, isIDByte. intros H. apply orb_true_iff in H as [H | H];
    rewrite H; [reflexivity | apply orb_true_r].
Qed.

Lemma sanitizeHostname_facts hostname :
  hostname <> "" ->
  (1 <= String.length (sanitizeHostname hostname) <= 60)%nat
  /\ allBytes isHostByte (sanitizeHostname hostname) = true
  /\ isValidClientID (sanitizeHostname hostname) = true.
Proof.
  intros Hne.
  destruct (replaceAll_facts (String.length hostname) hostname (le_n _))
    as (Hall & Hle & Hnon & Hid).
  specialize (Hnon Hne).
  assert (Hmain : (1 <= String.length (sanitizeHostname hostname) <= 60)%nat
                  /\ allBytes isHostByte (sanitizeHostname hostname) = true).
  { unfold sanitizeHostname.
    destruct (Nat.ltb_spec 60 (String.length (replaceAll (String.length hostname) hostname)))
      as [Hlong | Hshort].
    - destruct (sliceTo_defined 60 (replaceAll (String.length hostname) hostname))
        as (p & Hp & Hl); [lia |].
      rewrite Hp. split; [lia |]. apply (sliceTo_allBytes _ _ _ _ Hp Hall).
    - split; [| exact Hall].
      destruct (replaceAll (String.length hostname) hostname); [congruence | cbn in *; lia]. }
  destruct Hmain as [Hlen Hhost].
  split; [exact Hlen |]. split; [exact Hhost |].
  unfold isValidClientID.
  rewrite (allBytes_weaken isHostByte isIDByte _ isHostByte_isIDByte Hhost).
  destruct (sanitizeHostname hostname); [cbn in Hlen; lia | reflexivity].
Qed.

Lemma Validate_valid id c :
  isValidClientID id = true -> (String.length id <= 64)%nat ->
  Validate (setClientID id c) = None.
Proof.
  intros Hv Hl. unfold Validate. cbn [ClientID setClientID]. rewrite Hv.
  destruct (nonEmpty id); [| reflexivity].
  destruct (Nat.ltb_spec 64 (String.length id)); [lia | reflexivity].
Qed.

(** X21: for every host name that is not empty, well-formed UTF-8 or
    not, [sanitizeHostname] returns an identifier of 1 to 60 bytes made
    of letters, digits and hyphens only, which [isValidClientID] and
    [Validate] accept. A host name of at most 60 such bytes is returned
    as it is. *)
Theorem sanitizeHostname_valid (hostname : string) :
  hostname <> "" ->
  let id := sanitizeHostname hostname in
  (1 <= String.length id <= 60)%nat
  /\ allBytes isHostByte id = true
  /\ isValidClientID id = true
  /\ (forall c, Validate (setClientID id c) = None)
  /\ (allBytes isHostByte hostname = true -> (String.length hostname <= 60)%nat ->
      id = hostname).
Proof.
  intros Hne. cbn zeta.
  destruct (sanitizeHostname_facts hostname Hne) as (Hlen & Hhost & Hvalid).
  split; [exact Hlen |]. split; [exact Hhost |]. split; [exact Hvalid |]. split.
  - intros c. apply Validate_valid; [exact Hvalid | lia].
  - intros Hclean Hshort. unfold sanitizeHostname.
    destruct (replaceAll_facts (String.length hostname) hostname (le_n _))
      as (_ & _ & _ & Hid).
    rewrite (Hid Hclean).
    destruct (Nat.ltb_spec 60 (String.length hostname)); [lia | reflexivity].
Qed.

End Identifiers.

Section Generators.
Import GoStrings Origin Agent.

Lemma hexByte_valid (b : Byte.byte) :
  isIDByte (hexDigit (N.shiftr (Byte.to_N b) 4)) = true
  /\ isIDByte (hexDigit (N.land (Byte.to_N b) 15)) = true
  /\ isByte 58 (hexDigit (N.shiftr (Byte.to_N b) 4)) = false
  /\ isByte 58 (hexDigit (N.land (Byte.to_N b) 15)) = false.
Proof. destruct b; vm_compute; repeat split. Qed.

Lemma dropColons_hardwareString addr :
  dropColons (hardwareString addr) = fold_right hexByte "" addr.
Proof.
  induction addr as [| b rest IH]; [reflexivity |].
  destruct (hexByte_valid b) as (_ & _ & H1 & H2).
  destruct rest as [| b' rest'].
  - cbn [hardwareString fold_right hexByte dropColons]. rewrite H1, H2. reflexivity.
  - change (hardwareString (b :: b' :: rest'))
      with (hexByte b (String ":" (hardwareString (b' :: rest')))).
    change (fold_right hexByte "" (b :: b' :: rest'))
      with (hexByte b (fold_right hexByte "" (b' :: rest'))).
    rewrite <- IH. unfold hexByte.
    cbn [dropColons]. rewrite H1, H2. reflexivity.
Qed.

Lemma hexes_facts addr :
  String.length (fold_right hexByte "" addr) = (2 * length addr)%nat
  /\ allBytes isIDByte (fold_right hexByte "" addr) = true.
Proof.
  induction addr as [| b rest [IHl IHa]]; [split; reflexivity |].
  destruct (hexByte_valid b) as (H1 & H2 & _).
  cbn [fold_right hexByte String.length allBytes length]. rewrite H1, H2, IHl, IHa.
  split; [lia | reflexivity].
Qed.

Lemma hardwareString_nonEmpty addr :
  nonEmpty (hardwareString addr) = negb (Nat.eqb (length addr) 0).
Proof. destruct addr as [| b [| b' rest]]; reflexivity. Qed.

Lemma isValidClientID_suffix p suffix :
  allBytes isIDByte p = true -> isValidClientID suffix = true ->
  isValidClientID (String.append p suffix) = true.
Proof.
  unfold isValidClientID. intros Hp Hs. apply andb_true_iff in Hs as [Hne Hs].
  rewrite allBytes_app, Hp, Hs.
  destruct p as [| a p'];
    [change (String.append "" suffix) with suffix; rewrite Hne; reflexivity
    | reflexivity].
Qed.

(** What [generateIDFromMAC] makes of one hardware address. *)
Lemma address_cases addr :
  addr <> [] ->
  match sliceTo 10 (dropColons (hardwareString addr)) with
  | None => (length addr < 5)%nat
  | Some p =>
      (5 <= length addr)%nat
      /\ String.length (String.append p "-host") = 15%nat
      /\ isValidClientID (String.append p "-host") = true
  end.
Proof.
  intros Hne. rewrite dropColons_hardwareString.
  destruct (hexes_facts addr) as [Hlen Hall].
  destruct (Nat.lt_ge_cases (length addr) 5) as [Hshort | Hlong].
  - rewrite sliceTo_short by lia. exact Hshort.
  - destruct (sliceTo_defined 10 (fold_right hexByte "" addr)) as (p & Hp & Hl); [lia |].
    rewrite Hp. split; [exact Hlong |].
    split; [rewrite length_append, Hl; reflexivity |].
    apply isValidClientID_suffix; [| reflexivity].
    apply (sliceTo_allBytes _ _ _ _ Hp Hall).
Qed.

Lemma firstAddress_made l id :
  firstAddress l = Made id ->
  id = "" \/ (String.length id = 15%nat /\ isValidClientID id = true).
Proof.
  induction l as [| iface rest IH]; cbn [firstAddress]; intros H.
  - injection H as <-. left. reflexivity.
  - destruct (up iface); [| auto].
    destruct (HardwareAddr iface) as [addr |]; [| auto].
    rewrite hardwareString_nonEmpty in H.
    destruct addr as [| b addr']; [cbn in H; auto |].
    cbn [length Nat.eqb negb] in H.
    pose proof (address_cases (b :: addr') ltac:(discriminate)) as Hc.
    destruct (sliceTo 10 _) as [p |]; [| discriminate].
    injection H as <-. right. tauto.
Qed.

Lemma firstAddress_skip skipped : forall rest,
  Forall passedOver skipped -> firstAddress (skipped ++ rest)%list = firstAddress rest.
Proof.
  induction skipped as [| i skipped IH]; intros rest H; [reflexivity |].
  inversion H as [| ? ? Hi Hrest]; subst. cbn [app firstAddress].
  rewrite (IH rest Hrest).
  destruct Hi as [-> | [-> | ->]]; [reflexivity | destruct (up i); reflexivity |].
  destruct (up i); reflexivity.
Qed.

(** X22: [generateIDFromMAC] uses the first interface that is up and
    has a hardware address that is not empty. When that address has five
    bytes or more, the result is its first ten hexadecimal digits
    followed by "-host", 15 bytes that [Validate] accepts. When it has
    one to four bytes, as those of some tunnel interfaces, the slice
    [[:10]] is out of range and the function panics. *)
Theorem generateIDFromMAC_first_address (skipped rest : list Interface)
        (iface : Interface) (addr : list Byte.byte) :
  Forall passedOver skipped ->
  up iface = true ->
  HardwareAddr iface = Some addr ->
  addr <> [] ->
  let made := generateIDFromMAC (Some (skipped ++ iface :: rest)%list) in
  ((length addr < 5)%nat -> made = OutOfRange)
  /\ ((5 <= length addr)%nat ->
      exists p, sliceTo 10 (fold_right hexByte "" addr) = Some p
                /\ made = Made (String.append p "-host")
                /\ String.length (String.append p "-host") = 15%nat
                /\ isValidClientID (String.append p "-host") = true
                /\ forall c, Validate (setClientID (String.append p "-host") c) = None).
Proof.
  intros Hskip Hup Haddr Hne. cbn zeta. unfold generateIDFromMAC.
  rewrite (firstAddress_skip skipped _ Hskip). cbn [firstAddress].
  rewrite Hup, Haddr, hardwareString_nonEmpty.
  destruct addr as [| b addr']; [congruence |]. cbn [length Nat.eqb negb].
  pose proof (address_cases (b :: addr') Hne) as Hc.
  rewrite <- dropColons_hardwareString.
  destruct (sliceTo 10 (dropColons (hardwareString (b :: addr')))) as [p |].
  - destruct Hc as (Hlong & Hl & Hv). split; [cbn [length] in *; lia |].
    intros _. exists p. repeat split; try assumption.
    intros c. apply Validate_valid; [exact Hv | lia].
  - split; [reflexivity |]. cbn [length] in *. lia.
Qed.

Lemma charset_get d :
  (d < 36)%nat -> exists a, String.get d charset = Some a /\ isIDByte a = true.
Proof.
  intros H.
  do 36 (destruct d as [| d]; [eexists; split; reflexivity |]). lia.
Qed.

Lemma randomBytes_valid Intn n : forall i,
  (forall j, (Intn j < 36)%nat) ->
  exists b, randomBytes n i Intn = Some b
            /\ String.length b = n /\ allBytes isIDByte b = true.
Proof.
  induction n as [| n IH]; intros i Hdraw; [exists ""; repeat split |].
  cbn [randomBytes].
  destruct (charset_get (Intn i) (Hdraw i)) as (a & -> & Ha).
  destruct (IH (S i) Hdraw) as (b & -> & Hl & Hall).
  exists (String a b). cbn. rewrite Hl, Ha, Hall. repeat split.
Qed.

Lemma generateRandomID_valid Intn :
  (forall j, (Intn j < 36)%nat) ->
  exists id, generateRandomID Intn = Made id
             /\ String.length id = 14%nat /\ isValidClientID id = true.
Proof.
  intros Hdraw. unfold generateRandomID.
  destruct (randomBytes_valid Intn 8 0 Hdraw) as (b & -> & Hl & Hall).
  eexists. split; [reflexivity |].
  split; [rewrite length_append, Hl; reflexivity |].
  apply isValidClientID_suffix; [exact Hall | reflexivity].
Qed.

(** X23: [LoadConfig] never refuses an identifier that it generated.
    With an identifier set in the file, its result is that of
    [Validate]. With none, either [generateIDFromMAC] panics, or the
    configuration is returned with a generated identifier of 1 to 60
    bytes that [isValidClientID] accepts, whichever of the hardware
    address, the host name and the random generator it came from. *)
Theorem generated_identifiers_validate (m : Machine) (c : Config) :
  (forall j, (Intn m j < 36)%nat) ->
  (ClientID c <> "" ->
   LoadConfig m c = match Validate c with
                    | Some err => Some (inl err)
                    | None => Some (inr c)
                    end)
  /\ (ClientID c = "" ->
      (LoadConfig m c = None /\ generateIDFromMAC (Interfaces m) = OutOfRange)
      \/ exists id,
           LoadConfig m c = Some (inr (setClientID id c))
           /\ (1 <= String.length id <= 60)%nat
           /\ isValidClientID id = true).
Proof.
  intros Hdraw. unfold LoadConfig, generateClientID. split.
  - intros Hne. destruct (ClientID c) eqn:Hid; [congruence |]. cbn.
    destruct (Validate c); reflexivity.
  - intros Hempty. rewrite Hempty. cbn [nonEmpty String.eqb negb].
    assert (Hload : forall id, isValidClientID id = true ->
                               (1 <= String.length id <= 60)%nat ->
              exists id0,
                match Validate (setClientID id c) with
                | Some err => Some (inl err)
                | None => Some (inr (setClientID id c))
                end = Some (inr (setClientID id0 c))
                /\ (1 <= String.length id0 <= 60)%nat
                /\ isValidClientID id0 = true).
    { intros id Hv Hl. exists id. rewrite Validate_valid by (auto; lia). auto. }
    assert (Hrandom :
              exists id0,
                match match generateRandomID (Intn m) with
                      | Made r => Some (setClientID r c)
                      | OutOfRange => None
                      end with
                | Some config =>
                    match Validate config with
                    | Some err => Some (inl err)
                    | None => Some (inr config)
                    end
                | None => None
                end = Some (inr (setClientID id0 c))
                /\ (1 <= String.length id0 <= 60)%nat
                /\ isValidClientID id0 = true).
    { destruct (generateRandomID_valid (Intn m) Hdraw) as (id & -> & Hl & Hv).
      apply Hload; [exact Hv | lia]. }
    destruct (generateIDFromMAC (Interfaces m)) as [id |] eqn:Hmac; [| left; auto].
    right.
    assert (Hid : id = "" \/ (String.length id = 15%nat /\ isValidClientID id = true)).
    { unfold generateIDFromMAC in Hmac. destruct (Interfaces m) as [l |].
      - apply (firstAddress_made l id Hmac).
      - injection Hmac as <-. left. reflexivity. }
    destruct Hid as [-> | [Hl Hv]].
    + cbn [nonEmpty String.eqb negb].
      destruct (Hostname m) as [[| a r] |]; [exact Hrandom | | exact Hrandom].
      destruct (sanitizeHostname_facts (String a r) ltac:(discriminate))
        as (Hl & _ & Hv).
      apply Hload; assumption.
    + destruct id as [| a r]; [discriminate |]. cbn [nonEmpty String.eqb negb].
      apply Hload; [exact Hv | lia].
Qed.

End Generators.

Section Handshake.
Import GoStrings Origin RPC Agent.

(** A byte of an identifier is neither white space nor the start of a
    multi-byte white space. *)
Lemma isIDByte_plain a :
  isIDByte a = true ->
  isAsciiSpace a = false
  /\ (forall b, isSpace2 a b = false) /\ (forall b c, isSpace3 a b c = false)
  /\ (forall b, isSpace2 b a = false) /\ (forall b c, isSpace3 c b a = false).
Proof.
  intros H.
  assert (Hr : (45 <= byteVal a <= 122)%N).
  { unfold isIDByte, isAlnum, inRange, isByte in H.
    repeat match type of H with
           | context [(?x <=? ?y)%N] => destruct (N.leb_spec x y)
           | context [(?x =? ?y)%N] => destruct (N.eqb_spec x y)
           end; cbn in H; try discriminate; lia. }
  unfold isAsciiSpace, isSpace2, isSpace3, isByte.
  repeat split; intros;
    repeat match goal with
           | |- context [(byteVal a <=? ?y)%N] => destruct (N.leb_spec (byteVal a) y)
           | |- context [(?x <=? byteVal a)%N] => destruct (N.leb_spec x (byteVal a))
           | |- context [(byteVal a =? ?y)%N] => destruct (N.eqb_spec (byteVal a) y)
           end; try lia; cbn; rewrite ?andb_false_r, ?orb_false_r; try reflexivity.
Qed.

Lemma trimLeft_id s : allBytes isIDByte s = true -> trimLeft s = s.
Proof.
  destruct s as [| a r]; [reflexivity |]. cbn [allBytes]. intros H.
  apply andb_true_iff in H as [Ha _].
  destruct (isIDByte_plain a Ha) as (H1 & H2 & H3 & _).
  cbn [trimLeft]. rewrite H1.
  destruct r as [| b r]; [reflexivity |]. rewrite H2.
  destruct r as [| c r]; [reflexivity |]. rewrite H3. reflexivity.
Qed.

Lemma trimLeftRev_id s : allBytes isIDByte s = true -> trimLeftRev s = s.
Proof.
  destruct s as [| a r]; [reflexivity |]. cbn [allBytes]. intros H.
  apply andb_true_iff in H as [Ha _].
  destruct (isIDByte_plain a Ha) as (H1 & _ & _ & H4 & H5).
  cbn [trimLeftRev]. rewrite H1.
  destruct r as [| b r]; [reflexivity |]. rewrite H4.
  destruct r as [| c r]; [reflexivity |]. rewrite H5. reflexivity.
Qed.

Lemma rev_onto_rev_onto s : forall acc acc',
  rev_onto (rev_onto s acc) acc' = rev_onto acc (String.append s acc').
Proof.
  induction s as [| a s IH]; intros acc acc'; [reflexivity |].
  cbn [rev_onto]. rewrite IH. reflexivity.
Qed.

Lemma append_empty s : String.append s "" = s.
Proof.
  induction s as [| a s IH]; [reflexivity |].
  change (String a (String.append s "") = String a s). rewrite IH. reflexivity.
Qed.

Lemma rev_rev s : rev (rev s) = s.
Proof.
  unfold rev. rewrite rev_onto_rev_onto. cbn [rev_onto]. apply append_empty.
Qed.

Lemma allBytes_rev_onto p s : forall acc,
  allBytes p (rev_onto s acc) = allBytes p s && allBytes p acc.
Proof.
  induction s as [| a s IH]; intros acc; [reflexivity |].
  cbn [rev_onto allBytes]. rewrite IH. cbn [allBytes].
  destruct (p a), (allBytes p s), (allBytes p acc); reflexivity.
Qed.

Lemma TrimSpace_id s : allBytes isIDByte s = true -> TrimSpace s = s.
Proof.
  intros H. unfold TrimSpace. rewrite (trimLeft_id s H). unfold trimRight.
  rewrite trimLeftRev_id; [apply rev_rev |].
  unfold rev. rewrite allBytes_rev_onto, H. reflexivity.
Qed.

Lemma seen_carries md key s : seen md key = Some (Some s) -> carries md key s.
Proof.
  unfold seen, carries, mdValue. intros H w.
  destruct (md !! key) as [[| v vs] |]; try discriminate.
  injection H as <-. reflexivity.
Qed.

Lemma establishConnection_seen c :
  seen (establishConnection c) "client_secret" = Some (Some (TrimSpace (Secret c)))
  /\ seen (establishConnection c) "client_uuid" = Some (Some (TrimSpace (ClientID c)))
  /\ seen (establishConnection c) "server_name"
     = (if nonEmpty (ServerName c) then Some (Some (TrimSpace (ServerName c))) else None)
  /\ seen (establishConnection c) "server_group_name"
     = (if nonEmpty (ServerGroup c) then Some (Some (TrimSpace (ServerGroup c))) else None).
Proof.
  unfold establishConnection, seen.
  destruct (nonEmpty (ServerName c)); destruct (nonEmpty (ServerGroup c));
    repeat split;
    repeat first
      [ rewrite lookup_insert_eq
      | rewrite lookup_insert_ne by discriminate
      | rewrite lookup_singleton_eq
      | rewrite lookup_singleton_ne by discriminate ];
    reflexivity.
Qed.

(** X24: an identifier that the agent validated passes the validation
    of the server unchanged. When [Validate] accepts a configuration
    whose identifier is not empty, and the server receives the metadata
    that [establishConnection] built, then [Check], once it has accepted
    the secret, finds the identifier of the agent under [client_uuid]
    (trimming changes nothing), does not refuse it for its length, and
    goes on to the Identity Cache lookup with it. A name or a group that
    the configuration leaves empty is not sent at all. *)
Theorem validated_identifier_accepted (c : Config) (ctx : Ctx)
        (md : gmap string (list string)) (userId : N) (w : World) :
  Validate c = None ->
  ClientID c <> "" ->
  metadata ctx = Some md ->
  sameView (establishConnection c) md ->
  TrimSpace (Secret c) <> "" ->
  AgentSecretToUserId w !! TrimSpace (Secret c) = Some userId ->
  carries md "client_uuid" (ClientID c)
  /\ badUUID (ClientID c) = false
  /\ RPC.Check ctx w = identify md userId (ClientID c) (unblocked (realIP ctx) w)
  /\ (ServerName c = "" -> md !! "server_name" = None)
  /\ (ServerGroup c = "" -> md !! "server_group_name" = None).
Proof.
  intros Hvalid Hne Hmd (Hsec & Huuid & Hname & Hgroup) Hsecret Hsome.
  destruct (establishConnection_seen c) as (Es & Eu & En & Eg).
  rewrite Es in Hsec. rewrite Eu in Huuid. rewrite En in Hname. rewrite Eg in Hgroup.
  assert (Hid : isValidClientID (ClientID c) = true
                /\ (String.length (ClientID c) <= 64)%nat).
  { unfold Validate in Hvalid.
    destruct (ClientID c) as [| a r] eqn:Hc; [congruence |].
    cbn [nonEmpty String.eqb negb] in Hvalid.
    destruct (Nat.ltb_spec 64 (String.length (String a r))); [discriminate |].
    destruct (isValidClientID (String a r)); [split; [reflexivity | lia] | discriminate]. }
  destruct Hid as [Hv Hlen].
  assert (Hall : allBytes isIDByte (ClientID c) = true).
  { unfold isValidClientID in Hv. apply andb_true_iff in Hv as [_ Hv]. exact Hv. }
  rewrite (TrimSpace_id _ Hall) in Huuid.
  pose proof (seen_carries md _ _ Hsec) as Hcs.
  pose proof (seen_carries md _ _ Huuid) as Hcu.
  assert (Hgood : badUUID (ClientID c) = false).
  { apply badUUID_false. destruct (ClientID c); [congruence | cbn in *; lia]. }
  split; [exact Hcu |]. split; [exact Hgood |]. split.
  - rewrite (Check_authenticated ctx md w _ userId _ Hmd Hcs Hsecret Hsome Hcu).
    rewrite Hgood. reflexivity.
  - split.
    + intros Hn. rewrite Hn in Hname. cbn in Hname. unfold seen in Hname.
      destruct (md !! "server_name") as [[| v vs] |]; [discriminate .. | reflexivity].
    + intros Hg. rewrite Hg in Hgroup. cbn in Hgroup. unfold seen in Hgroup.
      destruct (md !! "server_group_name") as [[| v vs] |];
        [discriminate .. | reflexivity].
Qed.

Lemma First_returns name owner w :
  exists r w', First name owner w = (Val r, w').
Proof.
  unfold First, bind, send, get, ret. cbn.
  destruct (mjoin (head (faults (DB w)))); cbn; [eauto |].
  destruct (find _ _); eauto.
Qed.

(** X25: the refusals of the server that concern a group are the ones
    the agent explains. Whenever the group resolution of [Check] fails,
    its message is one of three, and [handleConnectionError] logs the
    hint that belongs to it rather than the generic line. *)
Theorem group_refusals_have_hints (md : gmap string (list string)) (userId : N)
        (w : World) (e : Status) :
  fst (resolveGroup md userId w) = Failed e ->
  (message e = msgGroupMissing
   /\ handleConnectionError (Some (StatusError (message e))) = Some hintGroupMissing)
  \/ (message e = msgGroupDenied
      /\ handleConnectionError (Some (StatusError (message e))) = Some hintGroupDenied)
  \/ (message e = msgGroupQueryFailed
      /\ handleConnectionError (Some (StatusError (message e))) = Some hintGroupQuery).
Proof.
  unfold resolveGroup.
  destruct (md !! "server_group_name") as [[| v vs] |]; try discriminate.
  destruct (isEmpty (TrimSpace v)); [discriminate |].
  rewrite bind_eq.
  destruct (First_returns (TrimSpace v) (Some userId) w) as (r & w1 & ->).
  destruct r as [g | | err].
  - discriminate.
  - rewrite bind_eq. unfold get at 1.
    destruct (UserInfoMap w1 !! userId) as [[[|]] |].
    + rewrite bind_eq.
      destruct (First_returns (TrimSpace v) None w1) as (r' & w2 & ->).
      destruct r' as [g | | err]; cbn; intros H; [discriminate | |];
        injection H as <-; [left | right; right]; split; reflexivity.
    + cbn. intros H. injection H as <-. right. left. split; reflexivity.
    + cbn. intros H. injection H as <-. right. left. split; reflexivity.
  - cbn. intros H. injection H as <-. right. right. split; reflexivity.
Qed.

End Handshake.

(** *** The theorems above at a concrete agent *)

Section AgentExamples.
Import GoStrings Origin RPC Agent Samples.

Lemma sanitizeHostname_valid_witness :
  sanitizeHostname "web_01.example.com" = "web-01-example-com"
  /\ isValidClientID (sanitizeHostname "web_01.example.com") = true.
Proof.
  split; [reflexivity |].
  apply (sanitizeHostname_valid "web_01.example.com"). discriminate.
Defined.

Lemma generateIDFromMAC_first_address_witness :
  generateIDFromMAC (Some [loopback; ethernet]) = Made "5254001234-host"
  /\ generateIDFromMAC (Some [loopback; tunnel]) = OutOfRange.
Proof.
  split.
  - destruct (generateIDFromMAC_first_address [loopback] [] ethernet
                [Byte.x52; Byte.x54; Byte.x00; Byte.x12; Byte.x34; Byte.x56])
      as [_ Hlong].
    + constructor; [right; right; reflexivity | constructor].
    + reflexivity.
    + reflexivity.
    + discriminate.
    + destruct Hlong as (p & Hp & Hmade & _); [cbn; lia |].
      vm_compute in Hp. injection Hp as <-. exact Hmade.
  - apply (generateIDFromMAC_first_address [loopback] [] tunnel
             [Byte.x0a; Byte.x00; Byte.x00; Byte.x01]).
    + constructor; [right; right; reflexivity | constructor].
    + reflexivity.
    + reflexivity.
    + discriminate.
    + cbn. lia.
Defined.

Lemma generated_identifiers_validate_witness :
  exists id,
    LoadConfig bareMachine blankConfig = Some (inr (setClientID id blankConfig))
    /\ (1 <= String.length id <= 60)%nat
    /\ isValidClientID id = true.
Proof.
  destruct (generated_identifiers_validate bareMachine blankConfig) as [_ Hgen].
  - intros j. cbn. lia.
  - destruct (Hgen eq_refl) as [[Hnone _] | Hmade].
    + vm_compute in Hnone. discriminate.
    + exact Hmade.
Defined.

Lemma validated_identifier_accepted_witness :
  RPC.Check newAgent (fleetWorld [])
  = identify newAgentMD 42 "new-agent" (unblocked "203.0.113.9" (fleetWorld [])).
Proof.
  apply (validated_identifier_accepted edgeConfig newAgent newAgentMD 42 (fleetWorld [])).
  - reflexivity.
  - discriminate.
  - reflexivity.
  - vm_compute. repeat split.
  - vm_compute. discriminate.
  - reflexivity.
Defined.

Lemma group_refusals_have_hints_witness :
  handleConnectionError (Some (StatusError msgGroupDenied)) = Some hintGroupDenied.
Proof.
  destruct (group_refusals_have_hints (agentMD "s3cret" "new-agent" "prod") 42
              (fleetWorld []) (mkStatus Unauthenticated msgGroupDenied))
    as [[Hm _] | [[_ Hhint] | [Hm _]]].
  - vm_compute. reflexivity.
  - vm_compute in Hm. discriminate.
  - exact Hhint.
  - vm_compute in Hm. discriminate.
Defined.

End AgentExamples.
